(** * VideoDepthViewer3D backend: a shallow embedding and its properties

    The development follows the layout of [backend/]:
    - [Queues]   : [utils/queues.py]   (the drop-oldest intake queue)
    - [Packets]  : [utils/packets.py]  (quantisation and the wire header)
    - [Float], [PacketsFloat] : the same code with float32 and float64
      rounding, for the numerical properties
    - [Session]  : [video/session.py]  (depth cache, rolling stats, controller)
    - [VideoIO]  : [video/io.py]       (the single-decoder seek/advance logic)
    - [Stream]   : [routers/stream.py] (processor, pipeline tasks, sender)

    Python [float]s are modelled as exact rationals ([Q]), and where the
    rounding of an operation matters its result is rounded by [Float];
    Python [int]s as [Z]; [dict]s with string keys as [gmap string _]; a
    [deque] as a list whose head is the left (oldest) end. *)

From Stdlib Require Import ZArith QArith Qround Qabs Qminmax Qpower Lia Lqa List.
From stdpp Require Import gmap strings list sorting.

Local Open Scope Z_scope.

(* ===================================================================== *)
(** ** utils/queues.py *)
(* ===================================================================== *)

Module Queues.

Section DroppingQueue.
Context {T : Type}.

(** [class DroppingQueue]: [_queue] is the deque (oldest element first);
    the [asyncio.Event] carries no data and is left out. *)
Record DroppingQueue : Type := mkDroppingQueue {
  maxsize : Z;
  _queue : list T;
  _dropped_count : Z
}.

(** [DroppingQueue.__init__(maxsize)] *)
Definition init (maxsize : Z) : DroppingQueue :=
  {| maxsize := maxsize; _queue := []; _dropped_count := 0 |}.

(** [put_nowait]: a plain function of the state; there is no branch that
    waits. [popleft] is only reached on a non-empty deque. *)
Definition put_nowait (item : T) (q : DroppingQueue) : DroppingQueue :=
  let q1 :=
    if (0 <? maxsize q) && (maxsize q <=? Z.of_nat (length (_queue q)))
    then {| maxsize := maxsize q;
            _queue := drop 1 (_queue q);
            _dropped_count := _dropped_count q + 1 |}
    else q in
  {| maxsize := maxsize q1;
     _queue := _queue q1 ++ [item];
     _dropped_count := _dropped_count q1 |}.

(** [get]: [None] stands for "the queue is empty, the caller waits". *)
Definition get (q : DroppingQueue) : option (T * DroppingQueue) :=
  match _queue q with
  | [] => None
  | x :: rest =>
      Some (x, {| maxsize := maxsize q; _queue := rest;
                  _dropped_count := _dropped_count q |})
  end.

Definition dropped_count (q : DroppingQueue) : Z := _dropped_count q.

Definition reset_dropped_count (q : DroppingQueue) : DroppingQueue :=
  {| maxsize := maxsize q; _queue := _queue q; _dropped_count := 0 |}.

Definition qsize (q : DroppingQueue) : Z := Z.of_nat (length (_queue q)).

(** A producer calling [put_nowait] for each item of [items] in turn,
    with no consumer in between. *)
Definition put_all (items : list T) (q : DroppingQueue) : DroppingQueue :=
  foldl (fun acc x => put_nowait x acc) q items.

(** A consumer calling [get] up to [n] times, stopping where it would have
    to wait: the items received, in order, and the queue left behind. *)
Fixpoint get_n (n : nat) (q : DroppingQueue) : list T * DroppingQueue :=
  match n with
  | O => ([], q)
  | S k =>
      match get q with
      | None => ([], q)
      | Some (x, q') => let '(xs, q'') := get_n k q' in (x :: xs, q'')
      end
  end.

End DroppingQueue.

Arguments DroppingQueue : clear implicits.

End Queues.

(* ===================================================================== *)
(** ** Python results and backend/config.py *)
(* ===================================================================== *)

Module Py.

(** The exceptions the modelled code raises. *)
Inductive exn : Type :=
| StructError      (* struct.error: argument out of range *)
| OverflowError    (* float too large to pack with f format *)
| StopIteration
| EOFError.        (* av.error.EOFError: the decoder was sent data after its end *)

Inductive result (A : Type) : Type :=
| Ok (a : A)
| Raise (e : exn).

Arguments Ok {A} a.
Arguments Raise {A} e.

(** Sequencing: the first exception raised ends the computation. *)
#[global] Instance result_ret : MRet result := fun A a => Ok a.
#[global] Instance result_bind : MBind result := fun A B k r =>
  match r with
  | Ok a => k a
  | Raise e => Raise e
  end.

(** [a < b] on floats. *)
Definition Qlt_bool (a b : Q) : bool := negb (Qle_bool b a).

(** [int(x)] on a finite float: truncation toward zero. *)
Definition int_of_float (x : Q) : Z := Z.quot (Qnum x) (Z.pos (Qden x)).

End Py.

Module Config.

(** The fields of [class Settings] that the modelled code reads. *)
Record Settings : Type := mkSettings {
  video_cache_size : Z;
  depth_process_res : Z;
  depth_header_magic : list Z;
  depth_compression_level : Z
}.

(** The defaults of [class Settings]; the magic is [b"VDZ1"]. *)
Definition default : Settings :=
  {| video_cache_size := 8;
     depth_process_res := 640;
     depth_header_magic := [86; 68; 90; 49];
     depth_compression_level := 0 |}.

End Config.

(* ===================================================================== *)
(** ** utils/packets.py *)
(* ===================================================================== *)

Module Packets.

(** *** [struct.Struct("<4sHHIIIfff")] *)

Inductive field_format : Type := Fmt_4s | Fmt_H | Fmt_I | Fmt_f.

Definition field_size (f : field_format) : Z :=
  match f with
  | Fmt_4s => 4
  | Fmt_H => 2
  | Fmt_I => 4
  | Fmt_f => 4
  end.

Definition HEADER_STRUCT : list field_format :=
  [Fmt_4s; Fmt_H; Fmt_H; Fmt_I; Fmt_I; Fmt_I; Fmt_f; Fmt_f; Fmt_f].

(** [HEADER_STRUCT.size]: little-endian standard sizes, no padding. *)
Definition HEADER_SIZE : Z := foldr (fun f acc => field_size f + acc) 0 HEADER_STRUCT.

Definition DATA_TYPE_UINT16 : Z := 1.

(** The unpacked view of the 32 header bytes. The three [f] fields hold the
    value itself: float32 rounding is not modelled, only the range check
    that makes [struct] raise. *)
Record Header : Type := mkHeader {
  h_magic : list Z;
  h_version : Z;
  h_data_type : Z;
  h_timestamp_ms : Z;
  h_width : Z;
  h_height : Z;
  h_scale : Q;
  h_bias : Q;
  h_z_max : Q
}.

(** [4s]: the bytes argument is truncated or zero-padded to four bytes. *)
Definition pack_4s (b : list Z) : list Z := take 4 (b ++ replicate 4 0).

(** [H] and [I]: a value outside the unsigned range raises [struct.error];
    nothing is reduced modulo [2^16] or [2^32]. *)
Definition pack_H (v : Z) : Py.result Z :=
  if (0 <=? v) && (v <? 2 ^ 16) then Py.Ok v else Py.Raise Py.StructError.

Definition pack_I (v : Z) : Py.result Z :=
  if (0 <=? v) && (v <? 2 ^ 32) then Py.Ok v else Py.Raise Py.StructError.

(** [f]: a double that rounds to a float32 infinity raises [OverflowError];
    that is every value of magnitude at least [2^128 - 2^103]. *)
Definition F32_OVERFLOW : Q := inject_Z (2 ^ 128 - 2 ^ 103).

Definition pack_f (x : Q) : Py.result Q :=
  if Qle_bool F32_OVERFLOW (Qabs x) then Py.Raise Py.OverflowError else Py.Ok x.

Definition HEADER_STRUCT_pack (magic : list Z) (version data_type timestamp width height : Z)
    (scale bias z_max : Q) : Py.result Header :=
  v ← pack_H version;
  dt ← pack_H data_type;
  ts ← pack_I timestamp;
  w ← pack_I width;
  h ← pack_I height;
  s ← pack_f scale;
  b ← pack_f bias;
  zm ← pack_f z_max;
  Py.Ok {| h_magic := pack_4s magic; h_version := v; h_data_type := dt;
           h_timestamp_ms := ts; h_width := w; h_height := h;
           h_scale := s; h_bias := b; h_z_max := zm |}.

(** *** Arrays *)

(** A two-dimensional [np.ndarray] of floats: [shape = (shape0, shape1)],
    elements in row-major order. *)
Record ndarray : Type := mkArray {
  shape0 : Z;
  shape1 : Z;
  data : list Q
}.

(** [np.clip(a, lo, hi)] is [minimum(maximum(a, lo), hi)], elementwise. *)
Definition clip (lo hi x : Q) : Q := Qmin (Qmax x lo) hi.

(** [np.rint]: round to the nearest integer, ties to the even one. *)
Definition rint (x : Q) : Z :=
  let f := Qfloor x in
  match (x - inject_Z f ?= 1 # 2)%Q with
  | Lt => f
  | Gt => f + 1
  | Eq => if Z.even f then f else f + 1
  end.

(** [astype("<u2")]: sixteen bits are kept. *)
Definition astype_u2 (n : Z) : Z := n mod 2 ^ 16.

(** [tobytes()] of a little-endian u16 array. *)
Definition tobytes (encoded : list Z) : list Z :=
  flat_map (fun e => [e mod 256; e / 256]) encoded.

(** [quantize_depth]. The first component is the content of the caller's
    [depth] buffer after the call: [np.clip(..., out=depth)] overwrites it. *)
Definition quantize_depth (depth : ndarray) (z_min z_max : Q)
    : ndarray * (list Z * Q * Q) :=
  let z_max := if Qle_bool z_max z_min then (z_min + (1 # 1000))%Q else z_max in
  let scale := ((z_max - z_min) / 65535)%Q in
  let depth := {| shape0 := shape0 depth; shape1 := shape1 depth;
                  data := map (clip z_min z_max) (data depth) |} in
  let normalized := map (fun d => ((d - z_min) / scale)%Q) (data depth) in
  let encoded := map (fun x => astype_u2 (rint x)) normalized in
  (depth, (encoded, scale, z_min)).

Record DepthPayload : Type := mkDepthPayload {
  header : Header;         (* buffer[:32] *)
  payload_bytes : list Z;  (* buffer[32:] *)
  width : Z;
  height : Z;
  scale : Q;
  bias : Q;
  z_max : Q
}.

(** [len(payload.buffer)] *)
Definition buffer_length (p : DepthPayload) : Z :=
  HEADER_SIZE + Z.of_nat (length (payload_bytes p)).

Section Pack.
(** [zlib.compress(_, level=1)] is an external library function. *)
Variable zlib_compress : list Z -> list Z.
Variable settings : Config.Settings.

(** [pack_depth_payload]; again the first component is the caller's array
    after the call. *)
Definition pack_depth_payload (depth : ndarray) (timestamp_ms z_min z_max : Q)
    (compress : bool) : ndarray * Py.result DepthPayload :=
  let '(depth, (encoded, scale, bias)) := quantize_depth depth z_min z_max in
  let raw_bytes := tobytes encoded in
  let '(payload_bytes, magic) :=
    if compress then (zlib_compress raw_bytes, [86; 68; 90; 50])
    else (raw_bytes, Config.depth_header_magic settings) in
  let header :=
    HEADER_STRUCT_pack magic 1 DATA_TYPE_UINT16
      (Py.int_of_float timestamp_ms) (shape1 depth) (shape0 depth)
      scale bias z_max in
  (depth,
   hdr ← header;
   Py.Ok {| header := hdr; payload_bytes := payload_bytes;
            width := shape1 depth; height := shape0 depth;
            scale := scale; bias := bias; z_max := z_max |}).

End Pack.

(** *** Arrays as shared objects *)

(** Python passes an array by reference: the caller and the callee hold the
    same object. A store maps the address of every live array to its current
    content; [None] below only arises for an address that is not in the
    store. *)

(** [arr.copy()]: a new object with the same content. *)
Definition ndarray_copy (σ : gmap nat ndarray) (arr : nat)
    : option (nat * gmap nat ndarray) :=
  a ← σ !! arr;
  let fresh_addr := fresh (dom σ) in
  Some (fresh_addr, <[fresh_addr := a]> σ).

(** [quantize_depth(depth, ...)] on the object at address [depth]. *)
Definition quantize_depth_at (σ : gmap nat ndarray) (depth : nat) (z_min z_max : Q)
    : option ((list Z * Q * Q) * gmap nat ndarray) :=
  a ← σ !! depth;
  let '(a', out) := quantize_depth a z_min z_max in
  Some (out, <[depth := a']> σ).

(** [pack_depth_payload(depth, ...)] on the object at address [depth]. *)
Definition pack_depth_payload_at (zlib_compress : list Z -> list Z)
    (settings : Config.Settings) (σ : gmap nat ndarray) (depth : nat)
    (timestamp_ms z_min z_max : Q) (compress : bool)
    : option (Py.result DepthPayload * gmap nat ndarray) :=
  a ← σ !! depth;
  let '(a', r) :=
    pack_depth_payload zlib_compress settings a timestamp_ms z_min z_max compress in
  Some (r, <[depth := a']> σ).

(** *** The receiving side *)

(** Reading consecutive little-endian u16 values. *)
Fixpoint read_u16_le (bs : list Z) : list Z :=
  match bs with
  | lo :: hi :: rest => (lo + 256 * hi) :: read_u16_le rest
  | _ => []
  end.

(** Modelled from the spec: the viewer's decoding of a payload (it is not
    part of the backend): after the 32-byte header, the pixels are read as
    little-endian u16 and mapped to [scale * x + bias] with the header's
    fields. [inflate] undoes the deflate step of a [VDZ2] payload. *)
Definition dequantize (inflate : list Z -> list Z) (compressed : bool)
    (p : DepthPayload) : list Q :=
  let raw := if compressed then inflate (payload_bytes p) else payload_bytes p in
  map (fun x => (h_scale (header p) * inject_Z x + h_bias (header p))%Q)
      (read_u16_le raw).

End Packets.

(* ===================================================================== *)
(** ** Floating-point rounding *)
(* ===================================================================== *)

(** IEEE 754 binary formats as the rationals they can hold. A finite float
    is a rational; an operation on floats is the exact operation followed
    by [round]. Results beyond the largest finite number, which the
    hardware turns into infinities, are outside this model: the properties
    below bound the magnitudes they are about. *)
Module Float.
Local Open Scope Q_scope.

(** [floor(log2 x)] of a positive rational: the difference of the bit
    lengths of numerator and denominator, corrected by one comparison. *)
Definition ilog2 (x : Q) : Z :=
  let e := (Z.log2 (Qnum x) - Z.log2 (Z.pos (Qden x)))%Z in
  if Qle_bool (2 ^ e) x then e else (e - 1)%Z.

(** The exponent of the unit in the last place of [x] in a format with
    [prec] significant bits whose least (subnormal) unit is [2^emin]. *)
Definition exponent (prec emin : Z) (x : Q) : Z :=
  Z.max (ilog2 (Qabs x) - prec + 1) emin.

(** Round to nearest, ties to even: [x] is scaled to units in the last
    place and rounded there as [np.rint] rounds, to the even neighbour on a
    tie. The result is kept in lowest terms. *)
Definition round (prec emin : Z) (x : Q) : Q :=
  if Qeq_bool x 0 then 0
  else
    let q := exponent prec emin x in
    Qred (inject_Z (Packets.rint (x / 2 ^ q)) * 2 ^ q).

(** float32 ([np.float32], the [f] of [struct]) and float64 (a Python
    [float]). *)
Definition binary32 : Q -> Q := round 24 (-149).
Definition binary64 : Q -> Q := round 53 (-1074).
End Float.

(* ===================================================================== *)
(** ** utils/packets.py on a float32 array *)
(* ===================================================================== *)

(** [quantize_depth] and [pack_depth_payload] once more, now with the
    rounding of every floating-point operation. [depth] is a float32 array
    (the depth model produces [np.float32]); [z_min], [z_max] and [scale]
    are Python floats, that is float64. In an operation between the array
    and a Python float NumPy converts the float to float32 and computes in
    float32; [struct] stores an [f] field rounded to float32. *)
Module PacketsFloat.

(** The result of a float32 division. A zero divisor gives [inf] or [nan]
    (NumPy warns and goes on). *)
Inductive quotient : Type :=
| Finite (x : Q)
| Inf (negative : bool)
| NaN.

(** [t / s] on float32 operands. *)
Definition divide (t s : Q) : quotient :=
  if Qeq_bool s 0 then (if Qeq_bool t 0 then NaN else Inf (Py.Qlt_bool t 0))
  else Finite (Float.binary32 (t / s)).

(** [f]: the double is stored rounded to float32; one that rounds to an
    infinity raises [OverflowError]. *)
Definition pack_f (x : Q) : Py.result Q :=
  if Qle_bool Packets.F32_OVERFLOW (Qabs x) then Py.Raise Py.OverflowError
  else Py.Ok (Float.binary32 x).

Definition HEADER_STRUCT_pack (magic : list Z)
    (version data_type timestamp width height : Z)
    (scale bias z_max : Q) : Py.result Packets.Header :=
  v ← Packets.pack_H version;
  dt ← Packets.pack_H data_type;
  ts ← Packets.pack_I timestamp;
  w ← Packets.pack_I width;
  h ← Packets.pack_I height;
  s ← pack_f scale;
  b ← pack_f bias;
  zm ← pack_f z_max;
  Py.Ok {| Packets.h_magic := Packets.pack_4s magic; Packets.h_version := v;
           Packets.h_data_type := dt; Packets.h_timestamp_ms := ts;
           Packets.h_width := w; Packets.h_height := h;
           Packets.h_scale := s; Packets.h_bias := b; Packets.h_z_max := zm |}.

Section Pack.
(** What [astype("<u2")] makes of [inf] and [nan] is left to the
    platform's conversion instruction. *)
Variable nonfinite_u2 : quotient -> Z.
(** [zlib.compress(_, level=1)] is an external library function. *)
Variable zlib_compress : list Z -> list Z.
Variable settings : Config.Settings.

(** [np.rint(_).astype("<u2")] of one element; a float32 is an integer
    after [np.rint], and sixteen bits of it are kept. *)
Definition rint_astype_u2 (x : quotient) : Z :=
  match x with
  | Finite v => Packets.astype_u2 (Packets.rint v)
  | _ => nonfinite_u2 x
  end.

(** [quantize_depth]. The first component is the content of the caller's
    [depth] buffer after the call. [z_min + 1e-3], [z_max - z_min] and the
    division by [65535.0] are float64 operations; [np.clip], the
    subtraction and the division of the array are float32 operations on
    the float32 values of [z_min], [z_max] and [scale]. *)
Definition quantize_depth (depth : Packets.ndarray) (z_min z_max : Q)
    : Packets.ndarray * (list Z * Q * Q) :=
  let z_max :=
    if Qle_bool z_max z_min
    then Float.binary64 (z_min + Float.binary64 (1 # 1000)) else z_max in
  let scale := Float.binary64 (Float.binary64 (z_max - z_min) / 65535) in
  let depth :=
    {| Packets.shape0 := Packets.shape0 depth;
       Packets.shape1 := Packets.shape1 depth;
       Packets.data :=
         map (Packets.clip (Float.binary32 z_min) (Float.binary32 z_max))
             (Packets.data depth) |} in
  let normalized :=
    map (fun d => divide (Float.binary32 (d - Float.binary32 z_min))
                         (Float.binary32 scale))
        (Packets.data depth) in
  let encoded := map rint_astype_u2 normalized in
  (depth, (encoded, scale, z_min)).

(** [pack_depth_payload]; the payload keeps the Python floats, its header
    their float32 roundings. *)
Definition pack_depth_payload (depth : Packets.ndarray)
    (timestamp_ms z_min z_max : Q) (compress : bool)
    : Packets.ndarray * Py.result Packets.DepthPayload :=
  let '(depth, (encoded, scale, bias)) := quantize_depth depth z_min z_max in
  let raw_bytes := Packets.tobytes encoded in
  let '(payload_bytes, magic) :=
    if compress then (zlib_compress raw_bytes, [86; 68; 90; 50])
    else (raw_bytes, Config.depth_header_magic settings) in
  let header :=
    HEADER_STRUCT_pack magic 1 Packets.DATA_TYPE_UINT16
      (Py.int_of_float timestamp_ms) (Packets.shape1 depth) (Packets.shape0 depth)
      scale bias z_max in
  (depth,
   hdr ← header;
   Py.Ok {| Packets.header := hdr; Packets.payload_bytes := payload_bytes;
            Packets.width := Packets.shape1 depth;
            Packets.height := Packets.shape0 depth;
            Packets.scale := scale; Packets.bias := bias;
            Packets.z_max := z_max |}).

End Pack.

End PacketsFloat.

(* ===================================================================== *)
(** ** video/session.py *)
(* ===================================================================== *)

Module Session.

Local Open Scope string_scope.
Local Open Scope Z_scope.

(** [class DepthFrame]. Arrays are objects on the heap: [depth] is the
    address of the frame's array in a store of arrays. *)
Record DepthFrame : Type := mkDepthFrame {
  timestamp_ms : Q;
  depth : nat;
  z_min : Q;
  z_max : Q
}.

(** [class VideoSession], without the path, metadata and decoder pool. The
    per-session lock makes each method below one atomic step. *)
Record VideoSession : Type := mkVideoSession {
  depth_buffer : list DepthFrame;      (* deque, oldest frame first *)
  last_depth_time_ms : option Q;
  telemetry : gmap string Q;
  rolling_stats : gmap string Q;
  _quality_cooldown : Z
}.

(** A [dict[str, float]] argument, in insertion order. *)
Definition metrics_dict : Type := list (string * Q).

Fixpoint dict_get (k : string) (m : metrics_dict) : option Q :=
  match m with
  | [] => None
  | (k', v) :: m' => if String.eqb k k' then Some v else dict_get k m'
  end.

(** What the controller writes to [telemetry["quality_process_res"]]: the
    initialising write, or the write of a changed resolution. *)
Inductive quality_write : Type :=
| InitWrite (res : Z)
| ChangeWrite (current_res new_res : Z).

Definition written_value (w : quality_write) : Z :=
  match w with
  | InitWrite res => res
  | ChangeWrite _ new_res => new_res
  end.

(** [collections.deque(maxlen=n).append(x)] *)
Definition deque_append {A : Type} (maxlen : Z) (x : A) (d : list A) : list A :=
  let d' := (d ++ [x])%list in
  if maxlen <? Z.of_nat (length d') then drop 1 d' else d'.

(** [min(steps, key=lambda x: abs(x - current_res))]: the first element
    with the smallest key; [default] is only returned for an empty list. *)
Fixpoint min_by_distance (current_res : Z) (default : Z) (steps : list Z) : Z :=
  match steps with
  | [] => default
  | x :: rest =>
      match rest with
      | [] => x
      | _ =>
          let m := min_by_distance current_res default rest in
          if Z.abs (x - current_res) <=? Z.abs (m - current_res) then x else m
      end
  end.

(** [steps.index(v)] *)
Fixpoint index_of (v : Z) (steps : list Z) : nat :=
  match steps with
  | [] => 0
  | x :: rest => if x =? v then 0%nat else S (index_of v rest)
  end.

(** [key.endswith(suffix)] and [key[:-2]] *)
Definition endswith (key suffix : string) : bool :=
  (String.length suffix <=? String.length key)%nat &&
  String.eqb
    (String.substring (String.length key - String.length suffix)
       (String.length suffix) key)
    suffix.

Definition drop_last2 (key : string) : string :=
  String.substring 0 (String.length key - 2) key.

Definition all_steps : list Z := [960; 720; 640; 512; 480; 384; 320].

Section Methods.
Variable settings : Config.Settings.

(** [__post_init__] on a new session. *)
Definition new_session : VideoSession :=
  {| depth_buffer := [];
     last_depth_time_ms := None;
     telemetry := ∅;
     rolling_stats :=
       <["depth_fps" := 0%Q]> (<["latency_ms" := 0%Q]> (<["infer_avg_s" := 0%Q]>
       (<["queue_avg_s" := 0%Q]> (<["ws_send_avg_s" := 0%Q]>
       (<["drop_count" := 0%Q]> ∅)))));
     _quality_cooldown := 0 |}.

Definition store_depth_frame (frame : DepthFrame) (s : VideoSession) : VideoSession :=
  {| depth_buffer :=
       deque_append (Config.video_cache_size settings) frame (depth_buffer s);
     last_depth_time_ms := Some (timestamp_ms frame);
     telemetry := telemetry s;
     rolling_stats := rolling_stats s;
     _quality_cooldown := _quality_cooldown s |}.

(** [abs(cached.timestamp_ms - time_ms) <= tolerance_ms], as a proposition. *)
Definition within_tolerance (time_ms tolerance_ms : Q) (f : DepthFrame) : Prop :=
  (Qabs (timestamp_ms f - time_ms) <= tolerance_ms)%Q.

(** The loop of [get_cached_depth]: [idx] runs from [n - 1] down to [0]. *)
Fixpoint scan_cache (buf : list DepthFrame) (time_ms tolerance_ms : Q) (n : nat)
    : option (nat * DepthFrame) :=
  match n with
  | O => None
  | S idx =>
      match buf !! idx with
      | Some cached =>
          if Qle_bool (Qabs (timestamp_ms cached - time_ms)) tolerance_ms
          then Some (idx, cached)
          else scan_cache buf time_ms tolerance_ms idx
      | None => scan_cache buf time_ms tolerance_ms idx
      end
  end.

Definition get_cached_depth (time_ms tolerance_ms : Q) (drop_on_hit : bool)
    (s : VideoSession) : option DepthFrame * VideoSession :=
  match scan_cache (depth_buffer s) time_ms tolerance_ms (length (depth_buffer s)) with
  | Some (idx, cached) =>
      (Some cached,
       {| depth_buffer :=
            if drop_on_hit
            then Nat.iter (idx + 1) (drop 1) (depth_buffer s)  (* popleft *)
            else depth_buffer s;
          last_depth_time_ms := last_depth_time_ms s;
          telemetry := telemetry s;
          rolling_stats := rolling_stats s;
          _quality_cooldown := _quality_cooldown s |})
  | None => (None, s)
  end.

(** *** Rolling statistics *)

Definition alpha : Q := 1 # 10.

(** The two branches on [current == 0.0]. *)
Definition ema (current val : Q) : Q :=
  if Qeq_bool current 0 then val else (alpha * val + (1 - alpha) * current)%Q.

(** [rolling_stats.get(key, 0.0)] *)
Definition stat (rs : gmap string Q) (key : string) : Q := default 0%Q (rs !! key).

Definition update_stat (key : string) (val : Q) (rs : gmap string Q)
    : gmap string Q :=
  <[key := ema (stat rs key) val]> rs.

Definition avg_key_of (key : string) : string :=
  if String.eqb key "queue_wait_s" then "queue_avg_s"
  else if endswith key "_s" then drop_last2 key ++ "_avg_s"
  else key.

(** The body of [for key, val in metrics.items()]. The key ["drop_count"]
    is in [rolling_stats] from construction on and is never removed. *)
Definition telemetry_item (rs : gmap string Q) (item : string * Q) : gmap string Q :=
  let '(key, val) := item in
  if String.eqb key "dropped" then
    <["drop_count" := (stat rs "drop_count" + val)%Q]> rs
  else if existsb (String.eqb key) ["infer_s"; "queue_wait_s"; "ws_send_s"; "decode_s"] then
    update_stat (avg_key_of key) val rs
  else if existsb (String.eqb key) ["latency_ms"; "depth_fps"] then
    update_stat key val rs
  else rs.

(** The entry of [rolling_stats] that the loop body assigns for [key], if
    any; it reads off the branches of [telemetry_item]. *)
Definition stat_target (key : string) : option string :=
  if String.eqb key "dropped" then Some "drop_count"
  else if existsb (String.eqb key) ["infer_s"; "queue_wait_s"; "ws_send_s"; "decode_s"] then
    Some (avg_key_of key)
  else if existsb (String.eqb key) ["latency_ms"; "depth_fps"] then Some key
  else None.

(** The block after the loop: [if "total_s" in metrics and metrics["total_s"] > 0]. *)
Definition fps_from_total (metrics : metrics_dict) (rs : gmap string Q)
    : gmap string Q :=
  match dict_get "total_s" metrics with
  | Some total_s =>
      if Py.Qlt_bool 0 total_s
      then update_stat "depth_fps" (1 / total_s)%Q rs
      else rs
  | None => rs
  end.

(** *** The adaptive controller *)

Definition quality_steps : list Z :=
  let max_res := Config.depth_process_res settings in
  let steps := filter (fun s => s <= max_res) all_steps in
  match steps with
  | [] => [max_res]
  | _ => steps
  end.

(** [adjust_quality]; the second component lists the writes to
    [telemetry["quality_process_res"]] made by this call, in order. *)
Definition adjust_quality (s : VideoSession) : VideoSession * list quality_write :=
  if 0 <? _quality_cooldown s then
    ({| depth_buffer := depth_buffer s;
        last_depth_time_ms := last_depth_time_ms s;
        telemetry := telemetry s;
        rolling_stats := rolling_stats s;
        _quality_cooldown := _quality_cooldown s - 1 |}, [])
  else
    let infer_avg := stat (rolling_stats s) "infer_avg_s" in
    let queue_avg := stat (rolling_stats s) "queue_avg_s" in
    let latency_ms := stat (rolling_stats s) "latency_ms" in
    let '(telemetry1, init_writes) :=
      match telemetry s !! "quality_process_res" with
      | Some _ => (telemetry s, [])
      | None =>
          (<["quality_process_res" := inject_Z (Config.depth_process_res settings)]>
             (telemetry s),
           [InitWrite (Config.depth_process_res settings)])
      end in
    let current_res :=
      Py.int_of_float (default 0%Q (telemetry1 !! "quality_process_res")) in
    let max_res := Config.depth_process_res settings in
    let steps := quality_steps in
    let closest_step := min_by_distance current_res max_res steps in
    let current_idx := index_of closest_step steps in
    let new_idx :=
      if Py.Qlt_bool (1 # 5) infer_avg || Py.Qlt_bool (3 # 10) queue_avg
         || Py.Qlt_bool 500 latency_ms
      then (if (current_idx <? length steps - 1)%nat
            then (current_idx + 1)%nat else current_idx)
      else if Py.Qlt_bool infer_avg (2 # 25) && Py.Qlt_bool queue_avg (1 # 10)
              && Py.Qlt_bool latency_ms 200
      then (if (0 <? current_idx)%nat then (current_idx - 1)%nat else current_idx)
      else current_idx in
    let new_res := default 0 (steps !! new_idx) in
    if new_res =? current_res then
      ({| depth_buffer := depth_buffer s;
          last_depth_time_ms := last_depth_time_ms s;
          telemetry := telemetry1;
          rolling_stats := rolling_stats s;
          _quality_cooldown := _quality_cooldown s |}, init_writes)
    else
      ({| depth_buffer := depth_buffer s;
          last_depth_time_ms := last_depth_time_ms s;
          telemetry := <["quality_process_res" := inject_Z new_res]> telemetry1;
          rolling_stats := rolling_stats s;
          _quality_cooldown := 60 |},
       (init_writes ++ [ChangeWrite current_res new_res])%list).

Definition update_telemetry (metrics : metrics_dict) (s : VideoSession)
    : VideoSession * list quality_write :=
  let telemetry' := foldl (fun t kv => <[kv.1 := kv.2]> t) (telemetry s) metrics in
  let rs := foldl telemetry_item (rolling_stats s) metrics in
  let rs := fps_from_total metrics rs in
  adjust_quality
    {| depth_buffer := depth_buffer s;
       last_depth_time_ms := last_depth_time_ms s;
       telemetry := telemetry';
       rolling_stats := rs;
       _quality_cooldown := _quality_cooldown s |}.

(** A sequence of telemetry updates; the writes of each update are kept
    apart, in the order of the updates. *)
Fixpoint run_updates (updates : list metrics_dict) (s : VideoSession)
    : VideoSession * list (list quality_write) :=
  match updates with
  | [] => (s, [])
  | m :: rest =>
      let '(s1, w) := update_telemetry m s in
      let '(s2, ws) := run_updates rest s1 in
      (s2, w :: ws)
  end.

(** The operations on the depth cache. *)
Inductive cache_op : Type :=
| Store (frame : DepthFrame)
| Get (time_ms tolerance_ms : Q) (drop_on_hit : bool).

Definition run_cache_op (op : cache_op) (s : VideoSession) : VideoSession :=
  match op with
  | Store frame => store_depth_frame frame s
  | Get time_ms tolerance_ms drop_on_hit =>
      (get_cached_depth time_ms tolerance_ms drop_on_hit s).2
  end.

End Methods.

(** [new_res] is a neighbour of [current_res] on [steps]: one position
    further (a demotion) or one position back (a promotion). *)
Definition one_step (steps : list Z) (current_res new_res : Z) : Prop :=
  exists i : nat,
    steps !! i = Some current_res /\
    (steps !! (i + 1)%nat = Some new_res \/
     (0 < i)%nat /\ steps !! (i - 1)%nat = Some new_res).

(** [telemetry["quality_process_res"]], when set, is [float(v)] for an
    entry [v] of [steps]. *)
Definition stored_on (steps : list Z) (s : VideoSession) : Prop :=
  match telemetry s !! "quality_process_res" with
  | None => True
  | Some q => exists v : Z, q = inject_Z v /\ v ∈ steps
  end.

(** [telemetry["quality_process_res"]] is set, and to [float(v)] for an
    entry [v] of [steps]. *)
Definition settled (steps : list Z) (s : VideoSession) : Prop :=
  exists v : Z,
    telemetry s !! "quality_process_res" = Some (inject_Z v) /\ v ∈ steps.

End Session.

(* ===================================================================== *)
(** ** utils/frame_info.py and video/io.py *)
(* ===================================================================== *)

Module VideoIO.

(** What the decoder reads of a PyAV frame: [frame.time] in seconds (absent
    for a frame without timestamp), [frame.index] where the frame has such
    an attribute (the frames of current PyAV have none), [frame.pts],
    [frame.key_frame]; [image] stands for the picture. *)
Record AVFrame : Type := mkAVFrame {
  time : option Q;
  frame_index : option Z;
  frame_pts : option Z;
  frame_key_frame : bool;
  image : nat
}.

(** [class FrameInfo] *)
Record FrameInfo : Type := mkFrameInfo {
  time_ms : Q;
  index : Z;
  pts : option Z;
  key_frame : bool
}.

Definition frame_info_from_av (frame : AVFrame) : FrameInfo :=
  {| time_ms := match time frame with
                | Some t => (t * 1000)%Q
                | None => (-1)%Q
                end;
     index := default (-1) (frame_index frame);   (* getattr(frame, 'index', -1) *)
     pts := frame_pts frame;
     key_frame := frame_key_frame frame |}.

Definition STREAM_WINDOW_MS : Q := 1000.
Definition MAX_SCAN_FRAMES : Z := 360.

(** [class FrameDecoder]. [stream] is the video stream of the container,
    all frames in decoding order; [position] is what the container still
    delivers from where it stands; [_frame_iter] tells whether the decode
    iterator exists (it reads from the container's position).

    Two more bits of the PyAV objects decide what [next(self._frame_iter)]
    does once nothing is left to deliver. [at_end]: a decode iterator has
    run through the end of the container since the last seek, so the codec
    is drained; an iterator created on such a container does not end, its
    first [next] raises [av.error.EOFError]. [iter_closed]: the generator
    held in [_frame_iter] has ended by raising; [next] on it raises
    [StopIteration]. *)
Record FrameDecoder : Type := mkFrameDecoder {
  stream : list AVFrame;
  position : list AVFrame;
  _frame_iter : bool;
  _last_frame_time_ms : option Q;
  at_end : bool;
  iter_closed : bool
}.

(** [FrameDecoder(source)] *)
Definition open (frames : list AVFrame) : FrameDecoder :=
  {| stream := frames; position := frames; _frame_iter := false;
     _last_frame_time_ms := None; at_end := false; iter_closed := false |}.

Definition should_stream_forward (time_ms : Q) (d : FrameDecoder) : bool :=
  match _last_frame_time_ms d with
  | None => false
  | Some last =>
      let delta := (time_ms - last)%Q in
      Qle_bool 0 delta && Qle_bool delta STREAM_WINDOW_MS
  end.

(** [container.seek(target_pts, any_frame=False, backward=True)]: the
    container moves to the closest keyframe at or before the target (to the
    start of the stream when there is none) and flushes the codec.
    [from_keyframe] is the part of [frames] from its last such keyframe on,
    if any. *)
Fixpoint from_keyframe (time_ms : Q) (frames : list AVFrame) : option (list AVFrame) :=
  match frames with
  | [] => None
  | frame :: rest =>
      match from_keyframe time_ms rest with
      | Some later => Some later
      | None =>
          if frame_key_frame frame
             && Qle_bool (VideoIO.time_ms (frame_info_from_av frame)) time_ms
          then Some frames
          else None
      end
  end.

Definition _seek_near (time_ms : Q) (d : FrameDecoder) : FrameDecoder :=
  {| stream := stream d;
     position := default (stream d) (from_keyframe time_ms (stream d));
     _frame_iter := true;                 (* _reset_iterator *)
     _last_frame_time_ms := None;
     at_end := false;
     iter_closed := false |}.

(** The [while True] loop of [_advance_to] on an iterator that has not
    ended; [frames_examined] is the count before this iteration, [last] the
    current [_last_frame_time_ms], [drained] the decoder's [at_end]. The
    result comes with the decoder's position, iterator and last frame time.
    With nothing left to deliver, [next] raises [StopIteration], which the
    loop answers by dropping the iterator and raising [StopIteration]; on a
    drained codec it raises [av.error.EOFError] instead, which is not
    caught and leaves [_frame_iter] as it is. *)
Fixpoint advance_loop (time_ms : Q) (frames_examined : Z) (last : option Q)
    (drained : bool) (pos : list AVFrame)
    : Py.result (AVFrame * FrameInfo) * (list AVFrame * bool * option Q) :=
  match pos with
  | [] =>
      if drained then (Py.Raise Py.EOFError, ([], true, last))
      else (Py.Raise Py.StopIteration, ([], false, last))
  | frame :: rest =>
      let info := frame_info_from_av frame in
      let frames_examined := frames_examined + 1 in
      let actual_time :=
        if Qle_bool 0 (VideoIO.time_ms info) then VideoIO.time_ms info else time_ms in
      if Py.Qlt_bool (VideoIO.time_ms info) 0
         || Qle_bool time_ms actual_time
         || (MAX_SCAN_FRAMES <=? frames_examined)
      then (Py.Ok (frame, info), (rest, true, Some actual_time))
      else advance_loop time_ms frames_examined (Some actual_time) drained rest
  end.

(** [_advance_to]. A generator that has ended raises [StopIteration] at the
    first [next]. Otherwise the loop runs, on the iterator at hand or on a
    new one; when it raises, the generator has ended in this call: the
    container is at its end, and the generator stays in [_frame_iter]
    exactly when the exception was not [StopIteration]. *)
Definition _advance_to (time_ms : Q) (d : FrameDecoder)
    : Py.result (AVFrame * FrameInfo) * FrameDecoder :=
  if _frame_iter d && iter_closed d then
    (Py.Raise Py.StopIteration,
     {| stream := stream d; position := position d; _frame_iter := false;
        _last_frame_time_ms := _last_frame_time_ms d;
        at_end := at_end d; iter_closed := false |})
  else
    let '(r, (pos, iter, last)) :=
      advance_loop time_ms 0 (_last_frame_time_ms d) (at_end d) (position d) in
    (r, {| stream := stream d; position := pos; _frame_iter := iter;
           _last_frame_time_ms := last;
           at_end := match r with Py.Ok _ => at_end d | Py.Raise _ => true end;
           iter_closed := match r with Py.Ok _ => false | Py.Raise _ => iter end |}).

Definition decode_at (time_ms : Q) (d : FrameDecoder)
    : Py.result (AVFrame * FrameInfo) * FrameDecoder :=
  let time_ms := if Py.Qlt_bool time_ms 0 then 0%Q else time_ms in  (* max(time_ms, 0.0) *)
  let d := if should_stream_forward time_ms d then d else _seek_near time_ms d in
  _advance_to time_ms d.

(** The frames [decode_at] reads from, after its choice between streaming
    forward and seeking. *)
Definition frames_ahead (time_ms : Q) (d : FrameDecoder) : list AVFrame :=
  position (if should_stream_forward time_ms d then d else _seek_near time_ms d).

(** A stream of [n] frames at 30 frames per second, the first one a keyframe. *)
Definition sample_stream (n : nat) : list AVFrame :=
  map (fun i : nat =>
         {| time := Some (inject_Z (Z.of_nat i) / 30)%Q;
            frame_index := None;
            frame_pts := Some (Z.of_nat i);
            frame_key_frame := (i =? 0)%nat;
            image := i |})
      (seq 0 n).

End VideoIO.

(* --------------------------------------------------------------------- *)
(** ** [backend/video/io.py]: [DecoderPool] *)

Module Pool.

(** [class DecoderPool]. The decoders are objects: [_decoders] holds their
    states, and [_free_decoders] refers to them by their position in
    [_decoders]. *)
Record DecoderPool : Type := mkDecoderPool {
  _decoders : list VideoIO.FrameDecoder;
  _free_decoders : list nat
}.

(** [DecoderPool(source, count)] *)
Definition open (frames : list VideoIO.AVFrame) (count : nat) : DecoderPool :=
  {| _decoders := replicate count (VideoIO.open frames);
     _free_decoders := seq 0 count |}.

(** [d.should_stream_forward(time_ms)] for the decoder object [i]. *)
Definition streams_forward (pool : DecoderPool) (time_ms : Q) (i : nat) : bool :=
  match _decoders pool !! i with
  | Some d => VideoIO.should_stream_forward time_ms d
  | None => false
  end.

(** [list.remove(x)]: the first occurrence goes. *)
Fixpoint list_remove (x : nat) (l : list nat) : list nat :=
  match l with
  | [] => []
  | y :: rest => if (x =? y)%nat then rest else y :: list_remove x rest
  end.

(** The locked block that opens [decode_at]: the first free decoder that
    can stream forward to [time_ms], else the one at the end of the free
    list ([pop()]). [None]: no decoder is free, the caller waits on the
    condition. *)
Definition acquire (time_ms : Q) (pool : DecoderPool) : option (nat * DecoderPool) :=
  match List.find (streams_forward pool time_ms) (_free_decoders pool) with
  | Some best_decoder =>
      Some (best_decoder,
            {| _decoders := _decoders pool;
               _free_decoders := list_remove best_decoder (_free_decoders pool) |})
  | None =>
      match last (_free_decoders pool) with
      | Some best_decoder =>
          Some (best_decoder,
                {| _decoders := _decoders pool;
                   _free_decoders := removelast (_free_decoders pool) |})
      | None => None
      end
  end.

(** [best_decoder.decode_at(time_ms)], outside the lock: only that decoder
    object changes. *)
Definition decode_on (best_decoder : nat) (time_ms : Q) (pool : DecoderPool)
    : option (Py.result (VideoIO.AVFrame * VideoIO.FrameInfo) * DecoderPool) :=
  d ← _decoders pool !! best_decoder;
  let '(r, d') := VideoIO.decode_at time_ms d in
  Some (r, {| _decoders := <[best_decoder := d']> (_decoders pool);
              _free_decoders := _free_decoders pool |}).

(** The [finally] block: the decoder goes back to the end of the free list. *)
Definition release (best_decoder : nat) (pool : DecoderPool) : DecoderPool :=
  {| _decoders := _decoders pool;
     _free_decoders := _free_decoders pool ++ [best_decoder] |}.

(** [decode_at] with one caller at a time: acquire, decode, release; the
    release happens whether the decoder returned or raised. *)
Definition decode_at (time_ms : Q) (pool : DecoderPool)
    : option (Py.result (VideoIO.AVFrame * VideoIO.FrameInfo) * DecoderPool) :=
  '(best_decoder, pool1) ← acquire time_ms pool;
  '(r, pool2) ← decode_on best_decoder time_ms pool1;
  Some (r, release best_decoder pool2).

(** Several callers: [asyncio.to_thread] runs each [decode_at] in a thread
    of its own. [busy] lists the decoders held by callers that are between
    the two locked blocks, each with its caller's target. *)
Record pool_state : Type := mkPoolState {
  pool : DecoderPool;
  busy : list (nat * Q)
}.

Inductive pool_event : Type :=
| Enter (time_ms : Q)          (* a caller passes the first locked block *)
| Leave (best_decoder : nat).  (* the caller holding this decoder finishes *)

Fixpoint remove_holder (best_decoder : nat) (l : list (nat * Q)) : list (nat * Q) :=
  match l with
  | [] => []
  | (i, t) :: rest =>
      if (i =? best_decoder)%nat then rest else (i, t) :: remove_holder best_decoder rest
  end.

(** One event; [None] when it cannot happen: an [Enter] with no free
    decoder waits, a [Leave] needs a caller that holds the decoder. *)
Definition pool_exec (e : pool_event) (st : pool_state) : option pool_state :=
  match e with
  | Enter time_ms =>
      '(best_decoder, pool1) ← acquire time_ms (pool st);
      Some {| pool := pool1; busy := busy st ++ [(best_decoder, time_ms)] |}
  | Leave best_decoder =>
      '(_, time_ms) ← List.find (fun h => (h.1 =? best_decoder)%nat) (busy st);
      '(_, pool2) ← decode_on best_decoder time_ms (pool st);
      Some {| pool := release best_decoder pool2;
              busy := remove_holder best_decoder (busy st) |}
  end.

Fixpoint pool_run (events : list pool_event) (st : pool_state) : option pool_state :=
  match events with
  | [] => Some st
  | e :: rest =>
      match pool_exec e st with
      | Some st' => pool_run rest st'
      | None => None
      end
  end.

End Pool.

(* ===================================================================== *)
(** ** routers/stream.py *)
(* ===================================================================== *)

Module Stream.

(** The packing step of [process_request_pipeline], in both branches:
    [pack_depth_payload(frame.depth.copy(), frame.timestamp_ms, frame.z_min,
    frame.z_max, compress=settings.depth_compression_level > 0)]. *)
Definition pack_frame (zlib_compress : list Z -> list Z) (settings : Config.Settings)
    (σ : gmap nat Packets.ndarray) (frame : Session.DepthFrame)
    : option (Py.result Packets.DepthPayload * gmap nat Packets.ndarray) :=
  '(copy, σ1) ← Packets.ndarray_copy σ (Session.depth frame);
  Packets.pack_depth_payload_at zlib_compress settings σ1 copy
    (Session.timestamp_ms frame) (Session.z_min frame) (Session.z_max frame)
    (0 <? Config.depth_compression_level settings).

(** *** The tasks of one connection *)

(** A client message that carries [time_ms]. *)
Record Request : Type := mkRequest {
  req_time_ms : Q;
  rtt : option Q
}.

(** A pipeline task: still running, returned [(payload_bytes, timings)]
    (the payload is [None] on a decode failure), or raised. *)
Inductive task_state : Type :=
| Running
| Done (payload_bytes : option (list Z))
| Failed.

Definition MAX_CONCURRENT_TASKS : Z := 16.

(** The state shared by [receiver], [processor], the pipeline tasks and
    [sender]. The requests the processor takes from the intake queue are
    numbered in the order it takes them ([dequeued] keeps them, so request
    number [n] is [dequeued !! n]); the pipeline task of request [n] is task
    [n], and a task handle is that number.
    - [processing]: the request the processor holds between
      [get_task.result()] and [send_queue.put(task)];
    - [awaiting]: the handle the sender holds in [result = await task];
    - [sent]: the [send_bytes] calls so far, each with the number of the
      task whose result it sends. *)
Record connection : Type := mkConnection {
  request_queue : Queues.DroppingQueue Request;
  dequeued : list Request;
  processing : option nat;
  tasks : gmap nat task_state;
  active_tasks : gset nat;
  send_queue : list nat;
  awaiting : option nat;
  sent : list (nat * list Z);
  stop : bool;
  sender_alive : bool
}.

(** The state when the four tasks are created. *)
Definition connect : connection :=
  {| request_queue := Queues.init 32; dequeued := []; processing := None;
     tasks := ∅; active_tasks := ∅; send_queue := []; awaiting := None;
     sent := []; stop := false; sender_alive := true |}.

(** What can happen next; the scheduler and the thread pool choose. *)
Inductive event : Type :=
| Receive (r : Request)        (* receiver: request_queue.put_nowait(data) *)
| ProcessorGet                 (* processor: request = get_task.result() *)
| ProcessorSpawn               (* processor: create_task ... send_queue.put(task) *)
| ProcessorFault               (* processor: session not found, or an exception *)
| TaskDone (n : nat) (payload_bytes : option (list Z))
| TaskFailed (n : nat)
| SenderGet                    (* sender: task = get_task.result() *)
| SenderResult (send_ok : bool) (* sender: result = await task, then the send *)
| StopSet.                     (* stop.set() from the receiver *)

(** One event; [None] when the event cannot happen in this state. *)
Definition exec (e : event) (c : connection) : option connection :=
  match e with
  | Receive r =>
      Some (mkConnection (Queues.put_nowait r (request_queue c)) (dequeued c)
              (processing c) (tasks c) (active_tasks c) (send_queue c)
              (awaiting c) (sent c) (stop c) (sender_alive c))
  | ProcessorGet =>
      if stop c then None else
      match processing c, Queues.get (request_queue c) with
      | None, Some (r, q) =>
          Some (mkConnection q (dequeued c ++ [r]) (Some (length (dequeued c)))
                  (tasks c) (active_tasks c) (send_queue c)
                  (awaiting c) (sent c) (stop c) (sender_alive c))
      | _, _ => None
      end
  | ProcessorSpawn =>
      match processing c with
      | Some n =>
          (* at the cap the processor first waits for a task to finish *)
          if MAX_CONCURRENT_TASKS <=? Z.of_nat (size (active_tasks c)) then None
          else
            Some (mkConnection (request_queue c) (dequeued c) None
                    (<[n := Running]> (tasks c)) ({[n]} ∪ active_tasks c)
                    (send_queue c ++ [n])
                    (awaiting c) (sent c) (stop c) (sender_alive c))
      | None => None
      end
  | ProcessorFault =>
      match processing c with
      | Some n =>
          Some (mkConnection (request_queue c) (dequeued c) None
                  (tasks c) (active_tasks c) (send_queue c)
                  (awaiting c) (sent c) true (sender_alive c))
      | None => None
      end
  | TaskDone n payload_bytes =>
      match tasks c !! n with
      | Some Running =>
          Some (mkConnection (request_queue c) (dequeued c) (processing c)
                  (<[n := Done payload_bytes]> (tasks c))
                  (active_tasks c ∖ {[n]})          (* done callback *)
                  (send_queue c) (awaiting c) (sent c) (stop c) (sender_alive c))
      | _ => None
      end
  | TaskFailed n =>
      match tasks c !! n with
      | Some Running =>
          Some (mkConnection (request_queue c) (dequeued c) (processing c)
                  (<[n := Failed]> (tasks c)) (active_tasks c ∖ {[n]})
                  (send_queue c) (awaiting c) (sent c) (stop c) (sender_alive c))
      | _ => None
      end
  | SenderGet =>
      if stop c || negb (sender_alive c) then None else
      match awaiting c, send_queue c with
      | None, n :: rest =>
          Some (mkConnection (request_queue c) (dequeued c) (processing c)
                  (tasks c) (active_tasks c) rest (Some n) (sent c)
                  (stop c) (sender_alive c))
      | _, _ => None
      end
  | SenderResult send_ok =>
      match awaiting c with
      | Some n =>
          match tasks c !! n with
          | Some (Done (Some (b :: bs))) =>
              if send_ok then
                Some (mkConnection (request_queue c) (dequeued c) (processing c)
                        (tasks c) (active_tasks c) (send_queue c) None
                        (sent c ++ [(n, b :: bs)]) (stop c) (sender_alive c))
              else                                   (* break: socket closed *)
                Some (mkConnection (request_queue c) (dequeued c) (processing c)
                        (tasks c) (active_tasks c) (send_queue c) None
                        (sent c) (stop c) false)
          | Some (Done _) =>                         (* no payload: continue *)
              Some (mkConnection (request_queue c) (dequeued c) (processing c)
                      (tasks c) (active_tasks c) (send_queue c) None
                      (sent c) (stop c) (sender_alive c))
          | Some Failed =>                           (* except Exception: stop.set() *)
              Some (mkConnection (request_queue c) (dequeued c) (processing c)
                      (tasks c) (active_tasks c) (send_queue c) None
                      (sent c) true (sender_alive c))
          | _ => None                                (* the task is not done yet *)
          end
      | None => None
      end
  | StopSet =>
      Some (mkConnection (request_queue c) (dequeued c) (processing c)
              (tasks c) (active_tasks c) (send_queue c) (awaiting c) (sent c)
              true (sender_alive c))
  end.

(** A schedule: the events in the order they happen. *)
Fixpoint run (events : list event) (c : connection) : option connection :=
  match events with
  | [] => Some c
  | e :: rest =>
      match exec e c with
      | Some c' => run rest c'
      | None => None
      end
  end.

(** The handles between the processor and the wire, oldest first: sent,
    awaited by the sender, queued, and about to be queued. *)
Definition in_flight (c : connection) : list nat :=
  map fst (sent c) ++ option_list (awaiting c) ++ send_queue c
    ++ option_list (processing c).

(** Handles in increasing order, all of them numbers of dequeued requests. *)
Definition ordered_below (bound : nat) (l : list nat) : Prop :=
  StronglySorted lt l /\ Forall (fun n => (n < bound)%nat) l.

(** What holds of every state of a connection: the handles in flight are in
    dequeue order, and what was sent for task [n] is the payload task [n]
    returned. *)
Definition delivery_invariant (c : connection) : Prop :=
  ordered_below (length (dequeued c)) (in_flight c) /\
  forall n p, (n, p) ∈ sent c -> tasks c !! n = Some (Done (Some p)).

End Stream.

(* ===================================================================== *)
(** ** utils/stats.py *)
(* ===================================================================== *)

Module Stats.

Local Open Scope string_scope.
Local Open Scope Z_scope.

(** *** The numpy reductions, on a one-dimensional array of floats *)

Definition np_min (arr : list Q) : Q :=
  match arr with
  | [] => 0%Q
  | x :: rest => foldl Qmin x rest
  end.

Definition np_max (arr : list Q) : Q :=
  match arr with
  | [] => 0%Q
  | x :: rest => foldl Qmax x rest
  end.

Definition np_sum (arr : list Q) : Q := foldr Qplus 0%Q arr.

Definition np_mean (arr : list Q) : Q :=
  (np_sum arr / inject_Z (Z.of_nat (length arr)))%Q.

Fixpoint insert_sorted (x : Q) (l : list Q) : list Q :=
  match l with
  | [] => [x]
  | y :: rest => if Qle_bool x y then x :: l else y :: insert_sorted x rest
  end.

Definition np_sort (arr : list Q) : list Q := foldr insert_sorted [] arr.

(** [np.percentile(arr, q)] with the default linear interpolation: the
    value at the virtual index [q / 100 * (n - 1)] of the sorted array,
    interpolated between its two neighbours. *)
Definition np_percentile (arr : list Q) (q : Q) : Q :=
  let sorted := np_sort arr in
  let n := Z.of_nat (length arr) in
  let virtual_index := (q / 100 * inject_Z (n - 1))%Q in
  let lo := Qfloor virtual_index in
  let gamma := (virtual_index - inject_Z lo)%Q in
  let a := nth (Z.to_nat lo) sorted 0%Q in
  let b := nth (Z.to_nat (Z.min (lo + 1) (n - 1))) sorted 0%Q in
  (a + gamma * (b - a))%Q.

(** *** [class StatisticsCollector] *)

(** The values of a snapshot: the summary of a series, a counter, or the
    float stored under ["fps"]. *)
Inductive snapshot_entry : Type :=
| Series (min avg max p95 : Q) (count : Z)
| Gauge (value : Z)
| Throughput (fps : Q).

Record StatisticsCollector : Type := mkStatisticsCollector {
  _data : gmap string (list Q);     (* defaultdict(list) *)
  _counters : gmap string Z;        (* defaultdict(int) *)
  _start_time : Q
}.

(** [StatisticsCollector()] at time [now]. *)
Definition init (now : Q) : StatisticsCollector :=
  {| _data := ∅; _counters := ∅; _start_time := now |}.

Definition add (key : string) (value : Q) (c : StatisticsCollector)
    : StatisticsCollector :=
  {| _data := <[key := (default [] (_data c !! key) ++ [value])%list]> (_data c);
     _counters := _counters c;
     _start_time := _start_time c |}.

Definition set_counter (key : string) (value : Z) (c : StatisticsCollector)
    : StatisticsCollector :=
  {| _data := _data c;
     _counters := <[key := value]> (_counters c);
     _start_time := _start_time c |}.

Definition increment (key : string) (value : Z) (c : StatisticsCollector)
    : StatisticsCollector :=
  {| _data := _data c;
     _counters := <[key := default 0 (_counters c !! key) + value]> (_counters c);
     _start_time := _start_time c |}.

(** The body of the first loop: a key with an empty list is skipped. *)
Definition series_of (values : list Q) : option snapshot_entry :=
  match values with
  | [] => None
  | _ =>
      Some (Series (np_min values) (np_mean values) (np_max values)
              (np_percentile values 95) (Z.of_nat (length values)))
  end.

(** [get_snapshot_and_reset] returns the snapshot and leaves the collector
    reset, or raises: [snapshot["total_s"]["count"]] on a counter is a
    [TypeError], raised before the reset. *)
Inductive snapshot_result : Type :=
| Returned (snapshot : gmap string snapshot_entry) (c : StatisticsCollector)
| RaisedTypeError (c : StatisticsCollector).

Definition get_snapshot_and_reset (now : Q) (c : StatisticsCollector)
    : snapshot_result :=
  let duration := (now - _start_time c)%Q in
  let snapshot : gmap string snapshot_entry := omap series_of (_data c) in
  let snapshot := (Gauge <$> _counters c) ∪ snapshot in   (* counters overwrite *)
  let reset := {| _data := ∅; _counters := ∅; _start_time := now |} in
  match snapshot !! "total_s" with
  | Some (Series _ _ _ _ count) =>
      Returned
        (<["fps" := Throughput (if Py.Qlt_bool 0 duration
                                then (inject_Z count / duration)%Q else 0%Q)]>
           snapshot)
        reset
  | Some _ => RaisedTypeError c
  | None => Returned snapshot reset
  end.

(** The calls made on a collector between two snapshots. *)
Inductive call : Type :=
| Add (key : string) (value : Q)
| SetCounter (key : string) (value : Z)
| Increment (key : string) (value : Z).

Definition run_call (c : StatisticsCollector) (op : call) : StatisticsCollector :=
  match op with
  | Add key value => add key value c
  | SetCounter key value => set_counter key value c
  | Increment key value => increment key value c
  end.

(** The values passed to [add] under [key], in call order. *)
Fixpoint added (key : string) (ops : list call) : list Q :=
  match ops with
  | [] => []
  | Add k v :: rest => if String.eqb k key then v :: added key rest else added key rest
  | _ :: rest => added key rest
  end.

(** Whether a counter call names [key]. *)
Definition counts (key : string) (op : call) : bool :=
  match op with
  | Add _ _ => false
  | SetCounter k _ => String.eqb k key
  | Increment k _ => String.eqb k key
  end.

End Stats.

(* ===================================================================== *)
(** ** models/depth_model.py, utils/depth_ops.py *)
(* ===================================================================== *)

Module DepthModel.

(** The end of [infer_depth], after the network and the resize: the range
    of the prediction from the 1st and 99th percentiles of the depth map.
    [np.nan_to_num] leaves finite values as they are. [z_min + 1.0] is a
    float64 addition; the interpolation inside [np.percentile] is taken
    exactly. *)
Definition depth_range (depth : list Q) : Q * Q :=
  let z_min := Stats.np_percentile depth 1 in
  let z_max := Stats.np_percentile depth 99 in
  let z_max :=
    if Qle_bool z_max z_min then Float.binary64 (z_min + 1) else z_max in
  (z_min, z_max).

End DepthModel.

Module DepthOps.

(** The shape [(new_h, new_w)] of [downsample_depth(depth, factor)] for a
    depth map of shape [(h, w)]; the pixels come from [cv2.resize]. *)
Definition downsample_shape (factor h w : Z) : Z * Z :=
  if factor <=? 1 then (h, w)
  else (Z.max 1 (h / factor), Z.max 1 (w / factor)).

(** [target_size] in [process_request_pipeline], [(target_w, target_h)]
    for a frame of shape [(h, w, 3)]; [None] stands for Python's [None]. *)
Definition target_size (downsample_factor h w : Z) : option (Z * Z) :=
  if 1 <? downsample_factor
  then Some (Z.max 1 (w / downsample_factor), Z.max 1 (h / downsample_factor))
  else None.

End DepthOps.

(* ===================================================================== *)
(** * Properties *)
(* ===================================================================== *)

(** ** The dropping queue *)

Section DroppingQueueFacts.
Context {T : Type}.
Implicit Types (q : Queues.DroppingQueue T) (l : list T).

Lemma put_nowait_maxsize x q :
  Queues.maxsize (Queues.put_nowait x q) = Queues.maxsize q.
Proof.
  unfold Queues.put_nowait.
  destruct (_ && _); reflexivity.
Qed.

Lemma put_all_snoc l x q :
  Queues.put_all (l ++ [x]) q = Queues.put_nowait x (Queues.put_all l q).
Proof. unfold Queues.put_all. now rewrite foldl_app. Qed.

(** Invariant reached from a fresh queue of capacity [K > 0]: the deque
    holds the last [min K n] items and the counter the overflow. *)
Lemma put_all_init_state (K : Z) l :
  0 < K ->
  let q := Queues.put_all l (Queues.init K) in
  Queues.maxsize q = K /\
  Queues._queue q = drop (length l - Z.to_nat K) l /\
  Queues._dropped_count q = Z.max 0 (Z.of_nat (length l) - K).
Proof.
  intros HK. induction l as [|x l IH] using rev_ind.
  - cbn. repeat split. lia.
  - cbn zeta in *. rewrite put_all_snoc.
    destruct IH as (Hm & Hq & Hd).
    set (q := Queues.put_all l (Queues.init K)) in *.
    rewrite put_nowait_maxsize, Hm. split; [reflexivity|].
    unfold Queues.put_nowait. rewrite Hm, Hq, Hd.
    rewrite length_drop, length_app. cbn [length].
    destruct (Z.ltb_spec 0 K) as [_|]; [|lia]. cbn [andb].
    destruct (Z.leb_spec K (Z.of_nat (length l - (length l - Z.to_nat K))))
      as [Hfull|Hroom]; cbn.
    + assert (Hle : (Z.to_nat K <= length l)%nat) by lia.
      split; [|lia].
      rewrite drop_drop.
      replace (length l + 1 - Z.to_nat K)%nat
        with (S (length l - Z.to_nat K)) by lia.
      rewrite drop_app_le by lia.
      f_equal. f_equal. lia.
    + assert (Hlt : (length l < Z.to_nat K)%nat) by lia.
      rewrite Hq, Hd. split; [|lia].
      replace (length l - Z.to_nat K)%nat with 0%nat by lia.
      replace (length l + 1 - Z.to_nat K)%nat with 0%nat by lia.
      reflexivity.
Qed.

End DroppingQueueFacts.

(** [C3] After [n > K] calls of [put_nowait] on a fresh dropping queue of
    capacity [K > 0], with no consumer in between (every call returns a new
    state: [put_nowait] is a total function and has no waiting branch), the
    counter [dropped_count] is exactly [n - K] and the queue holds exactly
    the last [K] inserted items, in insertion order. *)
Theorem dropping_queue_keeps_last_K :
  forall (T : Type) (K : Z) (items : list T),
    0 < K ->
    K < Z.of_nat (length items) ->
    let q := Queues.put_all items (Queues.init K) in
    Queues.dropped_count q = Z.of_nat (length items) - K /\
    Queues._queue q = drop (length items - Z.to_nat K) items /\
    Queues.qsize q = K.
Proof.
  intros T K items HK Hn q.
  destruct (put_all_init_state K items HK) as (_ & Hq & Hd).
  fold q in Hq, Hd. unfold Queues.dropped_count, Queues.qsize.
  rewrite Hq, Hd, length_drop. repeat split; lia.
Qed.

Lemma dropping_queue_keeps_last_K_witness :
  let q := Queues.put_all [1; 2; 3; 4; 5] (Queues.init 2) in
  Queues.dropped_count q = 3 /\ Queues._queue q = [4; 5] /\ Queues.qsize q = 2.
Proof.
  apply (dropping_queue_keeps_last_K Z 2 [1; 2; 3; 4; 5]); reflexivity.
Defined.

(** ** Quantisation arithmetic *)

Section PacketFacts.
Local Open Scope Q_scope.

Lemma rint_near x : Qabs (inject_Z (Packets.rint x) - x) <= 1 # 2.
Proof.
  unfold Packets.rint.
  pose proof (Qfloor_le x) as Hlo. pose proof (Qlt_floor x) as Hhi.
  rewrite inject_Z_plus in Hhi. change (inject_Z 1) with 1 in Hhi.
  apply Qabs_Qle_condition.
  destruct (Qcompare_spec (x - inject_Z (Qfloor x)) (1 # 2)) as [He|Hl|Hg].
  - destruct (Z.even _); [|rewrite inject_Z_plus; change (inject_Z 1) with 1];
      split; lra.
  - split; lra.
  - rewrite inject_Z_plus; change (inject_Z 1) with 1. split; lra.
Qed.

Lemma rint_between (lo hi : Z) x :
  inject_Z lo <= x <= inject_Z hi -> (lo <= Packets.rint x <= hi)%Z.
Proof.
  intros [Hl Hh].
  pose proof (rint_near x) as Hn. apply Qabs_Qle_condition in Hn.
  assert (H1 : (lo < Packets.rint x + 1)%Z).
  { rewrite Zlt_Qlt, inject_Z_plus. change (inject_Z 1) with 1. lra. }
  assert (H2 : (Packets.rint x < hi + 1)%Z).
  { rewrite Zlt_Qlt, inject_Z_plus. change (inject_Z 1) with 1. lra. }
  lia.
Qed.

Lemma clip_between lo hi x : lo <= hi -> lo <= Packets.clip lo hi x <= hi.
Proof.
  intros Hle. unfold Packets.clip. split.
  - apply Q.min_glb; [apply Q.le_max_r | exact Hle].
  - apply Q.le_min_r.
Qed.

Lemma read_u16_le_tobytes (encoded : list Z) :
  Packets.read_u16_le (Packets.tobytes encoded) = encoded.
Proof.
  induction encoded as [|e l IH]; [reflexivity|].
  cbn [Packets.tobytes flat_map app Packets.read_u16_le].
  fold (Packets.tobytes l). rewrite IH. f_equal.
  pose proof (Z.div_mod e 256). lia.
Qed.

Lemma length_tobytes (encoded : list Z) :
  length (Packets.tobytes encoded) = (2 * length encoded)%nat.
Proof.
  induction encoded as [|e l IH]; [reflexivity|].
  cbn [Packets.tobytes flat_map app length]. fold (Packets.tobytes l). lia.
Qed.

Lemma pack_H_Ok (v : Z) : (0 <= v < 2 ^ 16)%Z -> Packets.pack_H v = Py.Ok v.
Proof.
  intros H. unfold Packets.pack_H.
  destruct (Z.leb_spec 0 v); [|lia]. destruct (Z.ltb_spec v (2 ^ 16)); [|lia].
  reflexivity.
Qed.

Lemma pack_H_inv (v r : Z) :
  Packets.pack_H v = Py.Ok r -> (0 <= v < 2 ^ 16)%Z /\ r = v.
Proof.
  unfold Packets.pack_H.
  destruct (Z.leb_spec 0 v); destruct (Z.ltb_spec v (2 ^ 16)); cbn;
    intros [=]; subst; split; [lia | reflexivity].
Qed.

Lemma pack_I_Ok (v : Z) : (0 <= v < 2 ^ 32)%Z -> Packets.pack_I v = Py.Ok v.
Proof.
  intros H. unfold Packets.pack_I.
  destruct (Z.leb_spec 0 v); [|lia]. destruct (Z.ltb_spec v (2 ^ 32)); [|lia].
  reflexivity.
Qed.

Lemma pack_I_inv (v r : Z) :
  Packets.pack_I v = Py.Ok r -> (0 <= v < 2 ^ 32)%Z /\ r = v.
Proof.
  unfold Packets.pack_I.
  destruct (Z.leb_spec 0 v); destruct (Z.ltb_spec v (2 ^ 32)); cbn;
    intros [=]; subst; split; [lia | reflexivity].
Qed.

Lemma pack_f_Ok (x : Q) :
  Qabs x < Packets.F32_OVERFLOW -> Packets.pack_f x = Py.Ok x.
Proof.
  intros H. unfold Packets.pack_f.
  destruct (Qle_bool Packets.F32_OVERFLOW (Qabs x)) eqn:E; [|reflexivity].
  apply Qle_bool_iff in E. lra.
Qed.

Lemma pack_f_inv (x r : Q) :
  Packets.pack_f x = Py.Ok r -> Qabs x < Packets.F32_OVERFLOW /\ r = x.
Proof.
  unfold Packets.pack_f.
  destruct (Qle_bool Packets.F32_OVERFLOW (Qabs x)) eqn:E; intros [=]; subst.
  split; [|reflexivity].
  apply Qnot_le_lt. rewrite <- Qle_bool_iff. congruence.
Qed.

(** What a successful [HEADER_STRUCT.pack] means, field by field. *)
Lemma HEADER_STRUCT_pack_Ok magic v dt ts w h s b z hdr :
  Packets.HEADER_STRUCT_pack magic v dt ts w h s b z = Py.Ok hdr <->
  ((0 <= v < 2 ^ 16)%Z /\ (0 <= dt < 2 ^ 16)%Z /\ (0 <= ts < 2 ^ 32)%Z /\
   (0 <= w < 2 ^ 32)%Z /\ (0 <= h < 2 ^ 32)%Z /\
   Qabs s < Packets.F32_OVERFLOW /\ Qabs b < Packets.F32_OVERFLOW /\
   Qabs z < Packets.F32_OVERFLOW) /\
  hdr = {| Packets.h_magic := Packets.pack_4s magic; Packets.h_version := v;
           Packets.h_data_type := dt; Packets.h_timestamp_ms := ts;
           Packets.h_width := w; Packets.h_height := h;
           Packets.h_scale := s; Packets.h_bias := b; Packets.h_z_max := z |}.
Proof.
  unfold Packets.HEADER_STRUCT_pack. split.
  - destruct (Packets.pack_H v) as [v'|] eqn:Ev; [|discriminate].
    destruct (Packets.pack_H dt) as [dt'|] eqn:Edt; [|discriminate].
    destruct (Packets.pack_I ts) as [ts'|] eqn:Ets; [|discriminate].
    destruct (Packets.pack_I w) as [w'|] eqn:Ew; [|discriminate].
    destruct (Packets.pack_I h) as [h'|] eqn:Eh; [|discriminate].
    destruct (Packets.pack_f s) as [s'|] eqn:Es; [|discriminate].
    destruct (Packets.pack_f b) as [b'|] eqn:Eb; [|discriminate].
    destruct (Packets.pack_f z) as [z'|] eqn:Ez; [|discriminate].
    cbn. intros [= <-].
    apply pack_H_inv in Ev as [? ->], Edt as [? ->].
    apply pack_I_inv in Ets as [? ->], Ew as [? ->], Eh as [? ->].
    apply pack_f_inv in Es as [? ->], Eb as [? ->], Ez as [? ->].
    split; [|reflexivity]. repeat (split; [assumption|]). assumption.
  - intros [(Hv & Hdt & Hts & Hw & Hh & Hs & Hb & Hz) ->].
    rewrite (pack_H_Ok _ Hv), (pack_H_Ok _ Hdt), (pack_I_Ok _ Hts),
      (pack_I_Ok _ Hw), (pack_I_Ok _ Hh), (pack_f_Ok _ Hs), (pack_f_Ok _ Hb),
      (pack_f_Ok _ Hz).
    reflexivity.
Qed.

(** Truncation toward zero lands in the u32 range exactly for the
    timestamps strictly between [-1] and [2^32]. *)
Lemma int_of_float_u32 (x : Q) :
  (0 <= Py.int_of_float x < 2 ^ 32)%Z <-> -1 < x /\ x < inject_Z (2 ^ 32).
Proof.
  destruct x as [n d]. unfold Py.int_of_float, Qlt. cbn [Qnum Qden inject_Z Qopp].
  pose proof (Z.quot_rem' n (Z.pos d)) as Hqr.
  assert (Hd : (0 < Z.pos d)%Z) by lia.
  destruct (Z.le_gt_cases 0 n) as [Hn|Hn].
  - pose proof (Z.rem_bound_pos n (Z.pos d) Hn Hd).
    pose proof (Z.quot_pos n (Z.pos d) Hn Hd). split; intros; nia.
  - pose proof (Z.rem_bound_pos_neg n (Z.pos d) Hd ltac:(lia)) as Hb.
    split; intros; nia.
Qed.

End PacketFacts.

(** ** The depth payload codec *)

Section PackFacts.
Local Open Scope Q_scope.
Variable zlib_compress : list Z -> list Z.
Variable settings : Config.Settings.

(** The result of [pack_depth_payload], with the quantisation inlined. *)
Lemma pack_depth_payload_Ok depth ts z_min z_max compress p :
  (Packets.pack_depth_payload zlib_compress settings depth ts z_min z_max compress).2
    = Py.Ok p ->
  let '(_, (encoded, scale, bias)) := Packets.quantize_depth depth z_min z_max in
  Packets.header p =
    {| Packets.h_magic :=
         Packets.pack_4s (if compress then [86; 68; 90; 50]%Z
                          else Config.depth_header_magic settings);
       Packets.h_version := 1; Packets.h_data_type := 1;
       Packets.h_timestamp_ms := Py.int_of_float ts;
       Packets.h_width := Packets.shape1 depth;
       Packets.h_height := Packets.shape0 depth;
       Packets.h_scale := scale; Packets.h_bias := bias;
       Packets.h_z_max := z_max |} /\
  Packets.payload_bytes p =
    (if compress then zlib_compress (Packets.tobytes encoded)
     else Packets.tobytes encoded).
Proof.
  unfold Packets.pack_depth_payload, Packets.quantize_depth.
  destruct compress; cbn [snd Packets.shape0 Packets.shape1];
    destruct (Packets.HEADER_STRUCT_pack _ _ _ _ _ _ _ _ _) as [hdr|e] eqn:E;
    cbn; intros [=]; subst p; cbn;
    apply HEADER_STRUCT_pack_Ok in E as [_ ->]; split; reflexivity.
Qed.

End PackFacts.

Lemma pack_I_Raise (v : Z) :
  v < 0 \/ 2 ^ 32 <= v -> Packets.pack_I v = Py.Raise Py.StructError.
Proof.
  intros H. unfold Packets.pack_I.
  destruct (Z.leb_spec 0 v); destruct (Z.ltb_spec v (2 ^ 32));
    try reflexivity; lia.
Qed.

(** The scale stays in float32 range when both bounds do. *)
Lemma quantize_scale_in_range (z_min z_max : Q) :
  (Qabs z_min < Packets.F32_OVERFLOW)%Q ->
  (Qabs z_max < Packets.F32_OVERFLOW)%Q ->
  (Qabs (((if Qle_bool z_max z_min then z_min + (1 # 1000) else z_max) - z_min)
           / 65535) < Packets.F32_OVERFLOW)%Q.
Proof.
  intros H1 H2.
  assert (HF : (1 < Packets.F32_OVERFLOW)%Q) by reflexivity.
  apply Qabs_Qlt_condition in H1, H2. apply Qabs_Qlt_condition.
  unfold Qdiv. change (/ 65535)%Q with (1 # 65535)%Q.
  destruct (Qle_bool z_max z_min); split; lra.
Qed.

(** [C7], as the code has it: the header's timestamp field is packed with
    the [I] format, which accepts [int(timestamp_ms)] only in
    [[0, 2^32 - 1]]. For an array with u32 dimensions and bounds in float32
    range, [pack_depth_payload] succeeds for every timestamp strictly
    between [-1] and [2^32], giving the 32-byte header (version 1, data type
    1, the truncated timestamp) followed by the payload, which holds two
    bytes per pixel when not compressed. For [timestamp_ms <= -1] or
    [timestamp_ms >= 2^32] it raises [struct.error]. *)
Theorem pack_depth_payload_succeeds_iff_timestamp_u32 :
  forall (zlib_compress : list Z -> list Z) (settings : Config.Settings)
         (depth : Packets.ndarray) (timestamp_ms z_min z_max : Q)
         (compress : bool),
    let r := (Packets.pack_depth_payload zlib_compress settings depth
                timestamp_ms z_min z_max compress).2 in
    ((0 <= Packets.shape0 depth < 2 ^ 32) ->
     (0 <= Packets.shape1 depth < 2 ^ 32) ->
     (Qabs z_min < Packets.F32_OVERFLOW)%Q ->
     (Qabs z_max < Packets.F32_OVERFLOW)%Q ->
     (-1 < timestamp_ms)%Q /\ (timestamp_ms < inject_Z (2 ^ 32))%Q ->
     exists p,
       r = Py.Ok p /\
       Packets.h_version (Packets.header p) = 1 /\
       Packets.h_data_type (Packets.header p) = Packets.DATA_TYPE_UINT16 /\
       Packets.h_timestamp_ms (Packets.header p) = Py.int_of_float timestamp_ms /\
       Packets.h_width (Packets.header p) = Packets.shape1 depth /\
       Packets.h_height (Packets.header p) = Packets.shape0 depth /\
       Packets.buffer_length p = 32 + Z.of_nat (length (Packets.payload_bytes p)) /\
       (compress = false ->
        length (Packets.payload_bytes p) = (2 * length (Packets.data depth))%nat)) /\
    ((timestamp_ms <= -1)%Q \/ (inject_Z (2 ^ 32) <= timestamp_ms)%Q ->
     r = Py.Raise Py.StructError).
Proof.
  intros zc settings depth ts z_min z_max compress r. subst r.
  unfold Packets.pack_depth_payload, Packets.quantize_depth,
    Packets.HEADER_STRUCT_pack.
  cbn [snd Packets.shape0 Packets.shape1].
  pose proof (int_of_float_u32 ts) as Hts.
  split.
  - intros H0 H1 Hzmin Hzmax Hrange.
    apply Hts in Hrange.
    assert (Hps : Packets.pack_H 1 = Py.Ok 1) by reflexivity.
    assert (Hpd : Packets.pack_H Packets.DATA_TYPE_UINT16 = Py.Ok 1) by reflexivity.
    destruct compress; cbn [snd]; rewrite Hps, Hpd; cbn [mbind Py.result_bind];
      rewrite (pack_I_Ok _ Hrange), (pack_I_Ok _ H1), (pack_I_Ok _ H0);
      cbn [mbind Py.result_bind];
      rewrite (pack_f_Ok _ (quantize_scale_in_range z_min z_max Hzmin Hzmax)),
        (pack_f_Ok _ Hzmin), (pack_f_Ok _ Hzmax);
      cbn [mbind Py.result_bind];
      eexists; (split; [reflexivity|]); cbn;
      repeat (split; [reflexivity|]).
    + intros [=].
    + intros _. rewrite length_tobytes, !length_map. reflexivity.
  - intros Hout.
    assert (Hbad : Py.int_of_float ts < 0 \/ 2 ^ 32 <= Py.int_of_float ts).
    { destruct (Z.lt_ge_cases (Py.int_of_float ts) 0) as [|Hge]; [left; assumption|].
      destruct (Z.lt_ge_cases (Py.int_of_float ts) (2 ^ 32)) as [Hlt|];
        [|right; assumption].
      exfalso. destruct (proj1 Hts (conj Hge Hlt)) as [Ha Hb].
      destruct Hout; lra. }
    assert (Hps : Packets.pack_H 1 = Py.Ok 1) by reflexivity.
    assert (Hpd : Packets.pack_H Packets.DATA_TYPE_UINT16 = Py.Ok 1) by reflexivity.
    destruct compress; cbn [snd]; rewrite Hps, Hpd; cbn [mbind Py.result_bind];
      rewrite (pack_I_Raise _ Hbad); reflexivity.
Qed.

Lemma pack_depth_payload_succeeds_iff_timestamp_u32_witness :
  let depth := Packets.mkArray 1 2 [(1 # 2)%Q; 3%Q] in
  exists p,
    (Packets.pack_depth_payload (fun b => b) Config.default depth (7 # 2)%Q
       0%Q 2%Q false).2 = Py.Ok p /\
    Packets.h_timestamp_ms (Packets.header p) = 3 /\
    Packets.buffer_length p = 32 + 4.
Proof.
  intros depth.
  destruct (pack_depth_payload_succeeds_iff_timestamp_u32 (fun b => b)
              Config.default depth (7 # 2)%Q 0%Q 2%Q false) as [Hok _].
  destruct Hok as (p & Hp & _ & _ & Hts & _ & _ & Hlen & Hpix);
    [cbn; lia | cbn; lia | reflexivity | reflexivity
    | split; reflexivity |].
  exists p. split; [exact Hp|]. split; [exact Hts|].
  rewrite Hlen, (Hpix eq_refl). reflexivity.
Defined.

(** Against [C7] as stated: a timestamp of [2^32] ms, and a timestamp of
    [-1] ms, both finite, make [pack_depth_payload] raise [struct.error]
    instead of producing a header; and a finite [z_max = 2^128], too large
    for the header's float32 field, makes it raise [OverflowError]. *)
Lemma pack_depth_payload_raises_outside_u32 :
  let depth := Packets.mkArray 1 2 [(1 # 2)%Q; 3%Q] in
  (Packets.pack_depth_payload (fun b => b) Config.default depth
     (inject_Z (2 ^ 32)) 0%Q 2%Q false).2 = Py.Raise Py.StructError /\
  (Packets.pack_depth_payload (fun b => b) Config.default depth
     (-1)%Q 0%Q 2%Q false).2 = Py.Raise Py.StructError /\
  (Packets.pack_depth_payload (fun b => b) Config.default depth
     5%Q 0%Q (inject_Z (2 ^ 128)) false).2 = Py.Raise Py.OverflowError.
Proof. repeat split; vm_compute; reflexivity. Qed.

(** ** The depth cache *)

Section CacheFacts.
Variable settings : Config.Settings.
Implicit Types (s : Session.VideoSession) (buf : list Session.DepthFrame).

Lemma deque_append_length {A : Type} (maxlen : Z) (x : A) (d : list A) :
  0 <= maxlen ->
  Z.of_nat (length d) <= maxlen ->
  Z.of_nat (length (Session.deque_append maxlen x d)) <= maxlen.
Proof.
  intros H0 Hd. unfold Session.deque_append.
  destruct (Z.ltb_spec maxlen (Z.of_nat (length (d ++ [x])))) as [Hfull|Hroom].
  - rewrite length_drop, length_app. cbn [length]. lia.
  - exact Hroom.
Qed.

Lemma popleft_iter {A : Type} (n : nat) (l : list A) :
  Nat.iter n (drop 1) l = drop n l.
Proof.
  induction n as [|n IH]; [reflexivity|].
  rewrite Nat.iter_succ, IH, drop_drop. f_equal. lia.
Qed.

Lemma scan_cache_Some buf time_ms tolerance_ms n i f :
  Session.scan_cache buf time_ms tolerance_ms n = Some (i, f) ->
  (i < n)%nat /\ buf !! i = Some f /\ Session.within_tolerance time_ms tolerance_ms f /\
  forall j f', (i < j < n)%nat -> buf !! j = Some f' ->
               ~ Session.within_tolerance time_ms tolerance_ms f'.
Proof.
  induction n as [|n IH]; cbn [Session.scan_cache]; [discriminate|].
  destruct (buf !! n) as [cached|] eqn:Hn.
  - destruct (Qle_bool _ tolerance_ms) eqn:E.
    + intros [= <- <-]. split; [lia|]. split; [exact Hn|].
      split; [apply Qle_bool_iff, E|]. intros j f' Hj. lia.
    + intros Hs. destruct (IH Hs) as (Hi & Hf & Hw & Hrest).
      split; [lia|]. split; [exact Hf|]. split; [exact Hw|].
      intros j f' Hj Hlook. destruct (decide (j = n)) as [->|Hne].
      * rewrite Hn in Hlook. injection Hlook as <-.
        unfold Session.within_tolerance. rewrite <- Qle_bool_iff, E. discriminate.
      * apply (Hrest j f'); [lia | exact Hlook].
  - intros Hs. destruct (IH Hs) as (Hi & Hf & Hw & Hrest).
    split; [lia|]. split; [exact Hf|]. split; [exact Hw|].
    intros j f' Hj Hlook. destruct (decide (j = n)) as [->|Hne].
    + rewrite Hn in Hlook. discriminate.
    + apply (Hrest j f'); [lia | exact Hlook].
Qed.

Lemma scan_cache_None buf time_ms tolerance_ms n :
  Session.scan_cache buf time_ms tolerance_ms n = None ->
  forall j f', (j < n)%nat -> buf !! j = Some f' ->
               ~ Session.within_tolerance time_ms tolerance_ms f'.
Proof.
  induction n as [|n IH]; cbn [Session.scan_cache]; [intros _ j f' Hj; lia|].
  destruct (buf !! n) as [cached|] eqn:Hn.
  - destruct (Qle_bool _ tolerance_ms) eqn:E; [discriminate|].
    intros Hs j f' Hj Hlook. destruct (decide (j = n)) as [->|Hne].
    + rewrite Hn in Hlook. injection Hlook as <-.
      unfold Session.within_tolerance. rewrite <- Qle_bool_iff, E. discriminate.
    + apply (IH Hs j f'); [lia | exact Hlook].
  - intros Hs j f' Hj Hlook. destruct (decide (j = n)) as [->|Hne].
    + rewrite Hn in Hlook. discriminate.
    + apply (IH Hs j f'); [lia | exact Hlook].
Qed.

Lemma get_cached_depth_length time_ms tolerance_ms drop_on_hit s :
  (length (Session.depth_buffer
             (Session.get_cached_depth time_ms tolerance_ms drop_on_hit s).2)
   <= length (Session.depth_buffer s))%nat.
Proof.
  unfold Session.get_cached_depth.
  destruct (Session.scan_cache _ _ _ _) as [[idx cached]|]; cbn; [|lia].
  destruct drop_on_hit; [|lia]. rewrite popleft_iter, length_drop. lia.
Qed.

Lemma run_cache_op_length op s :
  0 <= Config.video_cache_size settings ->
  Z.of_nat (length (Session.depth_buffer s)) <= Config.video_cache_size settings ->
  Z.of_nat (length (Session.depth_buffer (Session.run_cache_op settings op s)))
    <= Config.video_cache_size settings.
Proof.
  intros H0 Hs. destruct op as [frame|t tol d]; cbn [Session.run_cache_op].
  - cbn. apply deque_append_length; assumption.
  - pose proof (get_cached_depth_length t tol d s). lia.
Qed.

End CacheFacts.

(** [C4] For a depth cache of capacity [C = video_cache_size] (a deque needs
    [0 <= C]): after any sequence of [store_depth_frame] and
    [get_cached_depth] calls on a new session the buffer holds at most [C]
    frames; a hit of [get_cached_depth] is the frame at the greatest index
    whose timestamp is within [tolerance_ms] of the requested time (the scan
    runs from newest to oldest), a miss means no frame qualifies and leaves
    the session as it is; and with [drop_on_hit] a hit at index [i] leaves
    exactly the frames that were after index [i], so every frame at an index
    [<= i] is gone. *)
Theorem depth_cache_bounded_newest_first_drop_on_hit :
  forall (settings : Config.Settings),
    0 <= Config.video_cache_size settings ->
    (forall ops : list Session.cache_op,
        Z.of_nat (length (Session.depth_buffer
                            (foldl (fun s op => Session.run_cache_op settings op s)
                               Session.new_session ops)))
        <= Config.video_cache_size settings) /\
    (forall (s s' : Session.VideoSession) (time_ms tolerance_ms : Q)
            (drop_on_hit : bool) (f : Session.DepthFrame),
        Session.get_cached_depth time_ms tolerance_ms drop_on_hit s = (Some f, s') ->
        exists i : nat,
          Session.depth_buffer s !! i = Some f /\
          Session.within_tolerance time_ms tolerance_ms f /\
          (forall j f', (i < j)%nat -> Session.depth_buffer s !! j = Some f' ->
                        ~ Session.within_tolerance time_ms tolerance_ms f') /\
          Session.depth_buffer s' =
            (if drop_on_hit then drop (S i) (Session.depth_buffer s)
             else Session.depth_buffer s) /\
          (drop_on_hit = true ->
           length (Session.depth_buffer s')
           = (length (Session.depth_buffer s) - (i + 1))%nat)) /\
    (forall (s s' : Session.VideoSession) (time_ms tolerance_ms : Q)
            (drop_on_hit : bool),
        Session.get_cached_depth time_ms tolerance_ms drop_on_hit s = (None, s') ->
        s' = s /\
        forall j f', Session.depth_buffer s !! j = Some f' ->
                     ~ Session.within_tolerance time_ms tolerance_ms f').
Proof.
  intros settings HC. split; [|split].
  - intros ops.
    assert (Hinv : forall s,
               Z.of_nat (length (Session.depth_buffer s))
               <= Config.video_cache_size settings ->
               Z.of_nat (length (Session.depth_buffer
                            (foldl (fun s op => Session.run_cache_op settings op s)
                               s ops)))
               <= Config.video_cache_size settings).
    { induction ops as [|op ops IH]; intros s Hs; cbn [foldl]; [exact Hs|].
      apply IH, run_cache_op_length; assumption. }
    apply Hinv. cbn. exact HC.
  - intros s s' t tol d f. unfold Session.get_cached_depth.
    destruct (Session.scan_cache _ _ _ _) as [[idx cached]|] eqn:Hscan;
      [|discriminate].
    intros [= -> <-]. cbn [Session.depth_buffer].
    destruct (scan_cache_Some _ _ _ _ _ _ Hscan) as (Hi & Hf & Hw & Hrest).
    exists idx. split; [exact Hf|]. split; [exact Hw|]. split.
    + intros j f' Hj Hlook. apply (Hrest j f'); [|exact Hlook].
      split; [exact Hj|]. apply lookup_lt_Some in Hlook. exact Hlook.
    + split.
      * destruct d; [|reflexivity]. rewrite popleft_iter. f_equal. lia.
      * intros ->. rewrite popleft_iter, length_drop. reflexivity.
  - intros s s' t tol d. unfold Session.get_cached_depth.
    destruct (Session.scan_cache _ _ _ _) as [[idx cached]|] eqn:Hscan;
      [discriminate|].
    intros [= <-]. split; [reflexivity|].
    intros j f' Hlook. apply (scan_cache_None _ _ _ _ Hscan j f'); [|exact Hlook].
    apply lookup_lt_Some in Hlook. exact Hlook.
Qed.

Lemma depth_cache_bounded_newest_first_drop_on_hit_witness :
  let f1 := Session.mkDepthFrame 100 0 0 1 in
  let f2 := Session.mkDepthFrame 120 1 0 1 in
  let f3 := Session.mkDepthFrame 500 2 0 1 in
  let s := foldl (fun s op => Session.run_cache_op Config.default op s)
             Session.new_session
             [Session.Store f1; Session.Store f2; Session.Store f3] in
  Z.of_nat (length (Session.depth_buffer s)) <= 8 /\
  exists s',
    Session.get_cached_depth 110 33 true s = (Some f2, s') /\
    Session.depth_buffer s' = [f3].
Proof.
  intros f1 f2 f3 s.
  destruct (depth_cache_bounded_newest_first_drop_on_hit Config.default)
    as (Hlen & _ & _); [cbn; lia|].
  split; [apply Hlen|].
  eexists. split; reflexivity.
Defined.

(** ** Rolling statistics *)

Section TelemetryFacts.
Local Open Scope string_scope.
Local Open Scope Z_scope.
Implicit Types (rs : gmap string Q) (metrics : Session.metrics_dict).

Lemma telemetry_item_other rs key val k :
  Session.stat_target key <> Some k ->
  Session.telemetry_item rs (key, val) !! k = rs !! k.
Proof.
  unfold Session.stat_target, Session.telemetry_item, Session.update_stat.
  destruct (String.eqb key "dropped").
  - intros H. apply lookup_insert_ne. congruence.
  - destruct (existsb _ _).
    + intros H. apply lookup_insert_ne. congruence.
    + destruct (existsb _ _); [|reflexivity].
      intros H. apply lookup_insert_ne. congruence.
Qed.

Lemma telemetry_item_target rs key val k :
  Session.stat_target key = Some k ->
  Session.stat (Session.telemetry_item rs (key, val)) k =
    if String.eqb key "dropped" then (Session.stat rs k + val)%Q
    else Session.ema (Session.stat rs k) val.
Proof.
  unfold Session.stat_target, Session.telemetry_item, Session.update_stat.
  destruct (String.eqb key "dropped").
  - intros [= <-]. unfold Session.stat at 1. now rewrite lookup_insert_eq.
  - destruct (existsb _ _).
    + intros [= <-]. unfold Session.stat at 1. now rewrite lookup_insert_eq.
    + destruct (existsb _ _); [|discriminate].
      intros [= <-]. unfold Session.stat at 1. now rewrite lookup_insert_eq.
Qed.

(** The seven metric keys that feed a rolling statistic, with their targets. *)
Lemma stat_target_cases key k :
  Session.stat_target key = Some k ->
  (key, k) ∈ [("dropped", "drop_count"); ("infer_s", "infer_avg_s");
              ("queue_wait_s", "queue_avg_s"); ("ws_send_s", "ws_send_avg_s");
              ("decode_s", "decode_avg_s"); ("latency_ms", "latency_ms");
              ("depth_fps", "depth_fps")].
Proof.
  unfold Session.stat_target. cbn [existsb].
  repeat match goal with
  | |- context [String.eqb key ?c] =>
      destruct (String.eqb_spec key c) as [->|?];
      [vm_compute; intros [= <-]; set_solver|cbn [orb]]
  end.
  discriminate.
Qed.

Lemma stat_target_inj key key' k :
  Session.stat_target key = Some k -> Session.stat_target key' = Some k ->
  key = key'.
Proof.
  intros H1 H2. apply stat_target_cases in H1, H2.
  repeat (apply elem_of_cons in H1 as [H1|H1]; [injection H1 as -> ->|]);
    [..|apply elem_of_nil in H1; contradiction];
    repeat (apply elem_of_cons in H2 as [H2|H2];
            [first [discriminate H2 | injection H2 as ->; reflexivity]|]);
    apply elem_of_nil in H2; contradiction.
Qed.

Lemma dict_get_None key metrics :
  Session.dict_get key metrics = None -> key ∉ map fst metrics.
Proof.
  induction metrics as [|[k0 v0] rest IH]; cbn [Session.dict_get map fst].
  - intros _. apply not_elem_of_nil.
  - destruct (String.eqb_spec key k0) as [->|Hne]; [discriminate|].
    intros H. apply not_elem_of_cons. split; [exact Hne | exact (IH H)].
Qed.

(** Items that do not target [k] leave the entry [k] alone. *)
Lemma foldl_telemetry_item_other metrics rs k :
  (forall key, key ∈ map fst metrics -> Session.stat_target key <> Some k) ->
  foldl Session.telemetry_item rs metrics !! k = rs !! k.
Proof.
  revert rs. induction metrics as [|[k0 v0] rest IH]; intros rs Hno;
    cbn [foldl]; [reflexivity|].
  rewrite IH.
  - apply telemetry_item_other, Hno. cbn. apply elem_of_cons. now left.
  - intros key Hin. apply Hno. cbn. apply elem_of_cons. now right.
Qed.

(** With unique keys, the one item that targets [k] decides the entry. *)
Lemma foldl_telemetry_item_target metrics rs key val k :
  NoDup (map fst metrics) ->
  Session.dict_get key metrics = Some val ->
  Session.stat_target key = Some k ->
  Session.stat (foldl Session.telemetry_item rs metrics) k =
    if String.eqb key "dropped" then (Session.stat rs k + val)%Q
    else Session.ema (Session.stat rs k) val.
Proof.
  revert rs. induction metrics as [|[k0 v0] rest IH]; intros rs Hnd Hget Ht;
    cbn [Session.dict_get foldl map fst] in *; [discriminate|].
  apply NoDup_cons in Hnd as [Hnotin Hnd].
  destruct (String.eqb_spec key k0) as [<-|Hne].
  - injection Hget as <-.
    unfold Session.stat at 1. rewrite foldl_telemetry_item_other.
    + apply (telemetry_item_target rs key v0 k Ht).
    + intros key' Hin Ht'. apply Hnotin.
      now rewrite (stat_target_inj key key' k Ht Ht').
  - rewrite (IH _ Hnd Hget Ht).
    assert (Hk0 : Session.stat_target k0 <> Some k).
    { intros Ht0. apply Hne. exact (stat_target_inj key k0 k Ht Ht0). }
    unfold Session.stat. now rewrite (telemetry_item_other rs k0 v0 k Hk0).
Qed.

Lemma foldl_telemetry_item_absent metrics rs key k :
  Session.dict_get key metrics = None ->
  (forall key', Session.stat_target key' = Some k -> key' = key) ->
  Session.stat (foldl Session.telemetry_item rs metrics) k = Session.stat rs k.
Proof.
  intros Hget Honly. unfold Session.stat. rewrite foldl_telemetry_item_other.
  - reflexivity.
  - intros key' Hin Ht. apply (dict_get_None key metrics Hget).
    now rewrite <- (Honly key' Ht).
Qed.

Lemma adjust_quality_rolling_stats settings s :
  Session.rolling_stats (Session.adjust_quality settings s).1
  = Session.rolling_stats s.
Proof.
  unfold Session.adjust_quality.
  destruct (0 <? Session._quality_cooldown s); [reflexivity|].
  destruct (Session.telemetry s !! "quality_process_res"); cbn zeta;
    destruct (_ =? _); reflexivity.
Qed.

Lemma fps_from_total_stat metrics rs :
  Session.stat (Session.fps_from_total metrics rs) "depth_fps" =
    match Session.dict_get "total_s" metrics with
    | Some total_s =>
        if Py.Qlt_bool 0 total_s
        then Session.ema (Session.stat rs "depth_fps") (1 / total_s)%Q
        else Session.stat rs "depth_fps"
    | None => Session.stat rs "depth_fps"
    end.
Proof.
  unfold Session.fps_from_total.
  destruct (Session.dict_get "total_s" metrics) as [t|]; [|reflexivity].
  destruct (Py.Qlt_bool 0 t); [|reflexivity].
  unfold Session.update_stat. unfold Session.stat at 1.
  now rewrite lookup_insert_eq.
Qed.

Lemma fps_from_total_other metrics rs k :
  k <> "depth_fps" ->
  Session.stat (Session.fps_from_total metrics rs) k = Session.stat rs k.
Proof.
  intros Hk. unfold Session.fps_from_total.
  destruct (Session.dict_get "total_s" metrics) as [t|]; [|reflexivity].
  destruct (Py.Qlt_bool 0 t); [|reflexivity].
  unfold Session.update_stat, Session.stat. now rewrite lookup_insert_ne.
Qed.

End TelemetryFacts.

(** [C8], as the code has it. For a metrics dict (unique keys):
    - every sample under [infer_s], [queue_wait_s], [ws_send_s], [decode_s]
      or [latency_ms] updates its statistic ([infer_avg_s], [queue_avg_s],
      [ws_send_avg_s], [decode_avg_s], [latency_ms]) by the rule
      [stat <- (stat == 0 ? sample : 0.1 * sample + 0.9 * stat)], and an
      absent key leaves its statistic as it is;
    - [depth_fps] receives the sample under the key [depth_fps], if any, and
      then the sample [1 / total_s] when [total_s] is present and positive;
      a [total_s <= 0] is skipped;
    - [dropped] is added to [drop_count], which therefore does not decrease
      when the sample is not negative. *)
Theorem update_telemetry_applies_ema :
  forall (settings : Config.Settings) (metrics : Session.metrics_dict)
         (s : Session.VideoSession),
    NoDup (map fst metrics) ->
    let rs := Session.rolling_stats s in
    let rs' := Session.rolling_stats (Session.update_telemetry settings metrics s).1 in
    (forall current val : Q,
        ((current == 0)%Q -> Session.ema current val = val) /\
        (~ (current == 0)%Q ->
         (Session.ema current val == (1 # 10) * val + (9 # 10) * current)%Q)) /\
    (forall (key avg_key : string),
        (key, avg_key) ∈ [("infer_s", "infer_avg_s"); ("queue_wait_s", "queue_avg_s");
                          ("ws_send_s", "ws_send_avg_s"); ("decode_s", "decode_avg_s");
                          ("latency_ms", "latency_ms")]%string ->
        Session.stat rs' avg_key =
          match Session.dict_get key metrics with
          | Some val => Session.ema (Session.stat rs avg_key) val
          | None => Session.stat rs avg_key
          end) /\
    (let fps1 :=
       match Session.dict_get "depth_fps" metrics with
       | Some val => Session.ema (Session.stat rs "depth_fps") val
       | None => Session.stat rs "depth_fps"
       end in
     Session.stat rs' "depth_fps" =
       match Session.dict_get "total_s" metrics with
       | Some total_s =>
           if Py.Qlt_bool 0 total_s then Session.ema fps1 (1 / total_s)%Q else fps1
       | None => fps1
       end) /\
    Session.stat rs' "drop_count" =
      match Session.dict_get "dropped" metrics with
      | Some val => (Session.stat rs "drop_count" + val)%Q
      | None => Session.stat rs "drop_count"
      end /\
    (forall val, Session.dict_get "dropped" metrics = Some val -> (0 <= val)%Q ->
                 (Session.stat rs "drop_count" <= Session.stat rs' "drop_count")%Q).
Proof.
  intros settings metrics s Hnd rs rs'.
  assert (Hrs' : rs' = Session.fps_from_total metrics
                         (foldl Session.telemetry_item rs metrics)).
  { subst rs'. unfold Session.update_telemetry.
    now rewrite adjust_quality_rolling_stats. }
  assert (Honly : forall k key key',
             Session.stat_target key = Some k ->
             Session.stat_target key' = Some k -> key' = key).
  { intros k key key' H1 H2. symmetry. exact (stat_target_inj key key' k H1 H2). }
  assert (Hone : forall key k,
             Session.stat_target key = Some k ->
             Session.stat (foldl Session.telemetry_item rs metrics) k =
               match Session.dict_get key metrics with
               | Some val =>
                   if String.eqb key "dropped" then (Session.stat rs k + val)%Q
                   else Session.ema (Session.stat rs k) val
               | None => Session.stat rs k
               end).
  { intros key k Ht. destruct (Session.dict_get key metrics) as [val|] eqn:Hget.
    - exact (foldl_telemetry_item_target metrics rs key val k Hnd Hget Ht).
    - apply (foldl_telemetry_item_absent metrics rs key k Hget).
      intros key' Ht'. exact (Honly k key key' Ht Ht'). }
  split; [|split; [|split; [|split]]].
  - intros current val. unfold Session.ema, Session.alpha. split.
    + intros H0. apply Qeq_bool_iff in H0. now rewrite H0.
    + intros Hn. destruct (Qeq_bool current 0) eqn:E.
      * apply Qeq_bool_iff in E. contradiction.
      * ring.
  - intros key avg_key Hin. rewrite Hrs'.
    repeat (apply elem_of_cons in Hin as [Hin|Hin];
            [injection Hin as -> ->;
             rewrite fps_from_total_other by discriminate;
             match goal with
             | |- Session.stat _ ?k = match Session.dict_get ?key _ with _ => _ end =>
                 rewrite (Hone key k eq_refl)
             end; reflexivity|]).
    apply elem_of_nil in Hin. contradiction.
  - cbn zeta. rewrite Hrs', fps_from_total_stat.
    rewrite (Hone "depth_fps"%string _ eq_refl). reflexivity.
  - rewrite Hrs', fps_from_total_other by discriminate.
    rewrite (Hone "dropped"%string _ eq_refl). reflexivity.
  - intros val Hget Hval.
    rewrite Hrs', fps_from_total_other by discriminate.
    rewrite (Hone "dropped"%string _ eq_refl), Hget. cbn. lra.
Qed.

Lemma update_telemetry_applies_ema_witness :
  let metrics := [("infer_s", 1 # 4); ("total_s", 1 # 2); ("dropped", 3)]%string%Q in
  let s := (Session.update_telemetry Config.default
              [("infer_s", 1 # 10)]%string%Q Session.new_session).1 in
  let rs' := Session.rolling_stats
               (Session.update_telemetry Config.default metrics s).1 in
  (Session.stat rs' "infer_avg_s" == (1 # 10) * (1 # 4) + (9 # 10) * (1 # 10))%Q /\
  (Session.stat rs' "depth_fps" == 2)%Q /\
  (Session.stat rs' "drop_count" == 3)%Q.
Proof.
  intros metrics s rs'.
  assert (Hnd : NoDup (map fst metrics)).
  { apply (bool_decide_unpack _). vm_compute. exact I. }
  pose proof (update_telemetry_applies_ema Config.default metrics s Hnd) as H.
  cbv zeta in H.
  destruct H
    as (_ & Hema & Hfps & Hdrop & _).
  fold rs' in Hema, Hfps, Hdrop.
  split; [|split].
  - pose proof (Hema "infer_s" "infer_avg_s" (list_elem_of_here _ _))%string as H1.
    refine (eq_ind_r (fun x => (x == _)%Q) _ H1).
    vm_compute. reflexivity.
  - refine (eq_ind_r (fun x => (x == _)%Q) _ Hfps).
    vm_compute. reflexivity.
  - refine (eq_ind_r (fun x => (x == _)%Q) _ Hdrop).
    vm_compute. reflexivity.
Defined.

(** Against [C8] as stated. With [depth_fps] at 30, an update whose
    [total_s] is present but zero leaves [depth_fps] at 30, although mixing
    in any sample other than 30 would move it; an update with a negative
    [total_s] leaves it at 30 too, not at the value the rule gives for
    [1 / total_s]. And a negative [dropped] sample lowers [drop_count]. *)
Lemma update_telemetry_skips_nonpositive_total_s :
  let s := (Session.update_telemetry Config.default
              [("total_s", 1 # 30)]%string%Q Session.new_session).1 in
  let fps (m : Session.metrics_dict) :=
    Session.stat (Session.rolling_stats
                    (Session.update_telemetry Config.default m s).1) "depth_fps" in
  let drops (m : Session.metrics_dict) :=
    Session.stat (Session.rolling_stats
                    (Session.update_telemetry Config.default m s).1) "drop_count" in
  (Session.stat (Session.rolling_stats s) "depth_fps" == 30)%Q /\
  Session.dict_get "total_s" [("total_s", 0%Q)]%string = Some 0%Q /\
  (fps [("total_s", 0%Q)]%string == 30)%Q /\
  (forall x : Q, (30 == Session.ema 30 x)%Q -> (x == 30)%Q) /\
  (fps [("total_s", -(1 # 2))]%string%Q == 30)%Q /\
  ~ (fps [("total_s", -(1 # 2))]%string%Q == Session.ema 30 (1 / -(1 # 2)))%Q /\
  (drops [("dropped", -(1))]%string%Q < Session.stat (Session.rolling_stats s) "drop_count")%Q.
Proof.
  intros s fps drops.
  split; [vm_compute; reflexivity|]. split; [reflexivity|].
  split; [vm_compute; reflexivity|].
  split.
  { intros x. unfold Session.ema, Session.alpha.
    change (Qeq_bool 30 0) with false. cbv iota. intros H. lra. }
  split; [vm_compute; reflexivity|].
  split; [vm_compute; discriminate|]. vm_compute. reflexivity.
Qed.

(** ** The adaptive controller *)

Section ControllerFacts.
Local Open Scope string_scope.
Local Open Scope Z_scope.
Variable settings : Config.Settings.
Implicit Types (s : Session.VideoSession) (steps : list Z).

Lemma min_by_distance_member c d steps :
  c ∈ steps -> Session.min_by_distance c d steps = c.
Proof.
  induction steps as [|x rest IH]; [intros H; apply elem_of_nil in H; contradiction|].
  intros Hin. cbn [Session.min_by_distance].
  destruct rest as [|y rest'].
  - apply list_elem_of_singleton in Hin. congruence.
  - apply elem_of_cons in Hin as [->|Hin].
    + destruct (Z.leb_spec (Z.abs (x - x))
                  (Z.abs (Session.min_by_distance x d (y :: rest') - x)));
        [reflexivity|lia].
    + rewrite (IH Hin).
      destruct (Z.leb_spec (Z.abs (x - c)) (Z.abs (c - c))); [lia|reflexivity].
Qed.

Lemma index_of_member c steps :
  c ∈ steps -> steps !! Session.index_of c steps = Some c.
Proof.
  induction steps as [|x rest IH]; [intros H; apply elem_of_nil in H; contradiction|].
  intros Hin. cbn [Session.index_of].
  destruct (Z.eqb_spec x c) as [->|Hne]; [reflexivity|].
  apply elem_of_cons in Hin as [->|Hin]; [contradiction|].
  cbn. exact (IH Hin).
Qed.

Lemma int_of_float_inject_Z (v : Z) : Py.int_of_float (inject_Z v) = v.
Proof. unfold Py.int_of_float. cbn. apply Z.quot_1_r. Qed.

(** When the configured resolution is a ladder entry, the steps are the
    filtered ladder and the configured resolution is one of them. *)
Lemma quality_steps_on_ladder :
  Config.depth_process_res settings ∈ Session.all_steps ->
  Session.quality_steps settings
    = filter (fun x => x <= Config.depth_process_res settings) Session.all_steps /\
  Config.depth_process_res settings ∈ Session.quality_steps settings.
Proof.
  intros Hin. unfold Session.quality_steps.
  assert (Hf : Config.depth_process_res settings
               ∈ filter (fun x => x <= Config.depth_process_res settings)
                   Session.all_steps).
  { apply list_elem_of_filter. split; [lia | exact Hin]. }
  destruct (filter _ Session.all_steps) as [|x l] eqn:E.
  - apply elem_of_nil in Hf. contradiction.
  - split; [reflexivity | exact Hf].
Qed.

(** How the countdown moves in one call, and that a change needs it at 0. *)
Lemma adjust_quality_cooldown s :
  Session._quality_cooldown s - 1
    <= Session._quality_cooldown (Session.adjust_quality settings s).1 /\
  forall cur new,
    Session.ChangeWrite cur new ∈ (Session.adjust_quality settings s).2 ->
    Session._quality_cooldown s <= 0 /\
    Session._quality_cooldown (Session.adjust_quality settings s).1 = 60.
Proof.
  unfold Session.adjust_quality.
  destruct (Z.ltb_spec 0 (Session._quality_cooldown s)) as [Hpos|Hz].
  - cbn. split; [lia|]. intros cur new H. apply elem_of_nil in H. contradiction.
  - destruct (Session.telemetry s !! "quality_process_res"); cbn zeta;
      destruct (_ =? _); cbn; (split; [lia|]); intros cur new H;
      repeat (apply elem_of_cons in H as [H|H]; [try discriminate H|]);
      try (apply elem_of_nil in H; contradiction);
      (split; [lia | reflexivity]).
Qed.

End ControllerFacts.

Section ControllerLadder.
Local Open Scope string_scope.
Local Open Scope Z_scope.
Variable settings : Config.Settings.
Hypothesis max_on_ladder : Config.depth_process_res settings ∈ Session.all_steps.
Implicit Types (s : Session.VideoSession).

(** One call of [adjust_quality] on a session whose stored resolution is on
    the steps: everything written is on the steps, and a change goes to a
    neighbour. *)
Lemma adjust_quality_on_ladder s :
  let steps := Session.quality_steps settings in
  Session.stored_on steps s ->
  Session.stored_on steps (Session.adjust_quality settings s).1 /\
  (forall w, w ∈ (Session.adjust_quality settings s).2 ->
             Session.written_value w ∈ steps) /\
  (forall cur new, Session.ChangeWrite cur new ∈ (Session.adjust_quality settings s).2 ->
                   Session.one_step steps cur new).
Proof.
  intros steps Hst.
  destruct (quality_steps_on_ladder settings max_on_ladder) as [_ Hmax].
  fold steps in Hmax.
  unfold Session.adjust_quality.
  destruct (Z.ltb_spec 0 (Session._quality_cooldown s)) as [Hpos|Hz].
  { cbn. split; [exact Hst|].
    split; intros; exfalso; eapply elem_of_nil; eassumption. }
  (* the resolution read back, after the initialising write if any *)
  assert (Hcur : exists c telemetry1 init_writes,
             match Session.telemetry s !! "quality_process_res" with
             | Some _ => (Session.telemetry s, [])
             | None =>
                 (<["quality_process_res" :=
                      inject_Z (Config.depth_process_res settings)]>
                    (Session.telemetry s),
                  [Session.InitWrite (Config.depth_process_res settings)])
             end = (telemetry1, init_writes) /\
             telemetry1 !! "quality_process_res" = Some (inject_Z c) /\
             c ∈ steps /\
             (forall w, w ∈ init_writes -> Session.written_value w ∈ steps) /\
             (forall cur new, Session.ChangeWrite cur new ∉ init_writes)).
  { unfold Session.stored_on in Hst.
    destruct (Session.telemetry s !! "quality_process_res") as [q|] eqn:Eq.
    - destruct Hst as (v & -> & Hv).
      exists v, (Session.telemetry s), []. split; [reflexivity|].
      split; [exact Eq|]. split; [exact Hv|].
      split; intros; [exfalso; eapply elem_of_nil; eassumption|apply not_elem_of_nil].
    - eexists _, _, _. split; [reflexivity|].
      split; [apply lookup_insert_eq|]. split; [exact Hmax|]. split.
      + intros w Hw. apply list_elem_of_singleton in Hw as ->. exact Hmax.
      + intros cur new Hw. apply list_elem_of_singleton in Hw. discriminate. }
  destruct Hcur as (c & telemetry1 & init_writes & -> & Hlook & Hc & Hinit & Hnochange).
  cbn zeta. rewrite Hlook.
  change (default 0%Q (Some (inject_Z c))) with (inject_Z c).
  rewrite int_of_float_inject_Z.
  fold steps. rewrite (min_by_distance_member c _ steps Hc).
  pose proof (index_of_member c steps Hc) as Hidx.
  set (i := Session.index_of c steps) in *.
  assert (Hi : (i < length steps)%nat) by (eapply lookup_lt_Some; exact Hidx).
  match goal with
  | |- context [default 0 (steps !! ?n)] => set (new_idx := n)
  end.
  assert (Hnew : new_idx = i \/
                 (new_idx = (i + 1)%nat /\ (i + 1 < length steps)%nat) \/
                 (new_idx = (i - 1)%nat /\ (0 < i)%nat)).
  { subst new_idx.
    destruct (_ || _ || _).
    - destruct (Nat.ltb_spec i (length steps - 1)); [right; left; lia | left; reflexivity].
    - destruct (_ && _ && _); [|left; reflexivity].
      destruct (Nat.ltb_spec 0 i); [right; right; lia | left; reflexivity]. }
  assert (Hlk : exists r, steps !! new_idx = Some r).
  { apply lookup_lt_is_Some. destruct Hnew as [->|[[-> ?]|[-> ?]]]; lia. }
  destruct Hlk as [r Hr]. rewrite Hr. change (default 0 (Some r)) with r.
  destruct (Z.eqb_spec r c) as [->|Hne]; cbn [fst snd].
  - split.
    + unfold Session.stored_on. cbn. rewrite Hlook. eauto.
    + split; [exact Hinit|]. intros cur new Hw. exfalso. exact (Hnochange _ _ Hw).
  - assert (Hr_in : r ∈ steps) by (eapply list_elem_of_lookup_2; exact Hr).
    split.
    + unfold Session.stored_on. cbn. rewrite lookup_insert_eq. eauto.
    + split.
      * intros w Hw. apply elem_of_app in Hw as [Hw|Hw]; [exact (Hinit w Hw)|].
        apply list_elem_of_singleton in Hw as ->. exact Hr_in.
      * intros cur new Hw. apply elem_of_app in Hw as [Hw|Hw];
          [exfalso; exact (Hnochange _ _ Hw)|].
        apply list_elem_of_singleton in Hw. injection Hw as -> ->.
        exists i. split; [exact Hidx|].
        destruct Hnew as [Heq|[[Heq ?]|[Heq ?]]].
        -- exfalso. rewrite Heq, Hidx in Hr. congruence.
        -- left. rewrite <- Heq. exact Hr.
        -- right. split; [assumption|]. rewrite <- Heq. exact Hr.
Qed.

End ControllerLadder.

Section ControllerRuns.
Local Open Scope string_scope.
Local Open Scope Z_scope.
Variable settings : Config.Settings.
Implicit Types (s : Session.VideoSession) (metrics : Session.metrics_dict).

Lemma telemetry_update_other metrics (t : gmap string Q) k :
  k ∉ map fst metrics ->
  foldl (fun t kv => <[kv.1 := kv.2]> t) t metrics !! k = t !! k.
Proof.
  revert t. induction metrics as [|[k0 v0] rest IH]; intros t Hk; cbn [foldl];
    [reflexivity|].
  cbn [map fst] in Hk. apply not_elem_of_cons in Hk as [Hne Hk].
  rewrite (IH _ Hk). cbn. apply lookup_insert_ne. congruence.
Qed.

Lemma update_telemetry_cooldown metrics s :
  Session._quality_cooldown s - 1
    <= Session._quality_cooldown (Session.update_telemetry settings metrics s).1 /\
  forall cur new,
    Session.ChangeWrite cur new ∈ (Session.update_telemetry settings metrics s).2 ->
    Session._quality_cooldown s <= 0 /\
    Session._quality_cooldown (Session.update_telemetry settings metrics s).1 = 60.
Proof.
  unfold Session.update_telemetry.
  match goal with
  | |- context [Session.adjust_quality settings ?s1] =>
      exact (adjust_quality_cooldown settings s1)
  end.
Qed.

Lemma update_telemetry_on_ladder metrics s :
  Config.depth_process_res settings ∈ Session.all_steps ->
  "quality_process_res" ∉ map fst metrics ->
  let steps := Session.quality_steps settings in
  Session.stored_on steps s ->
  Session.stored_on steps (Session.update_telemetry settings metrics s).1 /\
  (forall w, w ∈ (Session.update_telemetry settings metrics s).2 ->
             Session.written_value w ∈ steps) /\
  (forall cur new,
      Session.ChangeWrite cur new ∈ (Session.update_telemetry settings metrics s).2 ->
      Session.one_step steps cur new).
Proof.
  intros Hmax Hkey steps Hst. unfold Session.update_telemetry.
  apply (adjust_quality_on_ladder settings Hmax).
  unfold Session.stored_on in *. cbn [Session.telemetry].
  rewrite (telemetry_update_other metrics _ _ Hkey). exact Hst.
Qed.

Lemma run_updates_cons metrics updates s :
  Session.run_updates settings (metrics :: updates) s =
    ((Session.run_updates settings updates
        (Session.update_telemetry settings metrics s).1).1,
     (Session.update_telemetry settings metrics s).2
       :: (Session.run_updates settings updates
             (Session.update_telemetry settings metrics s).1).2).
Proof.
  cbn [Session.run_updates].
  destruct (Session.update_telemetry settings metrics s) as [s1 w].
  cbn [fst snd].
  destruct (Session.run_updates settings updates s1) as [s2 ws]. reflexivity.
Qed.

(** No change while the countdown runs, and at least 60 updates between
    two changes. *)
Lemma run_updates_spacing updates s :
  let logs := (Session.run_updates settings updates s).2 in
  (forall (i : nat) ws cur new,
      logs !! i = Some ws -> Session.ChangeWrite cur new ∈ ws ->
      Session._quality_cooldown s <= Z.of_nat i) /\
  (forall (i j : nat) wi wj cur new cur' new',
      (i < j)%nat -> logs !! i = Some wi -> logs !! j = Some wj ->
      Session.ChangeWrite cur new ∈ wi -> Session.ChangeWrite cur' new' ∈ wj ->
      (i + 60 < j)%nat).
Proof.
  revert s. induction updates as [|m rest IH]; intros s logs; subst logs.
  - cbn. split; intros; discriminate.
  - rewrite run_updates_cons. cbn [snd].
    destruct (update_telemetry_cooldown m s) as [Hdec Hchg].
    destruct (IH (Session.update_telemetry settings m s).1) as [IH1 IH2].
    split.
    + intros [|i] ws cur new Hl Hw; cbn in Hl.
      * injection Hl as <-. destruct (Hchg _ _ Hw). lia.
      * pose proof (IH1 i ws cur new Hl Hw). lia.
    + intros [|i] [|j] wi wj cur new cur' new' Hij Hli Hlj Hwi Hwj;
        cbn in Hli, Hlj; try lia.
      * injection Hli as <-. destruct (Hchg _ _ Hwi) as [_ H60].
        pose proof (IH1 j wj cur' new' Hlj Hwj). lia.
      * assert (i + 60 < j)%nat; [|lia].
        apply (IH2 i j wi wj cur new cur' new'); [lia|assumption..].
Qed.

Lemma run_updates_on_ladder updates s :
  Config.depth_process_res settings ∈ Session.all_steps ->
  (forall metrics, metrics ∈ updates -> "quality_process_res" ∉ map fst metrics) ->
  let steps := Session.quality_steps settings in
  Session.stored_on steps s ->
  forall ws, ws ∈ (Session.run_updates settings updates s).2 ->
    (forall w, w ∈ ws -> Session.written_value w ∈ steps) /\
    (forall cur new, Session.ChangeWrite cur new ∈ ws ->
                     Session.one_step steps cur new).
Proof.
  intros Hmax. revert s. induction updates as [|m rest IH];
    intros s Hkeys steps Hst ws Hws.
  - cbn in Hws. apply elem_of_nil in Hws. contradiction.
  - rewrite run_updates_cons in Hws. cbn [snd] in Hws.
    destruct (update_telemetry_on_ladder m s Hmax
                (Hkeys m (list_elem_of_here _ _)) Hst) as (Hst1 & Hw & Hc).
    apply elem_of_cons in Hws as [->|Hws].
    + split; assumption.
    + apply (IH (Session.update_telemetry settings m s).1); [|exact Hst1|exact Hws].
      intros metrics Hin. apply Hkeys. now apply list_elem_of_further.
Qed.

End ControllerRuns.

(** ** In-place clamping of the caller's array *)

Section AliasingFacts.
Implicit Types (σ : gmap nat Packets.ndarray) (a : Packets.ndarray).

(** The upper bound [quantize_depth] clamps to. *)
Lemma quantize_depth_buffer a z_min z_max :
  (Packets.quantize_depth a z_min z_max).1 =
    {| Packets.shape0 := Packets.shape0 a; Packets.shape1 := Packets.shape1 a;
       Packets.data :=
         map (Packets.clip z_min
                (if Qle_bool z_max z_min then (z_min + (1 # 1000))%Q else z_max))
           (Packets.data a) |}.
Proof. reflexivity. Qed.

Lemma pack_depth_payload_buffer zc settings a ts z_min z_max compress :
  (Packets.pack_depth_payload zc settings a ts z_min z_max compress).1 =
    (Packets.quantize_depth a z_min z_max).1.
Proof.
  unfold Packets.pack_depth_payload, Packets.quantize_depth.
  destruct compress; reflexivity.
Qed.

Lemma adjusted_bound_above z_min z_max :
  (z_min <= (if Qle_bool z_max z_min then z_min + (1 # 1000) else z_max))%Q.
Proof.
  destruct (Qle_bool z_max z_min) eqn:E; [lra|].
  apply Qlt_le_weak, Qnot_le_lt. rewrite <- Qle_bool_iff. congruence.
Qed.

(** Clamping moves every element that lies outside the range. *)
Lemma clip_changes_outside lo hi (l : list Q) :
  (lo <= hi)%Q ->
  Exists (fun d => (d < lo)%Q \/ (hi < d)%Q) l ->
  map (Packets.clip lo hi) l <> l.
Proof.
  intros Hle Hex Heq. induction Hex as [d l Hd|d l Hex IH].
  - injection Heq as Hd' _.
    destruct (clip_between lo hi d Hle) as [H1 H2]. rewrite Hd' in H1, H2.
    destruct Hd; lra.
  - injection Heq as _ Hl. exact (IH Hl).
Qed.

End AliasingFacts.

(** [C9] [quantize_depth], and with it [pack_depth_payload], overwrites the
    caller's array: after the call the object the caller passed holds its
    values clamped to [[z_min, adjusted z_max]], whatever the result of the
    call is, so an array with a value outside that range is not left as it
    was. The streaming pipeline packs a copy of the cached frame's array, and
    the cached array keeps its content. *)
Theorem quantize_depth_clamps_callers_array :
  forall (σ : gmap nat Packets.ndarray) (depth : nat) (a : Packets.ndarray)
         (z_min z_max : Q),
    σ !! depth = Some a ->
    let hi := if Qle_bool z_max z_min then (z_min + (1 # 1000))%Q else z_max in
    let clamped :=
      {| Packets.shape0 := Packets.shape0 a; Packets.shape1 := Packets.shape1 a;
         Packets.data := map (Packets.clip z_min hi) (Packets.data a) |} in
    (exists out,
        Packets.quantize_depth_at σ depth z_min z_max
        = Some (out, <[depth := clamped]> σ)) /\
    (forall zlib_compress settings timestamp_ms compress,
        exists r,
          Packets.pack_depth_payload_at zlib_compress settings σ depth
            timestamp_ms z_min z_max compress
          = Some (r, <[depth := clamped]> σ)) /\
    (Exists (fun d => (d < z_min)%Q \/ (hi < d)%Q) (Packets.data a) ->
     <[depth := clamped]> σ !! depth <> σ !! depth) /\
    (forall zlib_compress settings (frame : Session.DepthFrame),
        Session.depth frame = depth ->
        exists r σ',
          Stream.pack_frame zlib_compress settings σ frame = Some (r, σ') /\
          σ' !! depth = Some a).
Proof.
  intros σ depth a z_min z_max Hlook hi clamped.
  split; [|split; [|split]].
  - unfold Packets.quantize_depth_at. rewrite Hlook. cbn [mbind option_bind].
    pose proof (quantize_depth_buffer a z_min z_max) as Hb.
    destruct (Packets.quantize_depth a z_min z_max) as [a' out].
    cbn [fst] in Hb. subst a'. exists out. reflexivity.
  - intros zc settings ts compress.
    unfold Packets.pack_depth_payload_at. rewrite Hlook. cbn [mbind option_bind].
    pose proof (pack_depth_payload_buffer zc settings a ts z_min z_max compress) as Hb.
    rewrite quantize_depth_buffer in Hb.
    destruct (Packets.pack_depth_payload zc settings a ts z_min z_max compress)
      as [a' r].
    cbn [fst] in Hb. subst a'. exists r. reflexivity.
  - intros Hex. rewrite lookup_insert_eq, Hlook. intros [= Heq].
    apply (clip_changes_outside z_min hi (Packets.data a)
             (adjusted_bound_above z_min z_max) Hex).
    exact (f_equal Packets.data Heq).
  - intros zc settings frame Hframe.
    unfold Stream.pack_frame, Packets.ndarray_copy. rewrite Hframe, Hlook.
    cbn [mbind option_bind].
    unfold Packets.pack_depth_payload_at. rewrite lookup_insert_eq.
    cbn [mbind option_bind].
    destruct (Packets.pack_depth_payload zc settings a _ _ _ _) as [a' r].
    eexists _, _. split; [reflexivity|].
    assert (Hfresh : fresh (dom σ) <> depth).
    { intros Heq. apply (is_fresh (dom σ)). rewrite Heq.
      apply elem_of_dom. eauto. }
    now rewrite !lookup_insert_ne.
Qed.

Lemma quantize_depth_clamps_callers_array_witness :
  let a := Packets.mkArray 1 3 [(1 # 2)%Q; 3%Q; (-1)%Q] in
  let σ : gmap nat Packets.ndarray := {[ 0%nat := a ]} in
  (exists out,
      Packets.quantize_depth_at σ 0 0 2
      = Some (out, <[0%nat := Packets.mkArray 1 3 [(1 # 2)%Q; 2%Q; 0%Q]]> σ)) /\
  (exists r σ',
      Stream.pack_frame (fun b => b) Config.default σ
        (Session.mkDepthFrame 5 0 0 2) = Some (r, σ') /\
      σ' !! 0%nat = Some a).
Proof.
  intros a σ.
  destruct (quantize_depth_clamps_callers_array σ 0 a 0 2
              (lookup_singleton_eq 0%nat a)) as (Hq & _ & _ & Hcopy).
  split.
  - exact Hq.
  - exact (Hcopy (fun b => b) Config.default (Session.mkDepthFrame 5 0 0 2) eq_refl).
Defined.

(** ** The single decoder *)

Section DecoderFacts.
Implicit Types (pos : list VideoIO.AVFrame) (d : VideoIO.FrameDecoder).

(** A frame the scan passes over: it has a timestamp, and lies before the
    target. *)
Lemma advance_loop_spec (t : Q) (drained : bool) pos :
  forall (n : Z) (last : option Q),
  0 <= n < VideoIO.MAX_SCAN_FRAMES ->
  match VideoIO.advance_loop t n last drained pos with
  | (Py.Ok (frame, info), (rest, iter, _)) =>
      info = VideoIO.frame_info_from_av frame /\ iter = true /\
      exists k : nat,
        pos !! k = Some frame /\ rest = drop (S k) pos /\
        (forall (j : nat) f, (j < k)%nat -> pos !! j = Some f ->
           (0 <= VideoIO.time_ms (VideoIO.frame_info_from_av f) < t)%Q) /\
        ((t <= VideoIO.time_ms info)%Q \/ (VideoIO.time_ms info < 0)%Q \/
         n + Z.of_nat k + 1 = VideoIO.MAX_SCAN_FRAMES)
  | (Py.Raise e, (rest, iter, _)) =>
      e = (if drained then Py.EOFError else Py.StopIteration) /\
      rest = [] /\ iter = drained /\
      n + Z.of_nat (length pos) < VideoIO.MAX_SCAN_FRAMES /\
      forall f, f ∈ pos ->
        (0 <= VideoIO.time_ms (VideoIO.frame_info_from_av f) < t)%Q
  end.
Proof.
  induction pos as [|frame rest IH]; intros n last Hn; cbn [VideoIO.advance_loop].
  - assert (Hnil : forall f : VideoIO.AVFrame, f ∈ [] ->
               (0 <= VideoIO.time_ms (VideoIO.frame_info_from_av f) < t)%Q).
    { intros f Hf. apply elem_of_nil in Hf. contradiction. }
    destruct drained; (split; [reflexivity|]; split; [reflexivity|];
      split; [reflexivity|]; split; [cbn [length]; lia | exact Hnil]).
  - set (info := VideoIO.frame_info_from_av frame).
    destruct (Py.Qlt_bool (VideoIO.time_ms info) 0) eqn:Eneg; cbn [orb].
    { split; [reflexivity|]. split; [reflexivity|]. exists 0%nat.
      split; [reflexivity|]. split; [reflexivity|]. split; [intros j f Hj; lia|].
      right; left. unfold Py.Qlt_bool in Eneg. apply negb_true_iff in Eneg.
      apply Qnot_le_lt. rewrite <- Qle_bool_iff. congruence. }
    assert (Hpos : (0 <= VideoIO.time_ms info)%Q).
    { unfold Py.Qlt_bool in Eneg. apply negb_false_iff in Eneg.
      now apply Qle_bool_iff. }
    assert (Hact : Qle_bool 0 (VideoIO.time_ms info) = true)
      by now apply Qle_bool_iff.
    rewrite Hact.
    destruct (Qle_bool t (VideoIO.time_ms info)) eqn:Ege; cbn [orb].
    { split; [reflexivity|]. split; [reflexivity|]. exists 0%nat.
      split; [reflexivity|]. split; [reflexivity|]. split; [intros j f Hj; lia|].
      left. now apply Qle_bool_iff. }
    assert (Hlt : (VideoIO.time_ms info < t)%Q).
    { apply Qnot_le_lt. rewrite <- Qle_bool_iff. congruence. }
    destruct (Z.leb_spec VideoIO.MAX_SCAN_FRAMES (n + 1)) as [Hmax|Hmore].
    { split; [reflexivity|]. split; [reflexivity|]. exists 0%nat.
      split; [reflexivity|]. split; [reflexivity|]. split; [intros j f Hj; lia|].
      right; right. lia. }
    specialize (IH (n + 1) (Some (VideoIO.time_ms info)) ltac:(lia)).
    destruct (VideoIO.advance_loop t (n + 1) (Some (VideoIO.time_ms info))
                drained rest)
      as [[[fr inf]|e] [[rest' iter] last']].
    + destruct IH as (Hinf & Hiter & k & Hk & Hrest & Hbefore & Hstop).
      split; [exact Hinf|]. split; [exact Hiter|]. exists (S k).
      split; [exact Hk|]. split; [exact Hrest|]. split.
      * intros [|j] f Hj Hf; cbn in Hf.
        -- injection Hf as <-. fold info. split; assumption.
        -- apply (Hbefore j f); [lia | exact Hf].
      * destruct Hstop as [?|[?|?]]; [left; assumption | right; left; assumption |].
        right; right. lia.
    + destruct IH as (He & Hrest & Hiter & Hlen & Hall).
      split; [exact He|]. split; [exact Hrest|]. split; [exact Hiter|].
      split; [cbn [length]; lia|].
      intros f Hf. apply elem_of_cons in Hf as [->|Hf].
      * fold info. split; assumption.
      * exact (Hall f Hf).
Qed.

End DecoderFacts.




(** ** Ordered delivery *)

Section OrderFacts.
Implicit Types (c : Stream.connection) (l : list nat).

Lemma ordered_below_remove bound l1 x l2 :
  Stream.ordered_below bound (l1 ++ x :: l2) -> Stream.ordered_below bound (l1 ++ l2).
Proof.
  intros [Hs Hb]. split.
  - apply StronglySorted_app in Hs as (Hlt & H1 & H2).
    apply StronglySorted_cons in H2 as [_ H2].
    apply StronglySorted_app_2; [|assumption..].
    intros x1 x2 Hx1 Hx2. apply Hlt; [exact Hx1|]. now apply list_elem_of_further.
  - apply Forall_app in Hb as [Hb1 Hb2]. apply Forall_cons in Hb2 as [_ Hb2].
    now apply Forall_app.
Qed.

Lemma ordered_below_snoc bound l :
  Stream.ordered_below bound l -> Stream.ordered_below (S bound) (l ++ [bound]).
Proof.
  intros [Hs Hb]. split.
  - apply StronglySorted_app_2; [|exact Hs|repeat constructor].
    intros x1 x2 Hx1 Hx2. apply list_elem_of_singleton in Hx2 as ->.
    rewrite Forall_forall in Hb. now apply Hb.
  - apply Forall_app. split.
    + eapply Forall_impl; [exact Hb|]. cbn. intros; lia.
    + repeat constructor.
Qed.

Lemma ordered_below_not_before bound l1 x l2 :
  Stream.ordered_below bound (l1 ++ x :: l2) -> x ∉ l1.
Proof.
  intros [Hs _] Hin.
  pose proof (StronglySorted_app_1_elem_of _ _ _ x x Hs Hin (list_elem_of_here _ _)).
  lia.
Qed.

End OrderFacts.

Section DeliveryFacts.
Implicit Types (c : Stream.connection).

Lemma connect_invariant : Stream.delivery_invariant Stream.connect.
Proof.
  split.
  - split; constructor.
  - intros n p H. apply elem_of_nil in H. contradiction.
Qed.

(** Every event keeps the invariant. *)
Lemma exec_invariant e c c' :
  Stream.delivery_invariant c -> Stream.exec e c = Some c' ->
  Stream.delivery_invariant c'.
Proof.
  destruct c as [q d p t a sq aw s st sa].
  unfold Stream.delivery_invariant, Stream.in_flight. cbn.
  intros [Hord Hsent] Hexec.
  destruct e as [r| | | |n res|n| |ok|]; cbn in Hexec.
  - (* Receive *)
    injection Hexec as <-. cbn. split; assumption.
  - (* ProcessorGet *)
    destruct st; [discriminate|]. destruct p as [k|]; [discriminate|].
    destruct (Queues.get q) as [[r q']|]; [|discriminate].
    injection Hexec as <-. cbn. split; [|assumption].
    rewrite length_app. cbn [length]. rewrite Nat.add_1_r.
    cbn [option_list] in Hord. rewrite app_nil_r in Hord.
    rewrite !app_assoc. apply ordered_below_snoc.
    rewrite <- !app_assoc. exact Hord.
  - (* ProcessorSpawn *)
    destruct p as [k|]; [|discriminate].
    destruct (_ <=? _); [discriminate|].
    injection Hexec as <-. cbn. cbn [option_list] in Hord. split.
    + rewrite app_nil_r. exact Hord.
    + intros n p Hin. rewrite lookup_insert_ne; [now apply Hsent|].
      intros ->. rewrite !app_assoc in Hord.
      apply ordered_below_not_before in Hord. apply Hord.
      apply elem_of_app. left. apply elem_of_app. left.
      apply list_elem_of_fmap. exists (n, p). split; [reflexivity|exact Hin].
  - (* ProcessorFault *)
    destruct p as [k|]; [|discriminate].
    injection Hexec as <-. cbn. cbn [option_list] in Hord. split; [|assumption].
    rewrite !app_assoc in Hord. apply ordered_below_remove in Hord.
    rewrite <- !app_assoc in Hord. exact Hord.
  - (* TaskDone *)
    destruct (t !! n) as [[| |]|] eqn:Et; try discriminate.
    injection Hexec as <-. cbn. split; [assumption|].
    intros m p' Hin. specialize (Hsent m p' Hin).
    rewrite lookup_insert_ne; [exact Hsent|]. intros ->. congruence.
  - (* TaskFailed *)
    destruct (t !! n) as [[| |]|] eqn:Et; try discriminate.
    injection Hexec as <-. cbn. split; [assumption|].
    intros m p' Hin. specialize (Hsent m p' Hin).
    rewrite lookup_insert_ne; [exact Hsent|]. intros ->. congruence.
  - (* SenderGet *)
    destruct (st || negb sa); [discriminate|].
    destruct aw as [k|]; [discriminate|]. destruct sq as [|n rest]; [discriminate|].
    injection Hexec as <-. cbn. split; [|assumption]. exact Hord.
  - (* SenderResult *)
    destruct aw as [n|]; [|discriminate]. cbn [option_list] in Hord.
    assert (Hskip : Stream.ordered_below (length d)
                      (map fst s ++ [] ++ sq ++ option_list p)).
    { apply (ordered_below_remove _ _ n). exact Hord. }
    destruct (t !! n) as [[|[[|b bs]|]|]|] eqn:Et; try discriminate.
    + injection Hexec as <-. cbn. split; assumption.
    + destruct ok; injection Hexec as <-; cbn.
      * split.
        -- rewrite map_app. cbn [map fst]. rewrite <- app_assoc. exact Hord.
        -- intros m p' Hin. apply elem_of_app in Hin as [Hin|Hin];
             [now apply Hsent|].
           apply list_elem_of_singleton in Hin. injection Hin as -> ->. exact Et.
      * split; assumption.
    + injection Hexec as <-. cbn. split; assumption.
    + injection Hexec as <-. cbn. split; assumption.
  - (* StopSet *)
    injection Hexec as <-. cbn. split; assumption.
Qed.

Lemma run_invariant events : forall c c',
  Stream.delivery_invariant c -> Stream.run events c = Some c' ->
  Stream.delivery_invariant c'.
Proof.
  induction events as [|e rest IH]; intros c c' Hinv Hrun; cbn in Hrun.
  - injection Hrun as <-. exact Hinv.
  - destruct (Stream.exec e c) as [c1|] eqn:E; [|discriminate].
    exact (IH c1 c' (exec_invariant e c c1 Hinv E) Hrun).
Qed.


Lemma StronglySorted_lookup_lt (l : list nat) :
  StronglySorted lt l ->
  forall (i j : nat) x y,
    (i < j)%nat -> l !! i = Some x -> l !! j = Some y -> (x < y)%nat.
Proof.
  induction 1 as [|a l Hs IH Hall]; intros i j x y Hij Hi Hj.
  - discriminate.
  - destruct j as [|j]; [lia|]. cbn in Hj. destruct i as [|i]; cbn in Hi.
    + injection Hi as <-. rewrite Forall_forall in Hall. apply Hall.
      eapply list_elem_of_lookup_2. exact Hj.
    + apply (IH i j x y); [lia|assumption..].
Qed.


End DeliveryFacts.

(** [C1] Whatever the schedule (the order in which messages arrive, the
    processor and the sender run, and the pipeline tasks finish or fail),
    the payloads written to the channel are in the order in which the
    processor dequeued their requests: the numbers of the originating
    requests increase along the writes, each write carries the payload that
    the task of its request returned, and each such request was dequeued. *)
Theorem sender_writes_in_dequeue_order :
  forall (events : list Stream.event) (c : Stream.connection),
    Stream.run events Stream.connect = Some c ->
    (forall (i j n m : nat) (p q : list Z),
        (i < j)%nat ->
        Stream.sent c !! i = Some (n, p) -> Stream.sent c !! j = Some (m, q) ->
        (n < m)%nat) /\
    (forall (n : nat) (p : list Z),
        (n, p) ∈ Stream.sent c ->
        is_Some (Stream.dequeued c !! n) /\
        Stream.tasks c !! n = Some (Stream.Done (Some p))).
Proof.
  intros events c Hrun.
  destruct (run_invariant events Stream.connect c connect_invariant Hrun)
    as [[Hsorted Hbound] Hsent].
  unfold Stream.in_flight in Hsorted, Hbound.
  apply StronglySorted_app in Hsorted as (_ & Hsorted & _).
  apply Forall_app in Hbound as [Hbound _].
  split.
  - intros i j n m p q Hij Hi Hj.
    apply (StronglySorted_lookup_lt _ Hsorted i j n m Hij).
    + rewrite list_lookup_fmap, Hi. reflexivity.
    + rewrite list_lookup_fmap, Hj. reflexivity.
  - intros n p Hin. split; [|exact (Hsent n p Hin)].
    apply lookup_lt_is_Some. rewrite Forall_forall in Hbound. apply Hbound.
    apply list_elem_of_fmap. exists (n, p). split; [reflexivity|exact Hin].
Qed.

Lemma sender_writes_in_dequeue_order_witness :
  let r0 := Stream.mkRequest 900 None in
  let r1 := Stream.mkRequest 100 None in
  let events :=
    [Stream.Receive r0; Stream.Receive r1;
     Stream.ProcessorGet; Stream.ProcessorSpawn;
     Stream.ProcessorGet; Stream.ProcessorSpawn;
     Stream.TaskDone 1 (Some [2]); Stream.SenderGet;
     Stream.TaskDone 0 (Some [1]); Stream.SenderResult true;
     Stream.SenderGet; Stream.SenderResult true] in
  exists c,
    Stream.run events Stream.connect = Some c /\
    Stream.sent c = [(0%nat, [1]); (1%nat, [2])] /\
    Stream.dequeued c = [r0; r1] /\
    (forall (i j n m : nat) (p q : list Z),
        (i < j)%nat ->
        Stream.sent c !! i = Some (n, p) -> Stream.sent c !! j = Some (m, q) ->
        (n < m)%nat).
Proof.
  intros r0 r1 events.
  destruct (Stream.run events Stream.connect) as [c|] eqn:E;
    [|vm_compute in E; discriminate E].
  exists c. split; [reflexivity|].
  split; [vm_compute in E; injection E as <-; reflexivity|].
  split; [vm_compute in E; injection E as <-; reflexivity|].
  exact (proj1 (sender_writes_in_dequeue_order events c E)).
Defined.

(* ===================================================================== *)
(** * Further properties of the modelled code *)
(* ===================================================================== *)

(** ** The dropping queue, continued *)

Section DroppingQueueMore.
Context {T : Type}.
Implicit Types (q : Queues.DroppingQueue T) (l : list T).

Lemma put_all_maxsize l q :
  Queues.maxsize (Queues.put_all l q) = Queues.maxsize q.
Proof.
  revert q. induction l as [|x l IH]; intros q; [reflexivity|].
  cbn. unfold Queues.put_all in IH. rewrite IH. apply put_nowait_maxsize.
Qed.

Lemma get_n_all l (K d : Z) :
  Queues.get_n (length l) (Queues.mkDroppingQueue K l d)
  = (l, Queues.mkDroppingQueue K [] d).
Proof.
  induction l as [|x l IH]; [reflexivity|].
  cbn [length Queues.get_n Queues.get Queues._queue Queues.maxsize
       Queues._dropped_count].
  rewrite IH. reflexivity.
Qed.

End DroppingQueueMore.

(** [X1] A bounded dropping queue ([maxsize > 0]) that holds at most
    [maxsize] items still does after [put_nowait], the new item is its
    newest element, and no item goes unaccounted: the size plus the dropped
    counter grows by exactly one. *)
Theorem put_nowait_bounded_and_accounted :
  forall (T : Type) (q : Queues.DroppingQueue T) (item : T),
    0 < Queues.maxsize q ->
    Queues.qsize q <= Queues.maxsize q ->
    let q' := Queues.put_nowait item q in
    Queues.qsize q' <= Queues.maxsize q' /\
    Queues.qsize q' + Queues.dropped_count q'
      = Queues.qsize q + Queues.dropped_count q + 1 /\
    Queues.dropped_count q <= Queues.dropped_count q' /\
    last (Queues._queue q') = Some item.
Proof.
  intros T [K l d] item HK Hsize q'. subst q'.
  unfold Queues.qsize, Queues.dropped_count, Queues.put_nowait in *. cbn in *.
  destruct (Z.ltb_spec 0 K); [|lia]. cbn [andb].
  destruct (Z.leb_spec K (Z.of_nat (length l))); cbn;
    rewrite length_app, ?length_drop, last_snoc; cbn [length];
    repeat split; lia.
Qed.

Lemma put_nowait_bounded_and_accounted_witness :
  Queues.qsize (Queues.put_nowait 3 (Queues.mkDroppingQueue 2 [1; 2] 0)) <= 2 /\
  Queues.qsize (Queues.put_nowait 3 (Queues.mkDroppingQueue 2 [1; 2] 0))
  + Queues.dropped_count (Queues.put_nowait 3 (Queues.mkDroppingQueue 2 [1; 2] 0))
  = 2 + 0 + 1 /\
  0 <= Queues.dropped_count (Queues.put_nowait 3 (Queues.mkDroppingQueue 2 [1; 2] 0)) /\
  last (Queues._queue (Queues.put_nowait 3 (Queues.mkDroppingQueue 2 [1; 2] 0)))
  = Some 3.
Proof.
  apply (put_nowait_bounded_and_accounted Z (Queues.mkDroppingQueue 2 [1; 2] 0) 3);
    vm_compute; congruence.
Defined.

(** [X2] With [maxsize <= 0] the queue is unbounded: every item put is
    kept, in insertion order behind what was there, and the dropped counter
    does not move. *)
Theorem put_all_unbounded_keeps_everything :
  forall (T : Type) (q : Queues.DroppingQueue T) (items : list T),
    Queues.maxsize q <= 0 ->
    Queues._queue (Queues.put_all items q) = Queues._queue q ++ items /\
    Queues.dropped_count (Queues.put_all items q) = Queues.dropped_count q.
Proof.
  intros T q items Hmax. revert q Hmax.
  induction items as [|x items IH]; intros q Hmax.
  - cbn. now rewrite app_nil_r.
  - change (Queues.put_all (x :: items) q)
      with (Queues.put_all items (Queues.put_nowait x q)).
    destruct (IH (Queues.put_nowait x q)) as [Hq Hd];
      [now rewrite put_nowait_maxsize|].
    rewrite Hq, Hd. unfold Queues.put_nowait, Queues.dropped_count.
    destruct (Z.ltb_spec 0 (Queues.maxsize q)); [lia|]. cbn.
    now rewrite <- app_assoc.
Qed.

Lemma put_all_unbounded_keeps_everything_witness :
  Queues._queue (Queues.put_all [1; 2; 3] (Queues.init 0)) = [1; 2; 3] /\
  Queues.dropped_count (Queues.put_all [1; 2; 3] (Queues.init 0)) = 0.
Proof.
  apply (put_all_unbounded_keeps_everything Z (Queues.init 0) [1; 2; 3]).
  cbn. lia.
Defined.

(** [X3] First in, first out: after a producer has put [items] into a new
    queue of capacity [K > 0], a consumer that calls [get] as often as
    there are items receives exactly the last [min(n, K)] items, oldest
    first, and leaves an empty queue on which the next [get] waits; [get]
    does not touch the dropped counter. *)
Theorem get_returns_kept_items_in_order :
  forall (T : Type) (K : Z) (items : list T),
    0 < K ->
    let q := Queues.put_all items (Queues.init K) in
    let '(received, q') := Queues.get_n (length items) q in
    received = drop (length items - Z.to_nat K) items /\
    Queues.get q' = None /\
    Queues.dropped_count q' = Queues.dropped_count q.
Proof.
  intros T K items HK q.
  destruct (put_all_init_state K items HK) as (Hm & Hq & Hd). fold q in Hm, Hq, Hd.
  destruct q as [m l d]. cbn in Hm, Hq, Hd. subst m.
  assert (Hlen : (length l <= length items)%nat).
  { rewrite Hq, length_drop. lia. }
  assert (Hn : forall n, (length l <= n)%nat ->
             Queues.get_n n (Queues.mkDroppingQueue K l d)
             = (l, Queues.mkDroppingQueue K [] d)).
  { clear. intros n. revert l. induction n as [|n IH]; intros l Hl.
    - destruct l; [reflexivity|cbn in Hl; lia].
    - destruct l as [|x l]; [reflexivity|].
      cbn [Queues.get_n Queues.get Queues._queue Queues.maxsize
           Queues._dropped_count].
      rewrite IH by (cbn in Hl; lia). reflexivity. }
  rewrite (Hn _ Hlen). split; [exact Hq|]. split; reflexivity.
Qed.

Lemma get_returns_kept_items_in_order_witness :
  Queues.get_n 5 (Queues.put_all [1; 2; 3; 4; 5] (Queues.init 2))
  = ([4; 5], Queues.mkDroppingQueue 2 [] 3).
Proof.
  pose proof (get_returns_kept_items_in_order Z 2 [1; 2; 3; 4; 5] eq_refl) as H.
  cbv zeta in H. cbn [length] in H.
  destruct (Queues.get_n 5 (Queues.put_all [1; 2; 3; 4; 5] (Queues.init 2)))
    as [received q'] eqn:E.
  vm_compute in E. exact (eq_sym E).
Defined.

(** ** The depth cache, continued *)

Section CacheMore.
Variable settings : Config.Settings.
Implicit Types (s : Session.VideoSession) (buf : list Session.DepthFrame).

Lemma deque_append_snoc {A : Type} (maxlen : Z) (x : A) (d : list A) :
  1 <= maxlen ->
  exists d0, Session.deque_append maxlen x d = d0 ++ [x].
Proof.
  intros H1. unfold Session.deque_append.
  destruct (Z.ltb_spec maxlen (Z.of_nat (length (d ++ [x])))) as [Hfull|Hroom].
  - destruct d as [|y d].
    + cbn in Hfull. lia.
    + exists d. reflexivity.
  - exists d. reflexivity.
Qed.

Lemma foldl_deque_append {A : Type} (maxlen : Z) (xs d : list A) :
  0 <= maxlen ->
  Z.of_nat (length d) <= maxlen ->
  foldl (fun d x => Session.deque_append maxlen x d) d xs
  = drop (length (d ++ xs) - Z.to_nat maxlen) (d ++ xs).
Proof.
  intros H0. revert d. induction xs as [|x xs IH]; intros d Hd.
  - cbn [foldl]. rewrite app_nil_r.
    replace (length d - Z.to_nat maxlen)%nat with 0%nat by lia. reflexivity.
  - cbn [foldl]. rewrite IH by (apply deque_append_length; assumption).
    unfold Session.deque_append.
    destruct (Z.ltb_spec maxlen (Z.of_nat (length (d ++ [x])))) as [Hfull|Hroom].
    + rewrite length_app in Hfull. cbn [length] in Hfull.
      assert (Hlen : length d = Z.to_nat maxlen) by lia.
      replace (d ++ x :: xs) with ((d ++ [x]) ++ xs) by now rewrite <- app_assoc.
      destruct (d ++ [x]) as [|y l] eqn:E.
      { destruct d; discriminate. }
      assert (Hl : length l = Z.to_nat maxlen).
      { apply (f_equal length) in E. rewrite length_app in E. cbn in E. lia. }
      cbn [drop]. rewrite drop_0.
      replace (length (l ++ xs) - Z.to_nat maxlen)%nat with (length xs)
        by (rewrite length_app; lia).
      replace (length ((y :: l) ++ xs) - Z.to_nat maxlen)%nat with (S (length xs))
        by (cbn [app length]; rewrite length_app; lia).
      reflexivity.
    + rewrite <- app_assoc. reflexivity.
Qed.

Lemma scan_cache_last buf f time_ms tolerance_ms :
  Qle_bool (Qabs (Session.timestamp_ms f - time_ms)) tolerance_ms = true ->
  Session.scan_cache (buf ++ [f]) time_ms tolerance_ms (length (buf ++ [f]))
  = Some (length buf, f).
Proof.
  intros Hhit. rewrite length_app. cbn [length].
  replace (length buf + 1)%nat with (S (length buf)) by lia.
  cbn [Session.scan_cache].
  rewrite lookup_app_r by lia. rewrite Nat.sub_diag. cbn [lookup list_lookup].
  rewrite Hhit. reflexivity.
Qed.

Lemma Qabs_self_le (x tol : Q) :
  (0 <= tol)%Q -> Qle_bool (Qabs (x - x)) tol = true.
Proof.
  intros Htol. apply Qle_bool_iff.
  assert (E : (x - x == 0)%Q) by ring. rewrite E. exact Htol.
Qed.

End CacheMore.

(** [X4] Round trip through the depth cache, for a capacity of at least one
    frame and a tolerance that is not negative: right after
    [store_depth_frame f], asking for [f]'s own timestamp returns [f] (it
    is the newest entry, so it wins over any older frame in tolerance).
    Without [drop_on_hit] the session is left as it is; with [drop_on_hit]
    the hit empties the whole buffer, so the same request asked again is a
    miss. *)
Theorem store_then_get_returns_frame :
  forall (settings : Config.Settings) (s : Session.VideoSession)
         (f : Session.DepthFrame) (tolerance_ms : Q),
    1 <= Config.video_cache_size settings ->
    (0 <= tolerance_ms)%Q ->
    let s1 := Session.store_depth_frame settings f s in
    let t := Session.timestamp_ms f in
    Session.get_cached_depth t tolerance_ms false s1 = (Some f, s1) /\
    (exists s2,
        Session.get_cached_depth t tolerance_ms true s1 = (Some f, s2) /\
        Session.depth_buffer s2 = [] /\
        Session.get_cached_depth t tolerance_ms true s2 = (None, s2)).
Proof.
  intros settings s f tol HC Htol s1 t.
  destruct (deque_append_snoc (Config.video_cache_size settings) f
              (Session.depth_buffer s) HC) as [d0 Hd0].
  assert (Hbuf : Session.depth_buffer s1 = d0 ++ [f]) by exact Hd0.
  pose proof (scan_cache_last d0 f t tol (Qabs_self_le _ tol Htol)) as Hscan.
  split.
  - unfold Session.get_cached_depth. rewrite Hbuf, Hscan. rewrite <- Hbuf.
    reflexivity.
  - eexists. split; [|split].
    + unfold Session.get_cached_depth. rewrite Hbuf, Hscan. reflexivity.
    + cbn [Session.depth_buffer]. rewrite popleft_iter.
      apply drop_ge. rewrite length_app. cbn. lia.
    + unfold Session.get_cached_depth at 1. cbn [Session.depth_buffer].
      rewrite popleft_iter, drop_ge by (rewrite length_app; cbn; lia).
      reflexivity.
Qed.

Lemma store_then_get_returns_frame_witness :
  exists s2,
    Session.get_cached_depth 40 33 true
      (Session.store_depth_frame Config.default
         (Session.mkDepthFrame 40 0%nat 1 2) Session.new_session)
    = (Some (Session.mkDepthFrame 40 0%nat 1 2), s2) /\
    Session.depth_buffer s2 = [] /\
    Session.get_cached_depth 40 33 true s2 = (None, s2).
Proof.
  refine (proj2 (store_then_get_returns_frame Config.default Session.new_session
                   (Session.mkDepthFrame 40 0%nat 1 2) 33 _ _)).
  - vm_compute. congruence.
  - vm_compute. congruence.
Defined.

(** [X5] Eviction order of the depth cache: after [store_depth_frame] has
    been called for the frames [fs], in this order, on a new session of
    capacity [C >= 0], the buffer holds exactly the last [min(n, C)] of
    them, oldest first (with [C = 0] nothing is ever kept), while
    [last_depth_time_ms] is the timestamp of the last frame stored, kept or
    not. *)
Theorem stores_keep_newest_frames :
  forall (settings : Config.Settings) (fs : list Session.DepthFrame),
    0 <= Config.video_cache_size settings ->
    let s := foldl (fun s f => Session.store_depth_frame settings f s)
               Session.new_session fs in
    Session.depth_buffer s
    = drop (length fs - Z.to_nat (Config.video_cache_size settings)) fs /\
    Session.last_depth_time_ms s = Session.timestamp_ms <$> last fs.
Proof.
  intros settings fs HC s. subst s.
  assert (Hgen : forall s0,
             Session.depth_buffer
               (foldl (fun s f => Session.store_depth_frame settings f s) s0 fs)
             = foldl (fun d x =>
                        Session.deque_append (Config.video_cache_size settings) x d)
                 (Session.depth_buffer s0) fs /\
             Session.last_depth_time_ms
               (foldl (fun s f => Session.store_depth_frame settings f s) s0 fs)
             = match last fs with
               | Some f => Some (Session.timestamp_ms f)
               | None => Session.last_depth_time_ms s0
               end).
  { induction fs as [|f fs IH]; intros s0; [split; reflexivity|].
    cbn [foldl]. destruct (IH (Session.store_depth_frame settings f s0)) as [Hb Ht].
    rewrite Hb, Ht. split; [reflexivity|].
    rewrite last_cons. destruct (last fs); reflexivity. }
  destruct (Hgen Session.new_session) as [Hb Ht]. rewrite Hb, Ht.
  split.
  - rewrite foldl_deque_append by (cbn; lia). reflexivity.
  - destruct (last fs); reflexivity.
Qed.

Lemma stores_keep_newest_frames_witness :
  Session.depth_buffer
    (foldl (fun s f => Session.store_depth_frame (Config.mkSettings 2 640 [86; 68; 90; 49] 0) f s)
       Session.new_session
       [Session.mkDepthFrame 0 0%nat 1 2; Session.mkDepthFrame 33 1%nat 1 2;
        Session.mkDepthFrame 66 2%nat 1 2])
  = [Session.mkDepthFrame 33 1%nat 1 2; Session.mkDepthFrame 66 2%nat 1 2] /\
  Session.last_depth_time_ms
    (foldl (fun s f => Session.store_depth_frame (Config.mkSettings 2 640 [86; 68; 90; 49] 0) f s)
       Session.new_session
       [Session.mkDepthFrame 0 0%nat 1 2; Session.mkDepthFrame 33 1%nat 1 2;
        Session.mkDepthFrame 66 2%nat 1 2])
  = Some 66%Q.
Proof.
  apply (stores_keep_newest_frames (Config.mkSettings 2 640 [86; 68; 90; 49] 0)
           [Session.mkDepthFrame 0 0%nat 1 2; Session.mkDepthFrame 33 1%nat 1 2;
            Session.mkDepthFrame 66 2%nat 1 2]).
  vm_compute. congruence.
Defined.

(** ** Telemetry, continued *)

Section TelemetryMore.
Local Open Scope string_scope.
Local Open Scope Z_scope.
Variable settings : Config.Settings.
Implicit Types (s : Session.VideoSession) (metrics : Session.metrics_dict).

Lemma Qlt_bool_true (a b : Q) : Py.Qlt_bool a b = true <-> (a < b)%Q.
Proof.
  unfold Py.Qlt_bool. rewrite negb_true_iff. split.
  - intros E. apply Qnot_le_lt. intros Hle. apply Qle_bool_iff in Hle. congruence.
  - intros Hlt. destruct (Qle_bool b a) eqn:E; [|reflexivity].
    apply Qle_bool_iff in E. exfalso. exact (Qlt_not_le _ _ Hlt E).
Qed.

Lemma Qlt_bool_false (a b : Q) : Py.Qlt_bool a b = false <-> (b <= a)%Q.
Proof.
  unfold Py.Qlt_bool. rewrite negb_false_iff. apply Qle_bool_iff.
Qed.

Lemma telemetry_update_present metrics (t : gmap string Q) key val :
  NoDup (map fst metrics) ->
  Session.dict_get key metrics = Some val ->
  foldl (fun t kv => <[kv.1 := kv.2]> t) t metrics !! key = Some val.
Proof.
  revert t. induction metrics as [|[k0 v0] rest IH]; intros t Hnd Hget;
    cbn [Session.dict_get foldl map fst] in *; [discriminate|].
  apply NoDup_cons in Hnd as [Hnotin Hnd].
  destruct (String.eqb_spec key k0) as [<-|Hne].
  - injection Hget as <-. rewrite telemetry_update_other by exact Hnotin.
    cbn. apply lookup_insert_eq.
  - apply IH; assumption.
Qed.

Lemma adjust_quality_telemetry_other s k :
  k <> "quality_process_res" ->
  Session.telemetry (Session.adjust_quality settings s).1 !! k
  = Session.telemetry s !! k.
Proof.
  intros Hk. unfold Session.adjust_quality.
  destruct (0 <? Session._quality_cooldown s); [reflexivity|].
  destruct (Session.telemetry s !! "quality_process_res"); cbn zeta;
    destruct (_ =? _); cbn [fst Session.telemetry];
    rewrite ?lookup_insert_ne by congruence; reflexivity.
Qed.

(** The rolling statistic behind a metric key after one update. *)
Lemma update_telemetry_stat metrics s key k :
  NoDup (map fst metrics) ->
  Session.stat_target key = Some k ->
  k <> "depth_fps" ->
  Session.stat (Session.rolling_stats (Session.update_telemetry settings metrics s).1) k
  = match Session.dict_get key metrics with
    | Some val =>
        if String.eqb key "dropped" then (Session.stat (Session.rolling_stats s) k + val)%Q
        else Session.ema (Session.stat (Session.rolling_stats s) k) val
    | None => Session.stat (Session.rolling_stats s) k
    end.
Proof.
  intros Hnd Ht Hk. unfold Session.update_telemetry.
  rewrite adjust_quality_rolling_stats. cbn [Session.rolling_stats].
  rewrite fps_from_total_other by exact Hk.
  destruct (Session.dict_get key metrics) as [val|] eqn:Hget.
  - exact (foldl_telemetry_item_target metrics _ key val k Hnd Hget Ht).
  - apply (foldl_telemetry_item_absent metrics _ key k Hget).
    intros key' Ht'. symmetry. exact (stat_target_inj key key' k Ht Ht').
Qed.

Lemma ema_between (a b current val : Q) :
  ((current == 0) \/ (a <= current /\ current <= b))%Q ->
  (a <= val /\ val <= b)%Q ->
  (a <= Session.ema current val /\ Session.ema current val <= b)%Q.
Proof.
  intros Hc Hv. unfold Session.ema, Session.alpha.
  destruct (Qeq_bool current 0) eqn:E; [exact Hv|].
  destruct Hc as [H0|Hc].
  - apply Qeq_bool_iff in H0. congruence.
  - split; lra.
Qed.

End TelemetryMore.

(** [X6] The smoothed statistics never leave the range of their samples:
    when every update of a run carries a sample for [key] ([infer_s],
    [queue_wait_s], [ws_send_s], [decode_s] or [latency_ms]) that lies in
    [[a, b]], and the statistic was unset (0) or already in [[a, b]], then
    after the run (of at least one update) the statistic lies in
    [[a, b]]. *)
Theorem rolling_stat_stays_in_sample_range :
  forall (settings : Config.Settings) (key avg_key : string) (a b : Q)
         (updates : list Session.metrics_dict) (s : Session.VideoSession),
    (key, avg_key) ∈ [("infer_s", "infer_avg_s"); ("queue_wait_s", "queue_avg_s");
                      ("ws_send_s", "ws_send_avg_s"); ("decode_s", "decode_avg_s");
                      ("latency_ms", "latency_ms")]%string ->
    Forall (fun m => NoDup (map fst m) /\
                     exists v, Session.dict_get key m = Some v /\
                               (a <= v /\ v <= b)%Q) updates ->
    updates <> [] ->
    ((Session.stat (Session.rolling_stats s) avg_key == 0) \/
     (a <= Session.stat (Session.rolling_stats s) avg_key /\
      Session.stat (Session.rolling_stats s) avg_key <= b))%Q ->
    let s' := (Session.run_updates settings updates s).1 in
    (a <= Session.stat (Session.rolling_stats s') avg_key /\
     Session.stat (Session.rolling_stats s') avg_key <= b)%Q.
Proof.
  intros settings key avg_key a b updates s Hin Hall Hne Hs.
  assert (Hkey : Session.stat_target key = Some avg_key /\ avg_key <> "depth_fps"%string
                 /\ String.eqb key "dropped" = false).
  { repeat (apply elem_of_cons in Hin as [Hin|Hin];
            [injection Hin as -> ->; split; [reflexivity|split; [discriminate|reflexivity]]|]).
    apply elem_of_nil in Hin. contradiction. }
  destruct Hkey as (Ht & Hfps & Hdrop). clear Hin.
  assert (Hstep : forall m s0,
             NoDup (map fst m) ->
             (exists v, Session.dict_get key m = Some v /\ (a <= v /\ v <= b)%Q) ->
             ((Session.stat (Session.rolling_stats s0) avg_key == 0) \/
              (a <= Session.stat (Session.rolling_stats s0) avg_key /\
               Session.stat (Session.rolling_stats s0) avg_key <= b))%Q ->
             (a <= Session.stat (Session.rolling_stats
                                   (Session.update_telemetry settings m s0).1) avg_key /\
              Session.stat (Session.rolling_stats
                              (Session.update_telemetry settings m s0).1) avg_key <= b)%Q).
  { intros m s0 Hnd (v & Hget & Hv) Hs0.
    rewrite (update_telemetry_stat settings m s0 key avg_key Hnd Ht Hfps), Hget, Hdrop.
    apply ema_between; assumption. }
  revert s Hs. induction Hall as [|m rest [Hnd Hv] Hrest IH]; intros s Hs;
    [contradiction|].
  rewrite run_updates_cons. cbn [fst].
  pose proof (Hstep m s Hnd Hv Hs) as H1.
  destruct rest as [|m2 rest2].
  - cbn [Session.run_updates fst]. exact H1.
  - apply IH; [discriminate|]. right. exact H1.
Qed.

Lemma rolling_stat_stays_in_sample_range_witness :
  ((1 # 20) <= Session.stat
                 (Session.rolling_stats
                    (Session.run_updates Config.default
                       [[("infer_s", 1 # 10)]; [("infer_s", 1 # 20)]]%string
                       Session.new_session).1) "infer_avg_s" /\
   Session.stat
     (Session.rolling_stats
        (Session.run_updates Config.default
           [[("infer_s", 1 # 10)]; [("infer_s", 1 # 20)]]%string
           Session.new_session).1) "infer_avg_s" <= (1 # 10))%Q.
Proof.
  apply (rolling_stat_stays_in_sample_range Config.default
           "infer_s" "infer_avg_s" (1 # 20) (1 # 10)
           [[("infer_s", 1 # 10)]; [("infer_s", 1 # 20)]]%string
           Session.new_session).
  - apply list_elem_of_here.
  - repeat constructor;
      try (apply not_elem_of_nil);
      (eexists; split; [reflexivity|split; vm_compute; congruence]).
  - discriminate.
  - left. vm_compute. reflexivity.
Defined.

(** [X7] [telemetry] mirrors the last update: after [update_telemetry],
    every key of the metrics dict other than [quality_process_res] maps to
    the value just sent, and every other key except [quality_process_res]
    (which the controller owns) keeps its entry. *)
Theorem update_telemetry_records_metrics :
  forall (settings : Config.Settings) (metrics : Session.metrics_dict)
         (s : Session.VideoSession),
    NoDup (map fst metrics) ->
    let s' := (Session.update_telemetry settings metrics s).1 in
    (forall key val,
        key <> "quality_process_res"%string ->
        Session.dict_get key metrics = Some val ->
        Session.telemetry s' !! key = Some val) /\
    (forall key,
        key <> "quality_process_res"%string ->
        Session.dict_get key metrics = None ->
        Session.telemetry s' !! key = Session.telemetry s !! key).
Proof.
  intros settings metrics s Hnd s'. subst s'. unfold Session.update_telemetry.
  split.
  - intros key val Hk Hget.
    rewrite adjust_quality_telemetry_other by exact Hk. cbn [Session.telemetry].
    apply telemetry_update_present; assumption.
  - intros key Hk Hget.
    rewrite adjust_quality_telemetry_other by exact Hk. cbn [Session.telemetry].
    apply telemetry_update_other, dict_get_None, Hget.
Qed.

Lemma update_telemetry_records_metrics_witness :
  Session.telemetry
    (Session.update_telemetry Config.default
       [("infer_s", 1 # 10); ("total_s", 1 # 5)]%string Session.new_session).1
  !! "total_s"%string = Some (1 # 5)%Q.
Proof.
  refine (proj1 (update_telemetry_records_metrics Config.default
                   [("infer_s", 1 # 10); ("total_s", 1 # 5)]%string
                   Session.new_session _) "total_s"%string (1 # 5)%Q _ _).
  - apply (bool_decide_unpack _). vm_compute. exact I.
  - discriminate.
  - reflexivity.
Defined.

(** ** The adaptive controller, continued *)

Section ControllerMore.
Local Open Scope string_scope.
Local Open Scope Z_scope.
Variable settings : Config.Settings.
Implicit Types (s : Session.VideoSession).

Lemma StronglySorted_lookup_gt (l : list Z) :
  StronglySorted Z.gt l ->
  forall (i j : nat) x y,
    (i < j)%nat -> l !! i = Some x -> l !! j = Some y -> y < x.
Proof.
  induction 1 as [|a l Hs IH Hall]; intros i j x y Hij Hi Hj.
  - discriminate.
  - destruct j as [|j]; [lia|]. cbn in Hj. destruct i as [|i]; cbn in Hi.
    + injection Hi as <-. rewrite Forall_forall in Hall.
      apply Z.gt_lt, Hall. eapply list_elem_of_lookup_2. exact Hj.
    + apply (IH i j x y); [lia|assumption..].
Qed.

Lemma StronglySorted_gt_filter (P : Z -> Prop) `{!forall x, Decision (P x)}
    (l : list Z) :
  StronglySorted Z.gt l -> StronglySorted Z.gt (filter P l).
Proof.
  induction 1 as [|a l Hs IH Hall]; [constructor|].
  rewrite filter_cons. destruct (decide (P a)); [|exact IH].
  constructor; [exact IH|].
  rewrite Forall_forall in *. intros x Hx.
  apply Hall. apply list_elem_of_filter in Hx. tauto.
Qed.

Lemma all_steps_sorted : StronglySorted Z.gt Session.all_steps.
Proof.
  unfold Session.all_steps.
  repeat (constructor; [|repeat (constructor; [lia|]); constructor]).
  constructor.
Qed.

(** On a configured resolution that is a ladder entry the steps run from
    that resolution down to 320, strictly descending. *)
Lemma quality_steps_shape :
  Config.depth_process_res settings ∈ Session.all_steps ->
  StronglySorted Z.gt (Session.quality_steps settings) /\
  head (Session.quality_steps settings) = Some (Config.depth_process_res settings) /\
  last (Session.quality_steps settings) = Some 320.
Proof.
  intros Hin.
  destruct (quality_steps_on_ladder settings Hin) as [Heq _].
  split; [rewrite Heq; apply StronglySorted_gt_filter, all_steps_sorted|].
  unfold Session.quality_steps, Session.all_steps in *.
  repeat (apply elem_of_cons in Hin as [Hin|Hin];
          [rewrite Hin; split; reflexivity|]).
  apply elem_of_nil in Hin. contradiction.
Qed.

(** The first call once the countdown is over, on a session that has no
    [quality_process_res] yet: the initialising write, then the call as on
    the initialised session. *)
Lemma adjust_quality_init s :
  Session.telemetry s !! "quality_process_res" = None ->
  Session._quality_cooldown s <= 0 ->
  let s1 :=
    Session.mkVideoSession (Session.depth_buffer s) (Session.last_depth_time_ms s)
      (<["quality_process_res" := inject_Z (Config.depth_process_res settings)]>
         (Session.telemetry s))
      (Session.rolling_stats s) (Session._quality_cooldown s) in
  Session.adjust_quality settings s
  = ((Session.adjust_quality settings s1).1,
     Session.InitWrite (Config.depth_process_res settings)
       :: (Session.adjust_quality settings s1).2).
Proof.
  intros Hnone Hcd s1. subst s1. unfold Session.adjust_quality.
  cbn [Session.telemetry Session._quality_cooldown Session.rolling_stats
       Session.depth_buffer Session.last_depth_time_ms].
  destruct (Z.ltb_spec 0 (Session._quality_cooldown s)) as [Hpos|_]; [lia|].
  rewrite Hnone. cbv beta iota zeta. rewrite !lookup_insert_eq.
  cbv beta iota zeta. destruct (_ =? _); reflexivity.
Qed.

(** The call on an initialised session whose resolution [c] is one of the
    steps, once the countdown is over. *)
Lemma adjust_quality_eval s c :
  Session.telemetry s !! "quality_process_res" = Some (inject_Z c) ->
  Session._quality_cooldown s <= 0 ->
  c ∈ Session.quality_steps settings ->
  let steps := Session.quality_steps settings in
  let rs := Session.rolling_stats s in
  let i := Session.index_of c steps in
  let new_idx :=
    if Py.Qlt_bool (1 # 5) (Session.stat rs "infer_avg_s")
       || Py.Qlt_bool (3 # 10) (Session.stat rs "queue_avg_s")
       || Py.Qlt_bool 500 (Session.stat rs "latency_ms")
    then (if (i <? length steps - 1)%nat then (i + 1)%nat else i)
    else if Py.Qlt_bool (Session.stat rs "infer_avg_s") (2 # 25)
            && Py.Qlt_bool (Session.stat rs "queue_avg_s") (1 # 10)
            && Py.Qlt_bool (Session.stat rs "latency_ms") 200
    then (if (0 <? i)%nat then (i - 1)%nat else i)
    else i in
  let new_res := default 0 (steps !! new_idx) in
  Session.adjust_quality settings s
  = if new_res =? c
    then (Session.mkVideoSession (Session.depth_buffer s)
            (Session.last_depth_time_ms s) (Session.telemetry s)
            (Session.rolling_stats s) (Session._quality_cooldown s), [])
    else (Session.mkVideoSession (Session.depth_buffer s)
            (Session.last_depth_time_ms s)
            (<["quality_process_res" := inject_Z new_res]> (Session.telemetry s))
            (Session.rolling_stats s) 60,
          [Session.ChangeWrite c new_res]).
Proof.
  intros Hlook Hcd Hc steps rs i new_idx new_res.
  subst new_res new_idx i rs. unfold Session.adjust_quality.
  destruct (Z.ltb_spec 0 (Session._quality_cooldown s)) as [Hpos|_]; [lia|].
  rewrite Hlook. cbn zeta. rewrite Hlook.
  change (default 0%Q (Some (inject_Z c))) with (inject_Z c).
  rewrite int_of_float_inject_Z.
  fold steps. rewrite (min_by_distance_member c _ steps Hc).
  reflexivity.
Qed.

End ControllerMore.

Section ControllerDirection.
Local Open Scope string_scope.
Local Open Scope Z_scope.
Variable settings : Config.Settings.
Implicit Types (s : Session.VideoSession).

(** The neighbours of an entry of a strictly descending list. *)
Lemma steps_neighbours (steps : list Z) (c : Z) :
  StronglySorted Z.gt steps ->
  c ∈ steps ->
  let i := Session.index_of c steps in
  steps !! i = Some c /\
  ((i < length steps - 1)%nat ->
   exists r, steps !! (i + 1)%nat = Some r /\ r < c /\
             forall x, x ∈ steps -> x < c -> x <= r) /\
  (~ (i < length steps - 1)%nat -> last steps = Some c) /\
  ((0 < i)%nat ->
   exists r, steps !! (i - 1)%nat = Some r /\ c < r /\
             forall x, x ∈ steps -> c < x -> r <= x) /\
  (~ (0 < i)%nat -> head steps = Some c).
Proof.
  intros Hs Hc i. pose proof (index_of_member c steps Hc) as Hi. fold i in Hi.
  pose proof (lookup_lt_Some _ _ _ Hi) as Hlt.
  split; [exact Hi|]. split; [|split; [|split]].
  - intros Hnext.
    destruct (lookup_lt_is_Some_2 steps (i + 1)%nat ltac:(lia)) as [r Hr].
    exists r. split; [exact Hr|].
    split; [exact (StronglySorted_lookup_gt steps Hs i (i + 1) c r ltac:(lia) Hi Hr)|].
    intros x Hx Hxc. apply list_elem_of_lookup_1 in Hx as [j Hj].
    destruct (Nat.lt_trichotomy j (i + 1)) as [Hlow|[->|Hhigh]].
    + destruct (Nat.lt_trichotomy j i) as [Hji|[->|Hij]]; [| |lia].
      * pose proof (StronglySorted_lookup_gt steps Hs j i x c Hji Hj Hi). lia.
      * rewrite Hi in Hj. injection Hj as <-. lia.
    + rewrite Hr in Hj. injection Hj as <-. lia.
    + pose proof (StronglySorted_lookup_gt steps Hs (i + 1) j r x Hhigh Hr Hj). lia.
  - intros Hlast. rewrite last_lookup.
    replace (Nat.pred (length steps)) with i by lia. exact Hi.
  - intros Hprev.
    destruct (lookup_lt_is_Some_2 steps (i - 1)%nat ltac:(lia)) as [r Hr].
    exists r. split; [exact Hr|].
    split; [exact (StronglySorted_lookup_gt steps Hs (i - 1) i r c ltac:(lia) Hr Hi)|].
    intros x Hx Hxc. apply list_elem_of_lookup_1 in Hx as [j Hj].
    destruct (Nat.lt_trichotomy j (i - 1)) as [Hlow|[->|Hhigh]].
    + pose proof (StronglySorted_lookup_gt steps Hs j (i - 1) x r Hlow Hj Hr). lia.
    + rewrite Hr in Hj. injection Hj as <-. lia.
    + destruct (Nat.lt_trichotomy j i) as [Hji|[->|Hij]]; [lia| |].
      * rewrite Hi in Hj. injection Hj as <-. lia.
      * pose proof (StronglySorted_lookup_gt steps Hs i j c x Hij Hi Hj). lia.
  - intros H0. replace i with 0%nat in Hi by lia.
    rewrite head_lookup. exact Hi.
Qed.

Lemma overloaded_flag (rs : gmap string Q) :
  Py.Qlt_bool (1 # 5) (Session.stat rs "infer_avg_s")
  || Py.Qlt_bool (3 # 10) (Session.stat rs "queue_avg_s")
  || Py.Qlt_bool 500 (Session.stat rs "latency_ms") = true
  <-> ((1 # 5) < Session.stat rs "infer_avg_s" \/
       (3 # 10) < Session.stat rs "queue_avg_s" \/
       500 < Session.stat rs "latency_ms")%Q.
Proof.
  rewrite !orb_true_iff, !Qlt_bool_true. tauto.
Qed.

Lemma relaxed_flag (rs : gmap string Q) :
  Py.Qlt_bool (Session.stat rs "infer_avg_s") (2 # 25)
  && Py.Qlt_bool (Session.stat rs "queue_avg_s") (1 # 10)
  && Py.Qlt_bool (Session.stat rs "latency_ms") 200 = true
  <-> (Session.stat rs "infer_avg_s" < (2 # 25) /\
       Session.stat rs "queue_avg_s" < (1 # 10) /\
       Session.stat rs "latency_ms" < 200)%Q.
Proof.
  rewrite !andb_true_iff, !Qlt_bool_true. tauto.
Qed.

(** A change lowers the resolution under overload and raises it when all
    three readings are low; otherwise there is none. *)
Lemma adjust_quality_direction s :
  Config.depth_process_res settings ∈ Session.all_steps ->
  Session.stored_on (Session.quality_steps settings) s ->
  let rs := Session.rolling_stats s in
  let overloaded :=
    ((1 # 5) < Session.stat rs "infer_avg_s" \/
     (3 # 10) < Session.stat rs "queue_avg_s" \/
     500 < Session.stat rs "latency_ms")%Q in
  let relaxed :=
    (Session.stat rs "infer_avg_s" < (2 # 25) /\
     Session.stat rs "queue_avg_s" < (1 # 10) /\
     Session.stat rs "latency_ms" < 200)%Q in
  forall cur new,
    Session.ChangeWrite cur new ∈ (Session.adjust_quality settings s).2 ->
    (overloaded /\ new < cur) \/ (~ overloaded /\ relaxed /\ cur < new).
Proof.
  intros Hmax Hst rs overloaded relaxed cur new Hw.
  destruct (quality_steps_shape settings Hmax) as (Hsorted & _ & _).
  destruct (quality_steps_on_ladder settings Hmax) as [_ Hmax_in].
  destruct (Z.ltb_spec 0 (Session._quality_cooldown s)) as [Hpos|Hcd].
  { exfalso. unfold Session.adjust_quality in Hw.
    destruct (Z.ltb_spec 0 (Session._quality_cooldown s)); [|lia].
    cbn in Hw. apply elem_of_nil in Hw. exact Hw. }
  assert (Hcore : forall s0 c,
             Session.rolling_stats s0 = rs ->
             Session.telemetry s0 !! "quality_process_res" = Some (inject_Z c) ->
             Session._quality_cooldown s0 <= 0 ->
             c ∈ Session.quality_steps settings ->
             Session.ChangeWrite cur new ∈ (Session.adjust_quality settings s0).2 ->
             (overloaded /\ new < cur) \/ (~ overloaded /\ relaxed /\ cur < new)).
  { clear Hw. intros s0 c Hrs Hlook Hcd0 Hc Hw.
    rewrite (adjust_quality_eval settings s0 c Hlook Hcd0 Hc) in Hw.
    cbv zeta in Hw. rewrite Hrs in Hw.
    destruct (steps_neighbours _ c Hsorted Hc) as (Hi & Hnext & _ & Hprev & _).
    set (i := Session.index_of c (Session.quality_steps settings)) in *.
    destruct (Py.Qlt_bool (1 # 5) (Session.stat rs "infer_avg_s")
              || Py.Qlt_bool (3 # 10) (Session.stat rs "queue_avg_s")
              || Py.Qlt_bool 500 (Session.stat rs "latency_ms")) eqn:Eover.
    - apply overloaded_flag in Eover.
      destruct (Nat.ltb_spec i (length (Session.quality_steps settings) - 1))
        as [Hlt|Hge].
      + destruct (Hnext Hlt) as (r & Hr & Hrc & _). rewrite Hr in Hw.
        change (default 0 (Some r)) with r in Hw.
        destruct (Z.eqb_spec r c); [lia|]. cbn [snd] in Hw.
        apply list_elem_of_singleton in Hw. injection Hw as -> ->.
        left. split; [exact Eover | exact Hrc].
      + rewrite Hi in Hw. change (default 0 (Some c)) with c in Hw.
        rewrite Z.eqb_refl in Hw. cbn in Hw. apply elem_of_nil in Hw. contradiction.
    - assert (Hnot : ~ overloaded).
      { intros Ho. apply overloaded_flag in Ho. congruence. }
      destruct (Py.Qlt_bool (Session.stat rs "infer_avg_s") (2 # 25)
                && Py.Qlt_bool (Session.stat rs "queue_avg_s") (1 # 10)
                && Py.Qlt_bool (Session.stat rs "latency_ms") 200) eqn:Egood.
      + apply relaxed_flag in Egood.
        destruct (Nat.ltb_spec 0 i) as [Hlt|Hge].
        * destruct (Hprev Hlt) as (r & Hr & Hrc & _). rewrite Hr in Hw.
          change (default 0 (Some r)) with r in Hw.
          destruct (Z.eqb_spec r c); [lia|]. cbn [snd] in Hw.
          apply list_elem_of_singleton in Hw. injection Hw as -> ->.
          right. split; [exact Hnot|]. split; [exact Egood | exact Hrc].
        * rewrite Hi in Hw. change (default 0 (Some c)) with c in Hw.
          rewrite Z.eqb_refl in Hw. cbn in Hw. apply elem_of_nil in Hw. contradiction.
      + rewrite Hi in Hw. change (default 0 (Some c)) with c in Hw.
        rewrite Z.eqb_refl in Hw. cbn in Hw. apply elem_of_nil in Hw. contradiction. }
  unfold Session.stored_on in Hst.
  destruct (Session.telemetry s !! "quality_process_res") as [q|] eqn:Eq.
  - destruct Hst as (v & -> & Hv).
    exact (Hcore s v eq_refl Eq Hcd Hv Hw).
  - rewrite (adjust_quality_init settings s Eq Hcd) in Hw. cbn [snd] in Hw.
    apply elem_of_cons in Hw as [Hw|Hw]; [discriminate|].
    refine (Hcore _ _ _ _ _ Hmax_in Hw);
      [reflexivity | apply lookup_insert_eq | exact Hcd].
Qed.

End ControllerDirection.

(** [X8] The direction of every change. With the configured resolution on
    the ladder, the stored resolution (when there is one) on the steps, and
    a metrics dict that does not carry the key [quality_process_res], a
    change made by [update_telemetry] lowers the resolution only when, on
    the statistics as updated, inference averages above 0.2 s, or the queue
    wait above 0.3 s, or the latency is above 500 ms; it raises the
    resolution only when none of these holds and all three are below 0.08 s,
    0.1 s and 200 ms. In between the resolution is left as it is. *)
Theorem controller_change_follows_load :
  forall (settings : Config.Settings) (metrics : Session.metrics_dict)
         (s : Session.VideoSession),
    Config.depth_process_res settings ∈ Session.all_steps ->
    "quality_process_res"%string ∉ map fst metrics ->
    Session.stored_on (Session.quality_steps settings) s ->
    let rs := Session.rolling_stats (Session.update_telemetry settings metrics s).1 in
    let overloaded :=
      ((1 # 5) < Session.stat rs "infer_avg_s" \/
       (3 # 10) < Session.stat rs "queue_avg_s" \/
       500 < Session.stat rs "latency_ms")%Q in
    let relaxed :=
      (Session.stat rs "infer_avg_s" < (2 # 25) /\
       Session.stat rs "queue_avg_s" < (1 # 10) /\
       Session.stat rs "latency_ms" < 200)%Q in
    forall cur new,
      Session.ChangeWrite cur new ∈ (Session.update_telemetry settings metrics s).2 ->
      (overloaded /\ new < cur) \/ (~ overloaded /\ relaxed /\ cur < new).
Proof.
  intros settings metrics s Hmax Hkey Hst. unfold Session.update_telemetry.
  rewrite adjust_quality_rolling_stats.
  apply (adjust_quality_direction settings _ Hmax).
  unfold Session.stored_on in *. cbn [Session.telemetry].
  rewrite (telemetry_update_other metrics _ _ Hkey). exact Hst.
Qed.

Lemma controller_change_follows_load_witness :
  Session.ChangeWrite 640 512
    ∈ (Session.update_telemetry Config.default [("infer_s"%string, 1 # 2)]
         Session.new_session).2 /\
  512 < 640.
Proof.
  assert (Hw : Session.ChangeWrite 640 512
                 ∈ (Session.update_telemetry Config.default
                      [("infer_s"%string, 1 # 2)] Session.new_session).2).
  { vm_compute. apply list_elem_of_further, list_elem_of_here. }
  split; [exact Hw|].
  assert (Hmax : Config.depth_process_res Config.default ∈ Session.all_steps).
  { do 2 apply list_elem_of_further. apply list_elem_of_here. }
  assert (Hkey : "quality_process_res"%string
                   ∉ map fst [("infer_s"%string, (1 # 2)%Q)]).
  { apply not_elem_of_cons. split; [discriminate | apply not_elem_of_nil]. }
  destruct (controller_change_follows_load Config.default
              [("infer_s"%string, 1 # 2)] Session.new_session
              Hmax Hkey I 640 512 Hw) as [[_ Hlt]|(_ & _ & Hlt)].
  - exact Hlt.
  - exfalso. lia.
Defined.

(** [X9] Demotion under overload. On an initialised session whose
    resolution [c] is one of the steps (configured resolution on the
    ladder), with the countdown over and any of the three overload
    conditions met, [adjust_quality] moves to the next lower ladder entry:
    the greatest entry below [c]; it records it and starts a countdown of
    60. At 320, the lowest entry, it changes nothing. *)
Theorem overload_lowers_to_next_step :
  forall (settings : Config.Settings) (s : Session.VideoSession) (c : Z),
    Config.depth_process_res settings ∈ Session.all_steps ->
    Session.telemetry s !! "quality_process_res"%string = Some (inject_Z c) ->
    c ∈ Session.quality_steps settings ->
    Session._quality_cooldown s <= 0 ->
    ((1 # 5) < Session.stat (Session.rolling_stats s) "infer_avg_s" \/
     (3 # 10) < Session.stat (Session.rolling_stats s) "queue_avg_s" \/
     500 < Session.stat (Session.rolling_stats s) "latency_ms")%Q ->
    let r := Session.adjust_quality settings s in
    (c = 320 ->
     r.2 = [] /\ Session.telemetry r.1 = Session.telemetry s /\
     Session._quality_cooldown r.1 = Session._quality_cooldown s) /\
    (c <> 320 ->
     exists lower,
       r.2 = [Session.ChangeWrite c lower] /\
       lower < c /\ lower ∈ Session.all_steps /\
       (forall x, x ∈ Session.all_steps -> x < c -> x <= lower) /\
       Session.telemetry r.1 !! "quality_process_res"%string = Some (inject_Z lower) /\
       Session._quality_cooldown r.1 = 60).
Proof.
  intros settings s c Hmax Hlook Hc Hcd Hover r. subst r.
  destruct (quality_steps_shape settings Hmax) as (Hsorted & _ & Hlast).
  destruct (quality_steps_on_ladder settings Hmax) as [Hsteps _].
  rewrite (adjust_quality_eval settings s c Hlook Hcd Hc). cbv zeta.
  apply overloaded_flag in Hover. rewrite Hover.
  destruct (steps_neighbours _ c Hsorted Hc) as (Hi & Hnext & Hend & _ & _).
  set (i := Session.index_of c (Session.quality_steps settings)) in *.
  destruct (Nat.ltb_spec i (length (Session.quality_steps settings) - 1))
    as [Hlt|Hge].
  - destruct (Hnext Hlt) as (lower & Hr & Hrc & Hgreatest). rewrite Hr.
    change (default 0 (Some lower)) with lower.
    destruct (Z.eqb_spec lower c); [lia|]. cbn [fst snd]. split.
    + intros ->. exfalso.
      assert (Hin : lower ∈ Session.quality_steps settings)
        by (eapply list_elem_of_lookup_2; exact Hr).
      rewrite Hsteps in Hin. apply list_elem_of_filter in Hin as [_ Hin].
      unfold Session.all_steps in Hin.
      repeat (apply elem_of_cons in Hin as [Hin|Hin]; [lia|]).
      apply elem_of_nil in Hin. exact Hin.
    + intros _. exists lower. split; [reflexivity|]. split; [exact Hrc|].
      assert (Hin : lower ∈ Session.quality_steps settings)
        by (eapply list_elem_of_lookup_2; exact Hr).
      split; [rewrite Hsteps in Hin; apply list_elem_of_filter in Hin; tauto|].
      split; [|split; [apply lookup_insert_eq | reflexivity]].
      intros x Hx Hxc. apply Hgreatest; [|exact Hxc].
      rewrite Hsteps. apply list_elem_of_filter. split; [|exact Hx].
      rewrite Hsteps in Hc. apply list_elem_of_filter in Hc as [Hc _]. lia.
  - rewrite Hi. change (default 0 (Some c)) with c. rewrite Z.eqb_refl.
    cbn [fst snd]. split.
    + intros _. split; [reflexivity|]. split; reflexivity.
    + intros Hne. exfalso. rewrite (Hend ltac:(lia)) in Hlast. congruence.
Qed.

Lemma overload_lowers_to_next_step_witness :
  exists lower,
    (Session.adjust_quality Config.default
       (Session.update_telemetry Config.default [("infer_s"%string, 1 # 2)]
          (Session.mkVideoSession [] None
             (<["quality_process_res"%string := inject_Z 512]> ∅) ∅ 1)).1).2
    = [Session.ChangeWrite 512 lower] /\ lower = 480.
Proof.
  assert (Hmax : Config.depth_process_res Config.default ∈ Session.all_steps).
  { do 2 apply list_elem_of_further. apply list_elem_of_here. }
  destruct (overload_lowers_to_next_step Config.default
              (Session.update_telemetry Config.default [("infer_s"%string, 1 # 2)]
                 (Session.mkVideoSession [] None
                    (<["quality_process_res"%string := inject_Z 512]> ∅) ∅ 1)).1
              512 Hmax) as [_ H].
  - vm_compute. reflexivity.
  - vm_compute. apply list_elem_of_further, list_elem_of_here.
  - vm_compute. congruence.
  - left. vm_compute. reflexivity.
  - destruct (H ltac:(lia)) as (lower & Hw & Hlt & Hin & Hgreatest & _).
    exists lower. split; [exact Hw|].
    assert (H480 : 480 <= lower).
    { apply Hgreatest; [|lia]. do 4 apply list_elem_of_further.
      apply list_elem_of_here. }
    unfold Session.all_steps in Hin.
    repeat (apply elem_of_cons in Hin as [Hin|Hin]; [lia|]).
    apply elem_of_nil in Hin. contradiction.
Defined.

(** [X10] Promotion when the load is low. Under the same conditions, with
    inference averaging below 0.08 s, the queue wait below 0.1 s and the
    latency below 200 ms, [adjust_quality] moves to the next higher ladder
    entry, the least entry above [c], which never exceeds the configured
    resolution; at the configured resolution it changes nothing. *)
Theorem low_load_raises_to_next_step :
  forall (settings : Config.Settings) (s : Session.VideoSession) (c : Z),
    Config.depth_process_res settings ∈ Session.all_steps ->
    Session.telemetry s !! "quality_process_res"%string = Some (inject_Z c) ->
    c ∈ Session.quality_steps settings ->
    Session._quality_cooldown s <= 0 ->
    (Session.stat (Session.rolling_stats s) "infer_avg_s" < (2 # 25) /\
     Session.stat (Session.rolling_stats s) "queue_avg_s" < (1 # 10) /\
     Session.stat (Session.rolling_stats s) "latency_ms" < 200)%Q ->
    let r := Session.adjust_quality settings s in
    (c = Config.depth_process_res settings ->
     r.2 = [] /\ Session.telemetry r.1 = Session.telemetry s /\
     Session._quality_cooldown r.1 = Session._quality_cooldown s) /\
    (c <> Config.depth_process_res settings ->
     exists higher,
       r.2 = [Session.ChangeWrite c higher] /\
       c < higher <= Config.depth_process_res settings /\
       higher ∈ Session.all_steps /\
       (forall x, x ∈ Session.quality_steps settings -> c < x -> higher <= x) /\
       Session.telemetry r.1 !! "quality_process_res"%string = Some (inject_Z higher) /\
       Session._quality_cooldown r.1 = 60).
Proof.
  intros settings s c Hmax Hlook Hc Hcd Hlow r. subst r.
  destruct (quality_steps_shape settings Hmax) as (Hsorted & Hhead & _).
  destruct (quality_steps_on_ladder settings Hmax) as [Hsteps _].
  rewrite (adjust_quality_eval settings s c Hlook Hcd Hc). cbv zeta.
  assert (Hover : Py.Qlt_bool (1 # 5) (Session.stat (Session.rolling_stats s) "infer_avg_s")
                  || Py.Qlt_bool (3 # 10) (Session.stat (Session.rolling_stats s) "queue_avg_s")
                  || Py.Qlt_bool 500 (Session.stat (Session.rolling_stats s) "latency_ms")
                  = false).
  { destruct (_ || _ || _) eqn:E; [|reflexivity].
    apply overloaded_flag in E. exfalso. lra. }
  rewrite Hover. apply relaxed_flag in Hlow. rewrite Hlow.
  destruct (steps_neighbours _ c Hsorted Hc) as (Hi & _ & _ & Hprev & Hfirst).
  set (i := Session.index_of c (Session.quality_steps settings)) in *.
  destruct (Nat.ltb_spec 0 i) as [Hlt|Hge].
  - destruct (Hprev Hlt) as (higher & Hr & Hrc & Hleast). rewrite Hr.
    change (default 0 (Some higher)) with higher.
    destruct (Z.eqb_spec higher c); [lia|]. cbn [fst snd].
    assert (Hin : higher ∈ Session.quality_steps settings)
      by (eapply list_elem_of_lookup_2; exact Hr).
    pose proof Hin as Hin'. rewrite Hsteps in Hin'.
    apply list_elem_of_filter in Hin' as [Hle Hall].
    split.
    + intros ->. exfalso. lia.
    + intros _. exists higher. split; [reflexivity|]. split; [lia|].
      split; [exact Hall|]. split; [exact Hleast|].
      split; [apply lookup_insert_eq | reflexivity].
  - rewrite Hi. change (default 0 (Some c)) with c. rewrite Z.eqb_refl.
    cbn [fst snd]. split.
    + intros _. split; [reflexivity|]. split; reflexivity.
    + intros Hne. exfalso. rewrite (Hfirst ltac:(lia)) in Hhead. congruence.
Qed.

Lemma low_load_raises_to_next_step_witness :
  exists higher,
    (Session.adjust_quality Config.default
       (Session.mkVideoSession [] None
          (<["quality_process_res"%string := inject_Z 480]> ∅) ∅ 0)).2
    = [Session.ChangeWrite 480 higher] /\ 480 < higher <= 640.
Proof.
  assert (Hmax : Config.depth_process_res Config.default ∈ Session.all_steps).
  { do 2 apply list_elem_of_further. apply list_elem_of_here. }
  destruct (low_load_raises_to_next_step Config.default
              (Session.mkVideoSession [] None
                 (<["quality_process_res"%string := inject_Z 480]> ∅) ∅ 0)
              480 Hmax) as [_ H].
  - vm_compute. reflexivity.
  - vm_compute. do 2 apply list_elem_of_further. apply list_elem_of_here.
  - vm_compute. congruence.
  - vm_compute. split; [reflexivity|]. split; reflexivity.
  - destruct (H ltac:(vm_compute; congruence)) as (higher & Hw & Hlt & _).
    exists higher. split; [exact Hw | exact Hlt].
Defined.

Section ControllerSingleStep.
Local Open Scope string_scope.
Local Open Scope Z_scope.
Variable settings : Config.Settings.
Hypothesis below_ladder : Config.depth_process_res settings < 320.
Implicit Types (s : Session.VideoSession).

Lemma quality_steps_single :
  Session.quality_steps settings = [Config.depth_process_res settings].
Proof.
  unfold Session.quality_steps, Session.all_steps.
  rewrite !filter_cons_False by lia. reflexivity.
Qed.

Lemma adjust_quality_single s :
  Session.stored_on [Config.depth_process_res settings] s ->
  Session.stored_on [Config.depth_process_res settings]
    (Session.adjust_quality settings s).1 /\
  forall w, w ∈ (Session.adjust_quality settings s).2 ->
            w = Session.InitWrite (Config.depth_process_res settings).
Proof.
  intros Hst.
  destruct (Z.ltb_spec 0 (Session._quality_cooldown s)) as [Hpos|Hcd].
  { unfold Session.adjust_quality.
    destruct (Z.ltb_spec 0 (Session._quality_cooldown s)); [|lia].
    cbn [fst snd]. split; [exact Hst|].
    intros w Hw. apply elem_of_nil in Hw. contradiction. }
  assert (Hcore : forall s0,
             Session.telemetry s0 !! "quality_process_res"
             = Some (inject_Z (Config.depth_process_res settings)) ->
             Session._quality_cooldown s0 <= 0 ->
             Session.adjust_quality settings s0
             = (Session.mkVideoSession (Session.depth_buffer s0)
                  (Session.last_depth_time_ms s0) (Session.telemetry s0)
                  (Session.rolling_stats s0) (Session._quality_cooldown s0), [])).
  { intros s0 Hlook Hcd0.
    rewrite (adjust_quality_eval settings s0 _ Hlook Hcd0)
      by (rewrite quality_steps_single; apply list_elem_of_here).
    cbv zeta. rewrite quality_steps_single.
    cbn [Session.index_of length]. rewrite Z.eqb_refl.
    change (0 <? 1 - 1)%nat with false. change (0 <? 0)%nat with false.
    cbv iota.
    destruct (_ || _ || _); [|destruct (_ && _ && _)];
      cbn [lookup list_lookup]; change (default 0 (Some ?x)) with x;
      rewrite Z.eqb_refl; reflexivity. }
  unfold Session.stored_on in Hst.
  destruct (Session.telemetry s !! "quality_process_res") as [q|] eqn:Eq.
  - destruct Hst as (v & -> & Hv). apply list_elem_of_singleton in Hv as ->.
    rewrite (Hcore s Eq Hcd). cbn [fst snd]. split.
    + unfold Session.stored_on. cbn [Session.telemetry]. rewrite Eq.
      eexists. split; [reflexivity | apply list_elem_of_here].
    + intros w Hw. apply elem_of_nil in Hw. contradiction.
  - rewrite (adjust_quality_init settings s Eq Hcd).
    rewrite Hcore by (first [apply lookup_insert_eq | exact Hcd]).
    cbn [fst snd]. split.
    + unfold Session.stored_on. cbn [Session.telemetry]. rewrite lookup_insert_eq.
      eexists. split; [reflexivity | apply list_elem_of_here].
    + intros w Hw. apply list_elem_of_singleton in Hw. exact Hw.
Qed.

End ControllerSingleStep.

(** [X11] A configured resolution below 320 leaves a single step, and then
    the controller never changes the resolution: over any run of telemetry
    updates on a new session (none carrying the key
    [quality_process_res]), the only write is the initialising one, of the
    configured resolution, and that is the value the session holds. *)
Theorem single_step_controller_never_changes :
  forall (settings : Config.Settings) (updates : list Session.metrics_dict),
    Config.depth_process_res settings < 320 ->
    Forall (fun m => "quality_process_res"%string ∉ map fst m) updates ->
    let r := Session.run_updates settings updates Session.new_session in
    Session.quality_steps settings = [Config.depth_process_res settings] /\
    Forall (Forall (fun w => w = Session.InitWrite (Config.depth_process_res settings)))
      r.2 /\
    (Session.telemetry r.1 !! "quality_process_res"%string = None \/
     Session.telemetry r.1 !! "quality_process_res"%string
     = Some (inject_Z (Config.depth_process_res settings))).
Proof.
  intros settings updates Hlow Hkeys r. subst r.
  split; [exact (quality_steps_single settings Hlow)|].
  assert (Hgen : forall s,
             Session.stored_on [Config.depth_process_res settings] s ->
             Forall (Forall (fun w =>
                       w = Session.InitWrite (Config.depth_process_res settings)))
               (Session.run_updates settings updates s).2 /\
             Session.stored_on [Config.depth_process_res settings]
               (Session.run_updates settings updates s).1).
  { induction Hkeys as [|m rest Hm Hrest IH]; intros s Hst.
    - cbn. split; [constructor | exact Hst].
    - rewrite run_updates_cons. cbn [fst snd].
      assert (H1 : Session.stored_on [Config.depth_process_res settings]
                     (Session.update_telemetry settings m s).1 /\
                   forall w, w ∈ (Session.update_telemetry settings m s).2 ->
                             w = Session.InitWrite (Config.depth_process_res settings)).
      { unfold Session.update_telemetry.
        apply (adjust_quality_single settings Hlow).
        unfold Session.stored_on in *. cbn [Session.telemetry].
        rewrite (telemetry_update_other m _ _ Hm). exact Hst. }
      destruct H1 as [Hst1 Hw1]. destruct (IH _ Hst1) as [IHw IHst].
      split; [|exact IHst].
      constructor; [|exact IHw]. apply Forall_forall. exact Hw1. }
  destruct (Hgen Session.new_session I) as [Hw Hst].
  split; [exact Hw|].
  unfold Session.stored_on in Hst.
  destruct (Session.telemetry _ !! "quality_process_res"%string) as [q|];
    [|left; reflexivity].
  destruct Hst as (v & -> & Hv). apply list_elem_of_singleton in Hv as ->.
  right. reflexivity.
Qed.

Lemma single_step_controller_never_changes_witness :
  Forall (Forall (fun w => w = Session.InitWrite 256))
    (Session.run_updates (Config.mkSettings 8 256 [86; 68; 90; 49] 0)
       [[("infer_s"%string, 1 # 2)]; [("infer_s"%string, 1 # 2)]]
       Session.new_session).2.
Proof.
  refine (proj1 (proj2 (single_step_controller_never_changes
                          (Config.mkSettings 8 256 [86; 68; 90; 49] 0)
                          [[("infer_s"%string, 1 # 2)]; [("infer_s"%string, 1 # 2)]]
                          _ _))).
  - vm_compute. reflexivity.
  - repeat constructor;
      (apply not_elem_of_cons; split; [discriminate | apply not_elem_of_nil]).
Defined.

(** ** Quantisation, continued *)

Section QuantizeMore.
Local Open Scope Q_scope.

Lemma rint_mono (x y : Q) : x <= y -> (Packets.rint x <= Packets.rint y)%Z.
Proof.
  intros Hxy. unfold Packets.rint.
  pose proof (Qfloor_resp_le x y Hxy) as Hf.
  pose proof (Qfloor_le x) as Hxl. pose proof (Qlt_floor x) as Hxh.
  pose proof (Qfloor_le y) as Hyl. pose proof (Qlt_floor y) as Hyh.
  rewrite inject_Z_plus in Hxh, Hyh. change (inject_Z 1) with 1 in Hxh, Hyh.
  destruct (Z.eq_dec (Qfloor x) (Qfloor y)) as [E|Hne].
  - rewrite <- E in *.
    destruct (Qcompare_spec (x - inject_Z (Qfloor x)) (1 # 2)),
             (Qcompare_spec (y - inject_Z (Qfloor x)) (1 # 2));
      destruct (Z.even (Qfloor x)); try lia; exfalso; lra.
  - destruct (Qcompare_spec (x - inject_Z (Qfloor x)) (1 # 2)),
             (Qcompare_spec (y - inject_Z (Qfloor y)) (1 # 2));
      destruct (Z.even (Qfloor x)); destruct (Z.even (Qfloor y)); lia.
Qed.

Lemma clip_mono (lo hi x y : Q) :
  x <= y -> Packets.clip lo hi x <= Packets.clip lo hi y.
Proof.
  intros Hxy. unfold Packets.clip.
  destruct (Q.max_spec x lo) as [[? Hx]|[? Hx]],
           (Q.max_spec y lo) as [[? Hy]|[? Hy]],
           (Q.min_spec (Qmax x lo) hi) as [[? Hmx]|[? Hmx]],
           (Q.min_spec (Qmax y lo) hi) as [[? Hmy]|[? Hmy]];
    lra.
Qed.

Lemma clip_low (lo hi x : Q) : lo <= hi -> x <= lo -> Packets.clip lo hi x == lo.
Proof.
  intros Hle Hx. unfold Packets.clip.
  destruct (Q.max_spec x lo) as [[? Hm]|[? Hm]],
           (Q.min_spec (Qmax x lo) hi) as [[? Hmx]|[? Hmx]]; lra.
Qed.

Lemma clip_high (lo hi x : Q) : lo <= hi -> hi <= x -> Packets.clip lo hi x == hi.
Proof.
  intros Hle Hx. unfold Packets.clip.
  destruct (Q.max_spec x lo) as [[? Hm]|[? Hm]],
           (Q.min_spec (Qmax x lo) hi) as [[? Hmx]|[? Hmx]]; lra.
Qed.

(** The upper bound that [quantize_depth] works with is above [z_min]. *)
Lemma adjusted_bound_gt (z_min z_max : Q) :
  z_min < (if Qle_bool z_max z_min then z_min + (1 # 1000) else z_max).
Proof.
  destruct (Qle_bool z_max z_min) eqn:E; [lra|].
  apply Qnot_le_lt. intros Hle. apply Qle_bool_iff in Hle. congruence.
Qed.

(** The 16-bit code of one depth value, as [quantize_depth] computes it. *)
Lemma pixel_code_facts (z_min hi : Q) :
  z_min < hi ->
  let code := fun d =>
    Packets.astype_u2
      (Packets.rint ((Packets.clip z_min hi d - z_min) / ((hi - z_min) / 65535))) in
  (forall d, (0 <= code d <= 65535)%Z) /\
  (forall d, d <= z_min -> code d = 0%Z) /\
  (forall d, hi <= d -> code d = 65535%Z) /\
  (forall d1 d2, d1 <= d2 -> (code d1 <= code d2)%Z).
Proof.
  intros Hlt code.
  set (scale := (hi - z_min) / 65535).
  assert (Hs : 0 < scale) by (unfold scale; apply Qlt_shift_div_l; lra).
  assert (Hn0 : forall d,
             inject_Z 0 <= (Packets.clip z_min hi d - z_min) / scale
             <= inject_Z 65535).
  { intros d. destruct (clip_between z_min hi d) as [Hc1 Hc2]; [lra|].
    change (inject_Z 0) with 0. change (inject_Z 65535) with 65535. split.
    - apply Qle_shift_div_l; lra.
    - apply Qle_shift_div_r; [lra|]. unfold scale. field_simplify. lra. }
  assert (Hcode : forall d,
             code d = Packets.rint ((Packets.clip z_min hi d - z_min) / scale)).
  { intros d. unfold code, Packets.astype_u2. fold scale. apply Z.mod_small.
    pose proof (rint_between 0 65535 _ (Hn0 d)). lia. }
  split; [|split; [|split]].
  - intros d. rewrite Hcode. exact (rint_between 0 65535 _ (Hn0 d)).
  - intros d Hd. rewrite Hcode.
    assert (H : inject_Z 0 <= (Packets.clip z_min hi d - z_min) / scale <= inject_Z 0).
    { change (inject_Z 0) with 0. pose proof (clip_low z_min hi d ltac:(lra) Hd) as Hc.
      split.
      - apply Qle_shift_div_l; lra.
      - apply Qle_shift_div_r; lra. }
    pose proof (rint_between 0 0 _ H). lia.
  - intros d Hd. rewrite Hcode.
    assert (H : inject_Z 65535 <= (Packets.clip z_min hi d - z_min) / scale
                <= inject_Z 65535).
    { change (inject_Z 65535) with 65535.
      pose proof (clip_high z_min hi d ltac:(lra) Hd) as Hc.
      assert (Hs65 : 65535 * scale == hi - z_min) by (unfold scale; field).
      split.
      - apply Qle_shift_div_l; lra.
      - apply Qle_shift_div_r; lra. }
    pose proof (rint_between 65535 65535 _ H). lia.
  - intros d1 d2 Hd. rewrite !Hcode. apply rint_mono.
    pose proof (clip_mono z_min hi d1 d2 Hd) as Hc.
    unfold Qdiv. apply Qmult_le_compat_r; [lra|].
    apply Qlt_le_weak, Qinv_lt_0_compat, Hs.
Qed.

End QuantizeMore.

Lemma quantize_depth_codes_lengths (depth : Packets.ndarray) (z_min z_max : Q) :
  let encoded := (Packets.quantize_depth depth z_min z_max).2.1.1 in
  length encoded = length (Packets.data depth) /\
  Forall (fun e => 0 <= e <= 65535) encoded.
Proof.
  intros encoded. subst encoded. unfold Packets.quantize_depth.
  cbn [fst snd Packets.data]. split; [now rewrite !length_map|].
  destruct (pixel_code_facts z_min _ (adjusted_bound_gt z_min z_max))
    as (Hrange & _).
  rewrite !Forall_fmap. apply Forall_forall. intros d _. apply Hrange.
Qed.

Lemma tobytes_are_bytes (encoded : list Z) :
  Forall (fun e => 0 <= e <= 65535) encoded ->
  Forall (fun b => 0 <= b <= 255) (Packets.tobytes encoded).
Proof.
  induction 1 as [|e l He Hl IH]; [constructor|].
  cbn [Packets.tobytes flat_map app]. fold (Packets.tobytes l).
  constructor; [|constructor; [|exact IH]].
  - pose proof (Z.mod_pos_bound e 256). lia.
  - split; [apply Z.div_pos; lia|].
    apply Z.lt_succ_r. apply Z.div_lt_upper_bound; lia.
Qed.

(** [X13] The wire format of a packed frame. When [pack_depth_payload]
    returns a payload, its magic is [VDZ2] with [compress] and the first
    four bytes of the configured magic (zero-padded) without; the body is
    [zlib.compress] of the raw bytes with [compress], and without it is the
    raw bytes themselves: two per pixel, each in [[0, 255]], which read as
    little-endian 16-bit values give back the codes of [quantize_depth]. *)
Theorem packed_payload_wire_format :
  forall (zlib_compress : list Z -> list Z) (settings : Config.Settings)
         (depth : Packets.ndarray) (timestamp_ms z_min z_max : Q)
         (compress : bool) (p : Packets.DepthPayload),
    (Packets.pack_depth_payload zlib_compress settings depth timestamp_ms
       z_min z_max compress).2 = Py.Ok p ->
    let encoded := (Packets.quantize_depth depth z_min z_max).2.1.1 in
    let raw := Packets.tobytes encoded in
    length raw = (2 * length (Packets.data depth))%nat /\
    Forall (fun b => 0 <= b <= 255) raw /\
    Packets.read_u16_le raw = encoded /\
    (if compress
     then Packets.h_magic (Packets.header p) = [86; 68; 90; 50] /\
          Packets.payload_bytes p = zlib_compress raw
     else Packets.h_magic (Packets.header p)
          = take 4 (Config.depth_header_magic settings ++ [0; 0; 0; 0]) /\
          Packets.payload_bytes p = raw).
Proof.
  intros zc settings depth ts z_min z_max compress p Hok encoded raw.
  pose proof (pack_depth_payload_Ok zc settings depth ts z_min z_max compress p Hok)
    as Hp.
  destruct (quantize_depth_codes_lengths depth z_min z_max) as [Hlen Hrange].
  fold encoded in Hlen, Hrange.
  unfold Packets.quantize_depth in Hp. cbv zeta in Hp.
  destruct Hp as [Hh Hb].
  split; [subst raw; rewrite length_tobytes, Hlen; reflexivity|].
  split; [apply tobytes_are_bytes, Hrange|].
  split; [apply read_u16_le_tobytes|].
  destruct compress; (split; [rewrite Hh; reflexivity | exact Hb]).
Qed.

Lemma packed_payload_wire_format_witness :
  exists p,
    (Packets.pack_depth_payload (fun b => b) Config.default
       (Packets.mkArray 1 2 [1%Q; 2%Q]) 5%Q 0%Q 2%Q false).2 = Py.Ok p /\
    Packets.h_magic (Packets.header p) = [86; 68; 90; 49] /\
    Packets.payload_bytes p = [0; 128; 255; 255].
Proof.
  eexists. split; [reflexivity|].
  destruct (packed_payload_wire_format (fun b => b) Config.default
              (Packets.mkArray 1 2 [1%Q; 2%Q]) 5%Q 0%Q 2%Q false _ eq_refl)
    as (_ & _ & _ & Hmagic & Hbody).
  split; [exact Hmagic | exact Hbody].
Defined.

(** ** The frame decoder, continued *)

Section DecoderMore.
Implicit Types (pos : list VideoIO.AVFrame) (d : VideoIO.FrameDecoder).

(** The time a successful scan leaves in [_last_frame_time_ms]. *)
Lemma advance_loop_last (t : Q) (drained : bool) pos :
  forall (n : Z) (last : option Q) frame info rest iter last',
  VideoIO.advance_loop t n last drained pos
  = (Py.Ok (frame, info), (rest, iter, last')) ->
  last' = Some (if Qle_bool 0 (VideoIO.time_ms info) then VideoIO.time_ms info else t).
Proof.
  induction pos as [|f pos IH]; intros n last frame info rest iter last';
    cbn [VideoIO.advance_loop]; [destruct drained; discriminate|].
  destruct (_ || _ || _).
  - intros [= <- <- <- <- <-]. reflexivity.
  - apply IH.
Qed.

End DecoderMore.

(** What a successful [decode_at] leaves in the decoder. *)
Lemma decode_at_leaves_frame_time (d d' : VideoIO.FrameDecoder)
    (t : Q) (frame : VideoIO.AVFrame) (info : VideoIO.FrameInfo) :
  VideoIO.decode_at t d = (Py.Ok (frame, info), d') ->
  VideoIO._last_frame_time_ms d'
  = Some (if Qle_bool 0 (VideoIO.time_ms info) then VideoIO.time_ms info
          else if Py.Qlt_bool t 0 then 0%Q else t) /\
  VideoIO.stream d' = VideoIO.stream d /\
  VideoIO._frame_iter d' = true.
Proof.
  intros Hdec. unfold VideoIO.decode_at in Hdec.
  set (t0 := if Py.Qlt_bool t 0 then 0%Q else t) in *.
  set (d1 := if VideoIO.should_stream_forward t0 d then d
             else VideoIO._seek_near t0 d) in *.
  assert (Hstream : VideoIO.stream d1 = VideoIO.stream d).
  { subst d1. destruct (VideoIO.should_stream_forward t0 d); reflexivity. }
  unfold VideoIO._advance_to in Hdec.
  destruct (VideoIO._frame_iter d1 && VideoIO.iter_closed d1); [discriminate|].
  pose proof (advance_loop_spec t0 (VideoIO.at_end d1) (VideoIO.position d1) 0
                (VideoIO._last_frame_time_ms d1)
                ltac:(unfold VideoIO.MAX_SCAN_FRAMES; lia)) as Hspec.
  pose proof (advance_loop_last t0 (VideoIO.at_end d1) (VideoIO.position d1) 0
                (VideoIO._last_frame_time_ms d1)) as Hlast.
  destruct (VideoIO.advance_loop t0 0 (VideoIO._last_frame_time_ms d1)
              (VideoIO.at_end d1) (VideoIO.position d1))
    as [[[fr inf]|e] [[rest iter] last']];
    [|discriminate].
  injection Hdec as -> -> <-.
  destruct Hspec as (_ & -> & _).
  specialize (Hlast _ _ _ _ _ eq_refl). subst last'.
  cbn [VideoIO._last_frame_time_ms VideoIO.stream VideoIO._frame_iter].
  split; [reflexivity|]. split; [exact Hstream | reflexivity].
Qed.

(** [X14] The fast path after a decode. When [decode_at(t)] returns a
    frame, the decoder remembers that frame's time (the clamped target for
    a frame without timestamp) and keeps its iterator and stream; a
    following [decode_at(t2)], [t2 >= 0], whose target lies at most 1000 ms
    after the remembered time does not seek: it reads on from the frame
    after the returned one. A target before the remembered time, or more
    than 1000 ms after it, seeks first. *)
Theorem decode_at_then_nearby_target_reads_on :
  forall (d d' : VideoIO.FrameDecoder) (t : Q) (frame : VideoIO.AVFrame)
         (info : VideoIO.FrameInfo),
    VideoIO.decode_at t d = (Py.Ok (frame, info), d') ->
    let remembered :=
      if Qle_bool 0 (VideoIO.time_ms info) then VideoIO.time_ms info
      else if Py.Qlt_bool t 0 then 0%Q else t in
    VideoIO._last_frame_time_ms d' = Some remembered /\
    VideoIO.stream d' = VideoIO.stream d /\
    VideoIO._frame_iter d' = true /\
    forall t2 : Q,
      (0 <= t2)%Q ->
      ((remembered <= t2 /\ t2 <= remembered + 1000)%Q ->
       VideoIO.decode_at t2 d' = VideoIO._advance_to t2 d' /\
       VideoIO.frames_ahead t2 d' = VideoIO.position d') /\
      ((t2 < remembered \/ remembered + 1000 < t2)%Q ->
       VideoIO.decode_at t2 d' = VideoIO._advance_to t2 (VideoIO._seek_near t2 d')).
Proof.
  intros d d' t frame info Hdec remembered.
  unfold VideoIO.decode_at in Hdec.
  set (t0 := if Py.Qlt_bool t 0 then 0%Q else t) in *.
  set (d1 := if VideoIO.should_stream_forward t0 d then d
             else VideoIO._seek_near t0 d) in *.
  assert (Hstream : VideoIO.stream d1 = VideoIO.stream d).
  { subst d1. destruct (VideoIO.should_stream_forward t0 d); reflexivity. }
  unfold VideoIO._advance_to in Hdec.
  destruct (VideoIO._frame_iter d1 && VideoIO.iter_closed d1); [discriminate|].
  pose proof (advance_loop_spec t0 (VideoIO.at_end d1) (VideoIO.position d1) 0
                (VideoIO._last_frame_time_ms d1)
                ltac:(unfold VideoIO.MAX_SCAN_FRAMES; lia)) as Hspec.
  pose proof (advance_loop_last t0 (VideoIO.at_end d1) (VideoIO.position d1) 0
                (VideoIO._last_frame_time_ms d1)) as Hlast.
  destruct (VideoIO.advance_loop t0 0 (VideoIO._last_frame_time_ms d1)
              (VideoIO.at_end d1) (VideoIO.position d1))
    as [[[fr inf]|e] [[rest iter] last']];
    [|discriminate].
  injection Hdec as -> -> <-.
  destruct Hspec as (_ & -> & _).
  specialize (Hlast _ _ _ _ _ eq_refl). subst last'.
  cbn [VideoIO._last_frame_time_ms VideoIO.stream VideoIO._frame_iter].
  fold remembered.
  split; [reflexivity|]. split; [exact Hstream|]. split; [reflexivity|].
  intros t2 Ht2.
  assert (Hclamp : Py.Qlt_bool t2 0 = false) by (apply Qlt_bool_false; exact Ht2).
  unfold VideoIO.decode_at, VideoIO.frames_ahead. rewrite Hclamp.
  unfold VideoIO.should_stream_forward, VideoIO.STREAM_WINDOW_MS.
  cbn [VideoIO._last_frame_time_ms].
  split.
  - intros [Hlo Hhi].
    assert (H1 : Qle_bool 0 (t2 - remembered) = true) by (apply Qle_bool_iff; lra).
    assert (H2 : Qle_bool (t2 - remembered) 1000 = true) by (apply Qle_bool_iff; lra).
    rewrite H1, H2. split; reflexivity.
  - intros Hout.
    assert (H : Qle_bool 0 (t2 - remembered) && Qle_bool (t2 - remembered) 1000
                = false).
    { apply andb_false_iff. destruct Hout as [Hb|Ha].
      - left. destruct (Qle_bool 0 (t2 - remembered)) eqn:E; [|reflexivity].
        apply Qle_bool_iff in E. exfalso. lra.
      - right. destruct (Qle_bool (t2 - remembered) 1000) eqn:E; [|reflexivity].
        apply Qle_bool_iff in E. exfalso. lra. }
    rewrite H. reflexivity.
Qed.

Lemma decode_at_then_nearby_target_reads_on_witness :
  exists frame info d',
    VideoIO.decode_at 40 (VideoIO.open (VideoIO.sample_stream 5))
    = (Py.Ok (frame, info), d') /\
    VideoIO.decode_at 100 d' = VideoIO._advance_to 100 d' /\
    VideoIO.frames_ahead 100 d' = VideoIO.position d'.
Proof.
  destruct (VideoIO.decode_at 40 (VideoIO.open (VideoIO.sample_stream 5)))
    as [[[frame info]|e] d'] eqn:E; [|vm_compute in E; discriminate E].
  exists frame, info, d'. split; [reflexivity|].
  destruct (decode_at_then_nearby_target_reads_on _ _ _ _ _ E)
    as (_ & _ & _ & Hnext).
  assert (Hi : info = VideoIO.frame_info_from_av
                        {| VideoIO.time := Some (2 # 30)%Q;
                           VideoIO.frame_index := None;
                           VideoIO.frame_pts := Some 2;
                           VideoIO.frame_key_frame := false; VideoIO.image := 2 |}).
  { vm_compute in E. injection E as _ <- _. reflexivity. }
  apply (Hnext 100%Q ltac:(discriminate)).
  rewrite Hi. vm_compute. split; discriminate.
Defined.

(** ** The decoder pool *)

Section PoolFacts.
Implicit Types (pool : Pool.DecoderPool).

Lemma find_first {A : Type} (f : A -> bool) (l : list A) (x : A) :
  List.find f l = Some x ->
  exists l1 l2, l = l1 ++ x :: l2 /\ f x = true /\ Forall (fun y => f y = false) l1.
Proof.
  induction l as [|y l IH]; cbn [List.find]; [discriminate|].
  destruct (f y) eqn:E.
  - intros [= <-]. exists [], l. split; [reflexivity|]. split; [exact E|constructor].
  - intros H. destruct (IH H) as (l1 & l2 & -> & Hx & Hl1).
    exists (y :: l1), l2. split; [reflexivity|]. split; [exact Hx|].
    constructor; assumption.
Qed.

Lemma find_none_Forall {A : Type} (f : A -> bool) (l : list A) :
  List.find f l = None -> Forall (fun y => f y = false) l.
Proof.
  induction l as [|y l IH]; cbn [List.find]; [constructor|].
  destruct (f y) eqn:E; [discriminate|]. intros H. constructor; auto.
Qed.

Lemma list_remove_first (x : nat) (l1 l2 : list nat) :
  x ∉ l1 -> Pool.list_remove x (l1 ++ x :: l2) = l1 ++ l2.
Proof.
  induction l1 as [|y l1 IH]; intros Hx; cbn [app Pool.list_remove].
  - now rewrite Nat.eqb_refl.
  - apply not_elem_of_cons in Hx as [Hne Hx].
    destruct (Nat.eqb_spec x y); [contradiction|]. now rewrite IH.
Qed.

Lemma last_removelast {A : Type} (l : list A) (x : A) :
  last l = Some x -> l = removelast l ++ [x].
Proof.
  intros H. apply last_Some in H as [l' ->]. now rewrite removelast_last.
Qed.

(** What [acquire] does to the free list. *)
Lemma acquire_spec (t : Q) pool best pool' :
  Pool.acquire t pool = Some (best, pool') ->
  Pool._decoders pool' = Pool._decoders pool /\
  ((exists l1 l2,
       Pool._free_decoders pool = l1 ++ best :: l2 /\
       Pool._free_decoders pool' = l1 ++ l2 /\
       Pool.streams_forward pool t best = true /\
       Forall (fun i => Pool.streams_forward pool t i = false) l1) \/
   (Forall (fun i => Pool.streams_forward pool t i = false) (Pool._free_decoders pool) /\
    Pool._free_decoders pool = Pool._free_decoders pool' ++ [best])).
Proof.
  unfold Pool.acquire.
  destruct (List.find _ _) as [b|] eqn:Efind.
  - intros [= <- <-]. split; [reflexivity|]. left.
    destruct (find_first _ _ _ Efind) as (l1 & l2 & Hfree & Hb & Hl1).
    exists l1, l2. split; [exact Hfree|]. cbn [Pool._free_decoders].
    split; [|split; assumption].
    rewrite Hfree. apply list_remove_first.
    intros Hin. rewrite Forall_forall in Hl1. specialize (Hl1 _ Hin). congruence.
  - destruct (last _) as [b|] eqn:Elast; [|discriminate].
    intros [= <- <-]. split; [reflexivity|]. right.
    split; [apply find_none_Forall, Efind|].
    cbn [Pool._free_decoders]. apply last_removelast, Elast.
Qed.

Lemma acquire_perm (t : Q) pool best pool' :
  Pool.acquire t pool = Some (best, pool') ->
  Pool._free_decoders pool ≡ₚ best :: Pool._free_decoders pool'.
Proof.
  intros H. destruct (acquire_spec _ _ _ _ H) as [_ [Hloc|[_ Hlast]]].
  - destruct Hloc as (l1 & l2 & -> & -> & _). symmetry. apply Permutation_middle.
  - rewrite Hlast. symmetry. apply Permutation_cons_append.
Qed.

Lemma acquire_None (t : Q) pool :
  Pool.acquire t pool = None <-> Pool._free_decoders pool = [].
Proof.
  unfold Pool.acquire. split.
  - destruct (List.find _ _); [discriminate|].
    destruct (Pool._free_decoders pool) as [|i l] eqn:E; [reflexivity|].
    destruct (last (i :: l)) eqn:El; [discriminate|].
    apply last_None in El. discriminate.
  - intros ->. reflexivity.
Qed.

End PoolFacts.

(** [X15] How the pool chooses. [acquire] waits exactly when no decoder is
    free. Otherwise it takes one decoder off the free list and leaves the
    others in their order: the first free decoder that can stream forward
    to the target, if there is one; if none can, the decoder at the end of
    the list, the one released last. *)
Theorem pool_acquire_prefers_streaming_decoder :
  forall (t : Q) (pool : Pool.DecoderPool),
    match Pool.acquire t pool with
    | None => Pool._free_decoders pool = []
    | Some (best, pool') =>
        Pool._decoders pool' = Pool._decoders pool /\
        Pool._free_decoders pool ≡ₚ best :: Pool._free_decoders pool' /\
        ((exists l1 l2,
             Pool._free_decoders pool = l1 ++ best :: l2 /\
             Pool._free_decoders pool' = l1 ++ l2 /\
             Pool.streams_forward pool t best = true /\
             Forall (fun i => Pool.streams_forward pool t i = false) l1) \/
         (Forall (fun i => Pool.streams_forward pool t i = false)
            (Pool._free_decoders pool) /\
          Pool._free_decoders pool = Pool._free_decoders pool' ++ [best]))
    end.
Proof.
  intros t pool. destruct (Pool.acquire t pool) as [[best pool']|] eqn:E.
  - destruct (acquire_spec _ _ _ _ E) as [Hd Hcase].
    split; [exact Hd|]. split; [exact (acquire_perm _ _ _ _ E) | exact Hcase].
  - apply acquire_None in E. exact E.
Qed.

Section PoolCalls.
Implicit Types (pool : Pool.DecoderPool).

Lemma acquire_member (t : Q) pool best pool' :
  Pool.acquire t pool = Some (best, pool') -> best ∈ Pool._free_decoders pool.
Proof.
  intros H. rewrite (acquire_perm _ _ _ _ H). apply list_elem_of_here.
Qed.

Lemma decode_on_spec (best : nat) (t : Q) pool r pool' :
  Pool.decode_on best t pool = Some (r, pool') ->
  exists d,
    Pool._decoders pool !! best = Some d /\
    r = (VideoIO.decode_at t d).1 /\
    Pool._decoders pool'
    = <[best := (VideoIO.decode_at t d).2]> (Pool._decoders pool) /\
    Pool._free_decoders pool' = Pool._free_decoders pool.
Proof.
  unfold Pool.decode_on.
  destruct (Pool._decoders pool !! best) as [d|]; [|discriminate].
  cbn [mbind option_bind].
  destruct (VideoIO.decode_at t d) as [r0 d'] eqn:E.
  intros [= <- <-]. exists d. rewrite E. repeat split; reflexivity.
Qed.

(** One call of the pool's [decode_at], step by step. *)
Lemma pool_decode_at_spec (t : Q) pool r pool' :
  Pool.decode_at t pool = Some (r, pool') ->
  exists best d free1,
    Pool.acquire t pool
    = Some (best, Pool.mkDecoderPool (Pool._decoders pool) free1) /\
    Pool._decoders pool !! best = Some d /\
    r = (VideoIO.decode_at t d).1 /\
    Pool._decoders pool'
    = <[best := (VideoIO.decode_at t d).2]> (Pool._decoders pool) /\
    Pool._free_decoders pool' = free1 ++ [best].
Proof.
  unfold Pool.decode_at.
  destruct (Pool.acquire t pool) as [[best pool1]|] eqn:Eacq; [|discriminate].
  cbn [mbind option_bind].
  destruct (Pool.decode_on best t pool1) as [[r0 pool2]|] eqn:Edec;
    [|discriminate].
  cbn [mbind option_bind]. intros [= <- <-].
  destruct (acquire_spec _ _ _ _ Eacq) as [Hd1 _].
  destruct (decode_on_spec _ _ _ _ _ Edec) as (d & Hlook & Hr & Hd2 & Hf2).
  exists best, d, (Pool._free_decoders pool1).
  destruct pool1 as [ds1 free1]. cbn in *. subst ds1.
  split; [reflexivity|]. split; [exact Hlook|]. split; [exact Hr|].
  split; [exact Hd2|]. now rewrite Hf2.
Qed.

End PoolCalls.

(** [X16] The pool's [decode_at] gives its decoder back. A call that is
    not left waiting returns what the chosen free decoder's own
    [decode_at] returns or raises, changes the state of that decoder only,
    and ends with the same decoders free as before (the chosen one now last
    in the list), also when the decoder raised [StopIteration]. With a
    free decoder at hand the call does not wait. *)
Theorem pool_decode_at_returns_the_decoder :
  forall (t : Q) (pool : Pool.DecoderPool),
    (Pool._free_decoders pool <> [] ->
     Forall (fun i => (i < length (Pool._decoders pool))%nat)
       (Pool._free_decoders pool) ->
     is_Some (Pool.decode_at t pool)) /\
    (forall r pool',
        Pool.decode_at t pool = Some (r, pool') ->
        exists best d,
          best ∈ Pool._free_decoders pool /\
          Pool._decoders pool !! best = Some d /\
          r = (VideoIO.decode_at t d).1 /\
          Pool._decoders pool'
          = <[best := (VideoIO.decode_at t d).2]> (Pool._decoders pool) /\
          Pool._free_decoders pool' ≡ₚ Pool._free_decoders pool /\
          last (Pool._free_decoders pool') = Some best).
Proof.
  intros t pool. split.
  - intros Hne Hvalid. unfold Pool.decode_at.
    destruct (Pool.acquire t pool) as [[best pool1]|] eqn:Eacq.
    + cbn [mbind option_bind]. pose proof (acquire_member _ _ _ _ Eacq) as Hin.
      destruct (acquire_spec _ _ _ _ Eacq) as [Hd1 _].
      rewrite Forall_forall in Hvalid. specialize (Hvalid _ Hin).
      unfold Pool.decode_on. rewrite Hd1.
      destruct (lookup_lt_is_Some_2 _ _ Hvalid) as [d Hd]. rewrite Hd.
      cbn [mbind option_bind].
      destruct (VideoIO.decode_at t d). cbn [mbind option_bind]. eauto.
    + apply acquire_None in Eacq. contradiction.
  - intros r pool' Hcall.
    destruct (pool_decode_at_spec _ _ _ _ Hcall)
      as (best & d & free1 & Hacq & Hlook & Hr & Hds & Hfree).
    exists best, d.
    split; [exact (acquire_member _ _ _ _ Hacq)|].
    split; [exact Hlook|]. split; [exact Hr|]. split; [exact Hds|].
    split.
    + rewrite Hfree, (acquire_perm _ _ _ _ Hacq). cbn [Pool._free_decoders].
      symmetry. apply Permutation_cons_append.
    + rewrite Hfree. apply last_snoc.
Qed.

(** [X17] Locality of consecutive requests. After the pool's [decode_at]
    has returned a frame, a following call for a target [t2 >= 0] that lies
    at most 1000 ms after that frame's time (the first target, clamped at
    0, for a frame without timestamp) is served without a seek: the
    decoder it is given reads on from its iterator position. *)
Theorem pool_nearby_request_does_not_seek :
  forall (t t2 : Q) (pool pool1 pool2 : Pool.DecoderPool)
         (frame : VideoIO.AVFrame) (info : VideoIO.FrameInfo)
         (r2 : Py.result (VideoIO.AVFrame * VideoIO.FrameInfo)),
    Pool.decode_at t pool = Some (Py.Ok (frame, info), pool1) ->
    let remembered :=
      if Qle_bool 0 (VideoIO.time_ms info) then VideoIO.time_ms info
      else if Py.Qlt_bool t 0 then 0%Q else t in
    (0 <= t2)%Q ->
    (remembered <= t2 /\ t2 <= remembered + 1000)%Q ->
    Pool.decode_at t2 pool1 = Some (r2, pool2) ->
    exists best d,
      Pool._decoders pool1 !! best = Some d /\
      VideoIO.should_stream_forward t2 d = true /\
      r2 = (VideoIO._advance_to t2 d).1 /\
      Pool._decoders pool2
      = <[best := (VideoIO._advance_to t2 d).2]> (Pool._decoders pool1).
Proof.
  intros t t2 pool pool1 pool2 frame info r2 Hcall1 remembered Ht2 Hwin Hcall2.
  destruct (pool_decode_at_spec _ _ _ _ Hcall1)
    as (b1 & d1 & free1 & Hacq1 & Hlook1 & Hr1 & Hds1 & Hfree1).
  destruct (VideoIO.decode_at t d1) as [r1 d1'] eqn:Edec1. cbn [fst snd] in *.
  subst r1.
  destruct (decode_at_leaves_frame_time d1 d1' t frame info Edec1)
    as [Hlast _].
  fold remembered in Hlast.
  assert (Hhot : Pool.streams_forward pool1 t2 b1 = true).
  { unfold Pool.streams_forward. rewrite Hds1.
    rewrite list_lookup_insert_eq by (eapply lookup_lt_Some; exact Hlook1).
    unfold VideoIO.should_stream_forward, VideoIO.STREAM_WINDOW_MS.
    rewrite Hlast. apply andb_true_iff. split; apply Qle_bool_iff; lra. }
  destruct (pool_decode_at_spec _ _ _ _ Hcall2)
    as (b2 & d2 & free2 & Hacq2 & Hlook2 & Hr2 & Hds2 & Hfree2).
  assert (Hfwd : VideoIO.should_stream_forward t2 d2 = true).
  { destruct (acquire_spec _ _ _ _ Hacq2) as [_ [Hloc|[Hnone _]]].
    - destruct Hloc as (_ & _ & _ & _ & Hb2 & _).
      unfold Pool.streams_forward in Hb2. now rewrite Hlook2 in Hb2.
    - exfalso. rewrite Forall_forall in Hnone.
      assert (Hin : b1 ∈ Pool._free_decoders pool1).
      { rewrite Hfree1. apply elem_of_app. right. apply list_elem_of_here. }
      specialize (Hnone _ Hin). congruence. }
  assert (Hdec2 : VideoIO.decode_at t2 d2 = VideoIO._advance_to t2 d2).
  { unfold VideoIO.decode_at.
    assert (Hclamp : Py.Qlt_bool t2 0 = false) by (apply Qlt_bool_false; exact Ht2).
    rewrite Hclamp, Hfwd. reflexivity. }
  exists b2, d2. rewrite <- Hdec2.
  split; [exact Hlook2|]. split; [exact Hfwd|]. split; [exact Hr2 | exact Hds2].
Qed.

Lemma pool_decode_at_returns_the_decoder_witness :
  exists r pool',
    Pool.decode_at 100 (Pool.open (VideoIO.sample_stream 3) 2) = Some (r, pool') /\
    r = Py.Raise Py.StopIteration /\
    Pool._free_decoders pool' ≡ₚ [0; 1]%nat /\
    last (Pool._free_decoders pool') = Some 1%nat.
Proof.
  destruct (Pool.decode_at 100 (Pool.open (VideoIO.sample_stream 3) 2))
    as [[r pool']|] eqn:E; [|vm_compute in E; discriminate E].
  exists r, pool'. split; [reflexivity|].
  split; [vm_compute in E; congruence|].
  destruct (proj2 (pool_decode_at_returns_the_decoder 100
                     (Pool.open (VideoIO.sample_stream 3) 2)) r pool' E)
    as (best & d & _ & _ & _ & _ & Hperm & Hlast).
  split; [exact Hperm|].
  clear Hperm Hlast. vm_compute in E. injection E as _ <-. reflexivity.
Defined.

Lemma pool_nearby_request_does_not_seek_witness :
  exists pool1 frame info r2 pool2 best d,
    Pool.decode_at 40 (Pool.open (VideoIO.sample_stream 5) 2)
    = Some (Py.Ok (frame, info), pool1) /\
    Pool.decode_at 100 pool1 = Some (r2, pool2) /\
    Pool._decoders pool1 !! best = Some d /\
    VideoIO.should_stream_forward 100 d = true /\
    r2 = (VideoIO._advance_to 100 d).1.
Proof.
  destruct (Pool.decode_at 40 (Pool.open (VideoIO.sample_stream 5) 2))
    as [[[[frame info]|e] pool1]|] eqn:E1;
    [|exfalso; vm_compute in E1; discriminate E1..].
  pose proof E1 as E1c. vm_compute in E1c. injection E1c as Hf Hi Hp.
  destruct (Pool.decode_at 100 pool1) as [[r2 pool2]|] eqn:E2;
    [|exfalso; rewrite <- Hp in E2; vm_compute in E2; discriminate E2].
  destruct (pool_nearby_request_does_not_seek 40 100 _ pool1 pool2 frame info r2 E1)
    as (best & d & Hlook & Hfwd & Hr & _).
  - discriminate.
  - rewrite <- Hi. vm_compute. split; discriminate.
  - exact E2.
  - exists pool1, frame, info, r2, pool2, best, d.
    split; [reflexivity|]. split; [exact E2|].
    split; [exact Hlook|]. split; [exact Hfwd | exact Hr].
Defined.

Section PoolConcurrency.
Implicit Types (st : Pool.pool_state).

Lemma remove_holder_perm (best : nat) (t : Q) (l : list (nat * Q)) :
  List.find (fun h => (h.1 =? best)%nat) l = Some (best, t) ->
  map fst l ≡ₚ best :: map fst (Pool.remove_holder best l).
Proof.
  induction l as [|[i ti] l IH]; cbn [List.find Pool.remove_holder map fst];
    [discriminate|].
  destruct (Nat.eqb_spec i best) as [->|Hne].
  - intros _. reflexivity.
  - intros H. cbn [map fst]. rewrite (IH H). apply Permutation_swap.
Qed.

Lemma find_holder (best : nat) (l : list (nat * Q)) i t :
  List.find (fun h => (h.1 =? best)%nat) l = Some (i, t) -> i = best.
Proof.
  intros H. apply List.find_some in H as [_ H]. cbn in H.
  now apply Nat.eqb_eq in H.
Qed.

(** Free and held decoders together are always the decoders of the pool,
    each exactly once. *)
Lemma pool_exec_invariant (count : nat) (e : Pool.pool_event) st st' :
  Pool._free_decoders (Pool.pool st) ++ map fst (Pool.busy st) ≡ₚ seq 0 count ->
  length (Pool._decoders (Pool.pool st)) = count ->
  Pool.pool_exec e st = Some st' ->
  Pool._free_decoders (Pool.pool st') ++ map fst (Pool.busy st') ≡ₚ seq 0 count /\
  length (Pool._decoders (Pool.pool st')) = count.
Proof.
  intros Hperm Hlen. destruct e as [t|best]; cbn [Pool.pool_exec].
  - destruct (Pool.acquire t (Pool.pool st)) as [[best pool1]|] eqn:Eacq;
      [|discriminate].
    cbn [mbind option_bind]. intros [= <-]. cbn [Pool.pool Pool.busy].
    destruct (acquire_spec _ _ _ _ Eacq) as [Hd _].
    split; [|now rewrite Hd].
    rewrite <- Hperm, (acquire_perm _ _ _ _ Eacq), map_app. cbn [map fst].
    rewrite app_assoc. rewrite <- Permutation_cons_append.
    cbn [app]. reflexivity.
  - destruct (List.find _ (Pool.busy st)) as [[i t]|] eqn:Efind; [|discriminate].
    cbn [mbind option_bind].
    pose proof (find_holder _ _ _ _ Efind) as ->.
    destruct (Pool.decode_on best t (Pool.pool st)) as [[r pool2]|] eqn:Edec;
      [|discriminate].
    cbn [mbind option_bind]. intros [= <-]. cbn [Pool.pool Pool.busy Pool.release
      Pool._free_decoders Pool._decoders].
    destruct (decode_on_spec _ _ _ _ _ Edec) as (d & _ & _ & Hds & Hfree).
    split; [|now rewrite Hds, length_insert].
    rewrite Hfree, <- Hperm, (remove_holder_perm best t _ Efind).
    rewrite <- app_assoc. cbn [app]. reflexivity.
Qed.

End PoolConcurrency.

(** [X18] No decoder is shared or lost. With any number of callers going
    through the pool's [decode_at] in any interleaving, starting from a new
    pool of [count] decoders: the decoders that are free and the decoders
    held by callers are together exactly the [count] decoders, each once.
    So a decoder is never held by two callers, a held decoder is never in
    the free list, and at most [count] callers hold a decoder. *)
Theorem pool_never_shares_a_decoder :
  forall (frames : list VideoIO.AVFrame) (count : nat)
         (events : list Pool.pool_event) (st : Pool.pool_state),
    Pool.pool_run events (Pool.mkPoolState (Pool.open frames count) []) = Some st ->
    let free := Pool._free_decoders (Pool.pool st) in
    let held := map fst (Pool.busy st) in
    free ++ held ≡ₚ seq 0 count /\
    NoDup held /\ NoDup free /\
    (forall i, i ∈ held -> i ∉ free) /\
    (length (Pool.busy st) <= count)%nat /\
    length (Pool._decoders (Pool.pool st)) = count.
Proof.
  intros frames count events st Hrun free held.
  assert (Hinv : free ++ held ≡ₚ seq 0 count /\
                 length (Pool._decoders (Pool.pool st)) = count).
  { subst free held.
    assert (Hgen : forall st0,
               Pool._free_decoders (Pool.pool st0) ++ map fst (Pool.busy st0)
               ≡ₚ seq 0 count ->
               length (Pool._decoders (Pool.pool st0)) = count ->
               Pool.pool_run events st0 = Some st ->
               Pool._free_decoders (Pool.pool st) ++ map fst (Pool.busy st)
               ≡ₚ seq 0 count /\
               length (Pool._decoders (Pool.pool st)) = count).
    { clear Hrun. induction events as [|e events IH]; intros st0 Hp Hl Hrun;
        cbn [Pool.pool_run] in Hrun.
      - injection Hrun as <-. split; assumption.
      - destruct (Pool.pool_exec e st0) as [st1|] eqn:E; [|discriminate].
        destruct (pool_exec_invariant count e st0 st1 Hp Hl E) as [Hp1 Hl1].
        exact (IH st1 Hp1 Hl1 Hrun). }
    apply (Hgen (Pool.mkPoolState (Pool.open frames count) [])); [| |exact Hrun].
    - cbn [Pool.pool Pool.busy Pool.open Pool._free_decoders map].
      now rewrite app_nil_r.
    - cbn [Pool.pool Pool.open Pool._decoders]. apply length_replicate. }
  destruct Hinv as [Hperm Hlen].
  assert (Hnd : NoDup (free ++ held)).
  { rewrite Hperm. apply NoDup_ListNoDup, List.seq_NoDup. }
  apply NoDup_app in Hnd as (Hfree & Hdisj & Hheld).
  split; [exact Hperm|]. split; [exact Hheld|]. split; [exact Hfree|].
  split; [intros i Hi Hf; exact (Hdisj i Hf Hi)|].
  split; [|exact Hlen].
  apply Permutation_length in Hperm.
  rewrite length_app, length_seq in Hperm. subst held.
  rewrite length_map in Hperm. lia.
Qed.

Lemma pool_never_shares_a_decoder_witness :
  exists st,
    Pool.pool_run [Pool.Enter 0; Pool.Enter 40; Pool.Leave 1]
      (Pool.mkPoolState (Pool.open (VideoIO.sample_stream 3) 2) []) = Some st /\
    map fst (Pool.busy st) = [0%nat] /\
    Pool._free_decoders (Pool.pool st) = [1%nat] /\
    NoDup (map fst (Pool.busy st)).
Proof.
  destruct (Pool.pool_run [Pool.Enter 0; Pool.Enter 40; Pool.Leave 1]
              (Pool.mkPoolState (Pool.open (VideoIO.sample_stream 3) 2) []))
    as [st|] eqn:E; [|vm_compute in E; discriminate E].
  exists st. split; [reflexivity|].
  destruct (pool_never_shares_a_decoder _ _ _ _ E) as (_ & Hheld & _).
  vm_compute in E. injection E as <-.
  split; [reflexivity|]. split; [reflexivity | exact Hheld].
Defined.

(** ** The connection, continued *)

Section ConnectionLimits.
Implicit Types (c : Stream.connection) (e : Stream.event).

(** The bounds that hold of every state of a connection. *)
Lemma exec_limits e c c' :
  Stream.exec e c = Some c' ->
  (Queues.maxsize (Stream.request_queue c) = 32 /\
   Queues.qsize (Stream.request_queue c) <= 32 /\
   Z.of_nat (size (Stream.active_tasks c)) <= Stream.MAX_CONCURRENT_TASKS /\
   forall n, n ∈ Stream.active_tasks c <-> Stream.tasks c !! n = Some Stream.Running) ->
  Queues.maxsize (Stream.request_queue c') = 32 /\
  Queues.qsize (Stream.request_queue c') <= 32 /\
  Z.of_nat (size (Stream.active_tasks c')) <= Stream.MAX_CONCURRENT_TASKS /\
  forall n, n ∈ Stream.active_tasks c' <-> Stream.tasks c' !! n = Some Stream.Running.
Proof.
  destruct c as [q d p t a sq aw s st sa]. cbn.
  intros Hexec (Hmax & Hq & Ha & Hrun).
  destruct e as [r| | | |n res|n| |ok|]; cbn in Hexec.
  - (* Receive *)
    injection Hexec as <-.
    cbn [Stream.request_queue Stream.active_tasks Stream.tasks].
    rewrite put_nowait_maxsize.
    split; [exact Hmax|]. split; [|split; assumption].
    destruct q as [K l dc]. cbn in Hmax. subst K.
    unfold Queues.qsize, Queues.put_nowait in *. cbn in *.
    destruct (Z.leb_spec 32 (Z.of_nat (length l))); cbn;
      rewrite length_app, ?length_drop; cbn [length]; lia.
  - (* ProcessorGet *)
    destruct st; [discriminate|]. destruct p as [k|]; [discriminate|].
    destruct (Queues.get q) as [[r q']|] eqn:Eget; [|discriminate].
    injection Hexec as <-. cbn.
    destruct q as [K [|x l] dc]; [discriminate|]. cbn in Eget.
    injection Eget as <- <-. cbn in *. unfold Queues.qsize in *. cbn in *.
    split; [exact Hmax|]. split; [lia|]. split; assumption.
  - (* ProcessorSpawn *)
    destruct p as [k|]; [|discriminate].
    destruct (Z.leb_spec Stream.MAX_CONCURRENT_TASKS (Z.of_nat (size a)));
      [discriminate|].
    injection Hexec as <-. cbn. split; [exact Hmax|]. split; [exact Hq|]. split.
    + rewrite size_union_alt, size_singleton.
      assert (size (a ∖ {[k]}) <= size a)%nat
        by (apply subseteq_size, subseteq_difference_l; reflexivity).
      lia.
    + intros n. rewrite elem_of_union, elem_of_singleton.
      destruct (decide (n = k)) as [->|Hne].
      * rewrite lookup_insert_eq. split; [reflexivity | now left].
      * rewrite lookup_insert_ne by congruence. rewrite <- Hrun. tauto.
  - (* ProcessorFault *)
    destruct p as [k|]; [|discriminate].
    injection Hexec as <-. cbn. repeat split; try assumption; apply Hrun.
  - (* TaskDone *)
    destruct (t !! n) as [[| |]|] eqn:Et; try discriminate.
    injection Hexec as <-. cbn. split; [exact Hmax|]. split; [exact Hq|]. split.
    + assert (size (a ∖ {[n]}) <= size a)%nat
        by (apply subseteq_size, subseteq_difference_l; reflexivity).
      lia.
    + intros m. rewrite elem_of_difference, elem_of_singleton.
      destruct (decide (m = n)) as [->|Hne].
      * rewrite lookup_insert_eq. split; [tauto | discriminate].
      * rewrite lookup_insert_ne by congruence. rewrite <- Hrun. tauto.
  - (* TaskFailed *)
    destruct (t !! n) as [[| |]|] eqn:Et; try discriminate.
    injection Hexec as <-. cbn. split; [exact Hmax|]. split; [exact Hq|]. split.
    + assert (size (a ∖ {[n]}) <= size a)%nat
        by (apply subseteq_size, subseteq_difference_l; reflexivity).
      lia.
    + intros m. rewrite elem_of_difference, elem_of_singleton.
      destruct (decide (m = n)) as [->|Hne].
      * rewrite lookup_insert_eq. split; [tauto | discriminate].
      * rewrite lookup_insert_ne by congruence. rewrite <- Hrun. tauto.
  - (* SenderGet *)
    destruct (st || negb sa); [discriminate|].
    destruct aw as [k|]; [discriminate|]. destruct sq as [|n rest]; [discriminate|].
    injection Hexec as <-. cbn. repeat split; try assumption; apply Hrun.
  - (* SenderResult *)
    destruct aw as [n|]; [|discriminate].
    destruct (t !! n) as [[|[[|b bs]|]|]|] eqn:Et; try discriminate;
      try destruct ok; injection Hexec as <-; cbn;
      repeat split; try assumption; apply Hrun.
  - (* StopSet *)
    injection Hexec as <-. cbn. repeat split; try assumption; apply Hrun.
Qed.

End ConnectionLimits.

(** [X19] Bounded work per connection. Whatever the schedule, at every
    moment at most 16 pipeline tasks are running ([active_tasks] holds
    exactly the tasks that have not finished, and never more than
    [MAX_CONCURRENT_TASKS] of them), and the intake queue holds at most 32
    requests, however fast the client sends. *)
Theorem connection_work_is_bounded :
  forall (events : list Stream.event) (c : Stream.connection),
    Stream.run events Stream.connect = Some c ->
    Z.of_nat (size (Stream.active_tasks c)) <= 16 /\
    (forall n, n ∈ Stream.active_tasks c <-> Stream.tasks c !! n = Some Stream.Running) /\
    Queues.qsize (Stream.request_queue c) <= 32.
Proof.
  intros events c Hrun.
  assert (Hgen : forall c0,
             (Queues.maxsize (Stream.request_queue c0) = 32 /\
              Queues.qsize (Stream.request_queue c0) <= 32 /\
              Z.of_nat (size (Stream.active_tasks c0)) <= Stream.MAX_CONCURRENT_TASKS /\
              forall n, n ∈ Stream.active_tasks c0
                        <-> Stream.tasks c0 !! n = Some Stream.Running) ->
             Stream.run events c0 = Some c ->
             Queues.maxsize (Stream.request_queue c) = 32 /\
             Queues.qsize (Stream.request_queue c) <= 32 /\
             Z.of_nat (size (Stream.active_tasks c)) <= Stream.MAX_CONCURRENT_TASKS /\
             forall n, n ∈ Stream.active_tasks c
                       <-> Stream.tasks c !! n = Some Stream.Running).
  { clear Hrun. induction events as [|e rest IH]; intros c0 Hinv Hrun;
      cbn [Stream.run] in Hrun.
    - injection Hrun as <-. exact Hinv.
    - destruct (Stream.exec e c0) as [c1|] eqn:E; [|discriminate].
      exact (IH c1 (exec_limits e c0 c1 E Hinv) Hrun). }
  destruct (Hgen Stream.connect) as (_ & Hq & Ha & Hr); [|exact Hrun|].
  - cbn. split; [reflexivity|]. split; [unfold Queues.qsize; cbn; lia|].
    split; [rewrite size_empty; unfold Stream.MAX_CONCURRENT_TASKS; lia|].
    intros n. rewrite lookup_empty. split; [set_solver | discriminate].
  - split; [exact Ha|]. split; [exact Hr | exact Hq].
Qed.

Lemma connection_work_is_bounded_witness :
  exists c,
    Stream.run [Stream.Receive (Stream.mkRequest 0 None); Stream.ProcessorGet;
                Stream.ProcessorSpawn] Stream.connect = Some c /\
    Z.of_nat (size (Stream.active_tasks c)) <= 16 /\
    Stream.tasks c !! 0%nat = Some Stream.Running.
Proof.
  destruct (Stream.run [Stream.Receive (Stream.mkRequest 0 None);
                        Stream.ProcessorGet; Stream.ProcessorSpawn] Stream.connect)
    as [c|] eqn:E; [|vm_compute in E; discriminate E].
  exists c. split; [reflexivity|].
  destruct (connection_work_is_bounded _ c E) as (Ha & _ & _).
  split; [exact Ha|].
  vm_compute in E. injection E as <-. reflexivity.
Defined.

Section ConnectionShutdown.
Implicit Types (c : Stream.connection) (e : Stream.event).

(** A sender that has left its loop holds no task. *)
Lemma exec_sender_idle e c c' :
  Stream.exec e c = Some c' ->
  (Stream.sender_alive c = false -> Stream.awaiting c = None) ->
  (Stream.sender_alive c' = false -> Stream.awaiting c' = None).
Proof.
  destruct c as [q d p t a sq aw s st sa]. cbn. intros Hexec Hinv.
  destruct e as [r| | | |n res|n| |ok|]; cbn in Hexec.
  - injection Hexec as <-. exact Hinv.
  - destruct st; [discriminate|]. destruct p as [k|]; [discriminate|].
    destruct (Queues.get q) as [[r q']|]; [|discriminate].
    injection Hexec as <-. exact Hinv.
  - destruct p as [k|]; [|discriminate]. destruct (_ <=? _); [discriminate|].
    injection Hexec as <-. exact Hinv.
  - destruct p as [k|]; [|discriminate]. injection Hexec as <-. exact Hinv.
  - destruct (t !! n) as [[| |]|]; try discriminate.
    injection Hexec as <-. exact Hinv.
  - destruct (t !! n) as [[| |]|]; try discriminate.
    injection Hexec as <-. exact Hinv.
  - destruct st; [discriminate|]. destruct sa; [|discriminate]. cbn in Hexec.
    destruct aw as [k|]; [discriminate|]. destruct sq as [|n rest]; [discriminate|].
    injection Hexec as <-. cbn. discriminate.
  - destruct aw as [n|]; [|discriminate].
    destruct (t !! n) as [[|[[|b bs]|]|]|]; try discriminate;
      try destruct ok; injection Hexec as <-; cbn; reflexivity.
  - injection Hexec as <-. exact Hinv.
Qed.

Lemma exec_sender_gone e c c' :
  Stream.exec e c = Some c' ->
  Stream.sender_alive c = false -> Stream.awaiting c = None ->
  Stream.sender_alive c' = false /\ Stream.awaiting c' = None /\
  Stream.sent c' = Stream.sent c.
Proof.
  destruct c as [q d p t a sq aw s st sa]. cbn. intros Hexec -> ->.
  destruct e as [r| | | |n res|n| |ok|]; cbn in Hexec.
  - injection Hexec as <-. repeat split.
  - destruct st; [discriminate|]. destruct p as [k|]; [discriminate|].
    destruct (Queues.get q) as [[r q']|]; [|discriminate].
    injection Hexec as <-. repeat split.
  - destruct p as [k|]; [|discriminate]. destruct (_ <=? _); [discriminate|].
    injection Hexec as <-. repeat split.
  - destruct p as [k|]; [|discriminate]. injection Hexec as <-. repeat split.
  - destruct (t !! n) as [[| |]|]; try discriminate.
    injection Hexec as <-. repeat split.
  - destruct (t !! n) as [[| |]|]; try discriminate.
    injection Hexec as <-. repeat split.
  - destruct st; discriminate.
  - discriminate.
  - injection Hexec as <-. repeat split.
Qed.

Lemma exec_after_stop e c c' :
  Stream.exec e c = Some c' ->
  Stream.stop c = true ->
  Stream.stop c' = true /\
  Stream.dequeued c' = Stream.dequeued c /\
  Stream.sent c `prefix_of` Stream.sent c' /\
  (length (Stream.sent c') + length (option_list (Stream.awaiting c'))
   <= length (Stream.sent c) + length (option_list (Stream.awaiting c)))%nat.
Proof.
  destruct c as [q d p t a sq aw s st sa]. cbn. intros Hexec ->.
  destruct e as [r| | | |n res|n| |ok|]; cbn in Hexec.
  - injection Hexec as <-. cbn. repeat split; reflexivity.
  - discriminate.
  - destruct p as [k|]; [|discriminate]. destruct (_ <=? _); [discriminate|].
    injection Hexec as <-. cbn. repeat split; reflexivity.
  - destruct p as [k|]; [|discriminate]. injection Hexec as <-. cbn.
    repeat split; reflexivity.
  - destruct (t !! n) as [[| |]|]; try discriminate.
    injection Hexec as <-. cbn. repeat split; reflexivity.
  - destruct (t !! n) as [[| |]|]; try discriminate.
    injection Hexec as <-. cbn. repeat split; reflexivity.
  - discriminate.
  - destruct aw as [n|]; [|discriminate].
    destruct (t !! n) as [[|[[|b bs]|]|]|]; try discriminate;
      try destruct ok; injection Hexec as <-; cbn;
      (split; [reflexivity|]); (split; [reflexivity|]);
      (split; [first [reflexivity | apply prefix_app_r; reflexivity]|]);
      rewrite ?length_app; cbn [length]; lia.
  - injection Hexec as <-. cbn. repeat split; reflexivity.
Qed.

End ConnectionShutdown.

(** [X20] Shutdown. From any reachable state of a connection and for any
    continuation of the schedule: once the sender has left its loop after
    a failed send, nothing more is written to the channel; and once [stop]
    is set it stays set, the processor takes no further request from the
    intake queue, and the sender writes at most one more payload (the one
    whose task it was already awaiting), after the ones written before. *)
Theorem nothing_is_sent_after_shutdown :
  forall (before after : list Stream.event) (c c' : Stream.connection),
    Stream.run before Stream.connect = Some c ->
    Stream.run after c = Some c' ->
    (Stream.sender_alive c = false ->
     Stream.sent c' = Stream.sent c /\ Stream.sender_alive c' = false) /\
    (Stream.stop c = true ->
     Stream.stop c' = true /\
     Stream.dequeued c' = Stream.dequeued c /\
     Stream.sent c `prefix_of` Stream.sent c' /\
     (length (Stream.sent c') <= length (Stream.sent c) + 1)%nat).
Proof.
  intros before after c c' Hbefore Hafter.
  assert (Hidle : Stream.sender_alive c = false -> Stream.awaiting c = None).
  { assert (Hgen : forall c0,
               (Stream.sender_alive c0 = false -> Stream.awaiting c0 = None) ->
               Stream.run before c0 = Some c ->
               Stream.sender_alive c = false -> Stream.awaiting c = None).
    { clear Hbefore. induction before as [|e rest IH]; intros c0 Hinv Hrun;
        cbn [Stream.run] in Hrun.
      - injection Hrun as <-. exact Hinv.
      - destruct (Stream.exec e c0) as [c1|] eqn:E; [|discriminate].
        exact (IH c1 (exec_sender_idle e c0 c1 E Hinv) Hrun). }
    apply (Hgen Stream.connect); [cbn; discriminate | exact Hbefore]. }
  clear Hbefore. split.
  - intros Hdead. specialize (Hidle Hdead).
    revert c Hafter Hdead Hidle.
    induction after as [|e rest IH]; intros c Hrun Hdead Hidle;
      cbn [Stream.run] in Hrun.
    + injection Hrun as <-. split; [reflexivity | exact Hdead].
    + destruct (Stream.exec e c) as [c1|] eqn:E; [|discriminate].
      destruct (exec_sender_gone e c c1 E Hdead Hidle) as (Hd1 & Hi1 & Hs1).
      destruct (IH c1 Hrun Hd1 Hi1) as [Hs Hd]. split; [congruence | exact Hd].
  - clear Hidle. intros Hstop.
    assert (Hgen : Stream.stop c' = true /\
                   Stream.dequeued c' = Stream.dequeued c /\
                   Stream.sent c `prefix_of` Stream.sent c' /\
                   (length (Stream.sent c') + length (option_list (Stream.awaiting c'))
                    <= length (Stream.sent c)
                       + length (option_list (Stream.awaiting c)))%nat).
    { revert c Hafter Hstop.
      induction after as [|e rest IH]; intros c Hrun Hstop;
        cbn [Stream.run] in Hrun.
      - injection Hrun as <-. split; [exact Hstop|]. split; [reflexivity|].
        split; [reflexivity | lia].
      - destruct (Stream.exec e c) as [c1|] eqn:E; [|discriminate].
        destruct (exec_after_stop e c c1 E Hstop) as (Hst1 & Hd1 & Hp1 & Hl1).
        destruct (IH c1 Hrun Hst1) as (Hst & Hd & Hp & Hl).
        split; [exact Hst|]. split; [congruence|].
        split; [etransitivity; eassumption | lia]. }
    destruct Hgen as (Hst & Hd & Hp & Hl).
    split; [exact Hst|]. split; [exact Hd|]. split; [exact Hp|].
    destruct (Stream.awaiting c); cbn in Hl; lia.
Qed.

Lemma nothing_is_sent_after_shutdown_witness :
  exists c c',
    Stream.run [Stream.Receive (Stream.mkRequest 0 None); Stream.ProcessorGet;
                Stream.ProcessorSpawn; Stream.TaskDone 0 (Some [1]);
                Stream.SenderGet; Stream.StopSet] Stream.connect = Some c /\
    Stream.run [Stream.SenderResult true] c = Some c' /\
    Stream.stop c' = true /\
    (length (Stream.sent c') <= length (Stream.sent c) + 1)%nat.
Proof.
  destruct (Stream.run [Stream.Receive (Stream.mkRequest 0 None); Stream.ProcessorGet;
                        Stream.ProcessorSpawn; Stream.TaskDone 0 (Some [1]);
                        Stream.SenderGet; Stream.StopSet] Stream.connect)
    as [c|] eqn:E; [|vm_compute in E; discriminate E].
  destruct (Stream.run [Stream.SenderResult true] c) as [c'|] eqn:E';
    [|exfalso; vm_compute in E; injection E as <-; vm_compute in E';
      discriminate E'].
  exists c, c'. split; [reflexivity|]. split; [exact E'|].
  destruct (proj2 (nothing_is_sent_after_shutdown _ _ c c' E E'))
    as (Hst & _ & _ & Hl).
  - vm_compute in E. injection E as <-. reflexivity.
  - split; [exact Hst | exact Hl].
Defined.

(** ** The statistics collector *)

Section StatsFacts.
Local Open Scope Q_scope.

Lemma foldl_Qmin_le (l : list Q) : forall a,
  foldl Qmin a l <= a /\ Forall (fun y => foldl Qmin a l <= y) l.
Proof.
  induction l as [|y l IH]; intros a; cbn [foldl].
  - split; [apply Qle_refl | constructor].
  - destruct (IH (Qmin a y)) as [H1 H2].
    pose proof (Q.le_min_l a y). pose proof (Q.le_min_r a y).
    split; [lra|]. constructor; [lra | exact H2].
Qed.

Lemma foldl_Qmax_ge (l : list Q) : forall a,
  a <= foldl Qmax a l /\ Forall (fun y => y <= foldl Qmax a l) l.
Proof.
  induction l as [|y l IH]; intros a; cbn [foldl].
  - split; [apply Qle_refl | constructor].
  - destruct (IH (Qmax a y)) as [H1 H2].
    pose proof (Q.le_max_l a y). pose proof (Q.le_max_r a y).
    split; [lra|]. constructor; [lra | exact H2].
Qed.

Lemma np_min_max_bound (arr : list Q) :
  Forall (fun v => Stats.np_min arr <= v /\ v <= Stats.np_max arr) arr.
Proof.
  destruct arr as [|x rest]; [constructor|].
  cbn [Stats.np_min Stats.np_max].
  destruct (foldl_Qmin_le rest x) as [H1 H2].
  destruct (foldl_Qmax_ge rest x) as [H3 H4].
  constructor; [split; assumption|].
  rewrite Forall_forall in *. intros v Hv. split; [apply H2 | apply H4]; exact Hv.
Qed.

Lemma np_sum_bounds (a b : Q) (arr : list Q) :
  Forall (fun v => a <= v /\ v <= b) arr ->
  inject_Z (Z.of_nat (length arr)) * a <= Stats.np_sum arr /\
  Stats.np_sum arr <= inject_Z (Z.of_nat (length arr)) * b.
Proof.
  induction 1 as [|v l [Hv1 Hv2] Hl IH]; cbn [Stats.np_sum foldr length].
  - change (inject_Z (Z.of_nat 0)) with 0. split; lra.
  - fold (Stats.np_sum l). rewrite Nat2Z.inj_succ, <- Z.add_1_r, inject_Z_plus.
    change (inject_Z 1) with 1. destruct IH. split; lra.
Qed.

Lemma np_mean_between (a b : Q) (arr : list Q) :
  arr <> [] ->
  Forall (fun v => a <= v /\ v <= b) arr ->
  a <= Stats.np_mean arr /\ Stats.np_mean arr <= b /\
  Stats.np_mean arr * inject_Z (Z.of_nat (length arr)) == Stats.np_sum arr.
Proof.
  intros Hne Hall. destruct (np_sum_bounds a b arr Hall) as [H1 H2].
  unfold Stats.np_mean.
  assert (Hn : 0 < inject_Z (Z.of_nat (length arr))).
  { change 0 with (inject_Z 0). rewrite <- Zlt_Qlt.
    destruct arr; [contradiction | cbn [length]; lia]. }
  split; [apply Qle_shift_div_l; lra|].
  split; [apply Qle_shift_div_r; lra|].
  field. lra.
Qed.

Lemma insert_sorted_perm (x : Q) (l : list Q) : Stats.insert_sorted x l ≡ₚ x :: l.
Proof.
  induction l as [|y l IH]; cbn [Stats.insert_sorted]; [reflexivity|].
  destruct (Qle_bool x y); [reflexivity|].
  rewrite IH. apply Permutation_swap.
Qed.

Lemma np_sort_perm (arr : list Q) : Stats.np_sort arr ≡ₚ arr.
Proof.
  induction arr as [|x l IH]; [reflexivity|].
  cbn [Stats.np_sort foldr]. fold (Stats.np_sort l).
  rewrite insert_sorted_perm, IH. reflexivity.
Qed.

Lemma np_percentile_between (a b : Q) (arr : list Q) (q : Q) :
  arr <> [] ->
  0 <= q <= 100 ->
  Forall (fun v => a <= v /\ v <= b) arr ->
  a <= Stats.np_percentile arr q /\ Stats.np_percentile arr q <= b.
Proof.
  intros Hne Hq Hall. unfold Stats.np_percentile.
  set (n := Z.of_nat (length arr)).
  assert (Hn : (1 <= n)%Z) by (subst n; destruct arr; [contradiction | cbn [length]; lia]).
  set (vi := q / 100 * inject_Z (n - 1)).
  assert (Hn1 : 0 <= inject_Z (n - 1)).
  { change 0 with (inject_Z 0). rewrite <- Zle_Qle. lia. }
  assert (Hq1 : 0 <= q / 100 /\ q / 100 <= 1).
  { unfold Qdiv. change (/ 100) with (1 # 100). split; lra. }
  assert (Hvi : inject_Z 0 <= vi /\ vi <= inject_Z (n - 1)).
  { change (inject_Z 0) with 0. unfold vi. split; nra. }
  assert (Hlo : (0 <= Qfloor vi <= n - 1)%Z).
  { split.
    - change 0%Z with (Qfloor (inject_Z 0)). apply Qfloor_resp_le. tauto.
    - rewrite <- (Qfloor_Z (n - 1)). apply Qfloor_resp_le. tauto. }
  pose proof (Qfloor_le vi) as Hg0. pose proof (Qlt_floor vi) as Hg1.
  rewrite inject_Z_plus in Hg1. change (inject_Z 1) with 1 in Hg1.
  set (lo := Qfloor vi) in *.
  set (gamma := vi - inject_Z lo).
  assert (Hgamma : 0 <= gamma /\ gamma <= 1) by (unfold gamma; split; lra).
  assert (Hlen : length (Stats.np_sort arr) = length arr)
    by (apply Permutation_length, np_sort_perm).
  assert (Hnth : forall k : Z, (0 <= k <= n - 1)%Z ->
             a <= nth (Z.to_nat k) (Stats.np_sort arr) 0 /\
             nth (Z.to_nat k) (Stats.np_sort arr) 0 <= b).
  { intros k Hk.
    assert (Hin : In (nth (Z.to_nat k) (Stats.np_sort arr) 0) (Stats.np_sort arr)).
    { apply nth_In. rewrite Hlen. subst n. lia. }
    apply list_elem_of_In in Hin.
    set (v := nth (Z.to_nat k) (Stats.np_sort arr) 0) in *. clearbody v.
    rewrite np_sort_perm in Hin.
    rewrite Forall_forall in Hall. exact (Hall _ Hin). }
  destruct (Hnth lo Hlo) as [Ha1 Ha2].
  destruct (Hnth (Z.min (lo + 1) (n - 1)) ltac:(lia)) as [Hb1 Hb2].
  split; nra.
Qed.

End StatsFacts.

Section CollectorFacts.
Local Open Scope string_scope.
Implicit Types (c : Stats.StatisticsCollector) (ops : list Stats.call).

(** What [add] has accumulated under a key. *)
Lemma data_run (key : string) ops : forall c,
  default [] (Stats._data (foldl Stats.run_call c ops) !! key)
  = (default [] (Stats._data c !! key) ++ Stats.added key ops)%list /\
  (Stats.added key ops <> [] \/ is_Some (Stats._data c !! key) ->
   is_Some (Stats._data (foldl Stats.run_call c ops) !! key)).
Proof.
  induction ops as [|op ops IH]; intros c; cbn [foldl Stats.added].
  - rewrite app_nil_r. split; [reflexivity|]. intros [H|H]; [contradiction | exact H].
  - destruct (IH (Stats.run_call c op)) as [IH1 IH2].
    destruct op as [k v|k v|k v]; cbn [Stats.run_call] in *.
    + unfold Stats.add in IH1, IH2 |- *. cbn [Stats._data] in IH1, IH2.
      destruct (String.eqb_spec k key) as [->|Hne].
      * rewrite lookup_insert_eq in IH1, IH2.
        change (default [] (Some ?x)) with x in IH1.
        rewrite IH1, <- app_assoc. split; [reflexivity|].
        intros _. apply IH2. right. eauto.
      * rewrite lookup_insert_ne in IH1, IH2 by exact Hne.
        split; assumption.
    + split; assumption.
    + split; assumption.
Qed.

Lemma counters_run (key : string) ops : forall c,
  Forall (fun op => Stats.counts key op = false) ops ->
  Stats._counters (foldl Stats.run_call c ops) !! key = Stats._counters c !! key.
Proof.
  induction ops as [|op ops IH]; intros c Hall; cbn [foldl]; [reflexivity|].
  apply Forall_cons in Hall as [Hop Hall]. rewrite (IH _ Hall).
  destruct op as [k v|k v|k v]; cbn [Stats.run_call Stats.counts] in *.
  - reflexivity.
  - cbn. apply lookup_insert_ne. intros ->. rewrite String.eqb_refl in Hop. discriminate.
  - cbn. apply lookup_insert_ne. intros ->. rewrite String.eqb_refl in Hop. discriminate.
Qed.

(** A snapshot entry before the throughput is added: a counter wins over a
    series of the same name. *)
Lemma snapshot_lookup c (k : string) :
  ((Stats.Gauge <$> Stats._counters c) ∪ omap Stats.series_of (Stats._data c)) !! k
  = match Stats._counters c !! k with
    | Some v => Some (Stats.Gauge v)
    | None => Stats._data c !! k ≫= Stats.series_of
    end.
Proof.
  rewrite lookup_union, lookup_fmap, lookup_omap.
  destruct (Stats._counters c !! k); cbn.
  - destruct (Stats._data c !! k ≫= Stats.series_of); reflexivity.
  - destruct (Stats._data c !! k ≫= Stats.series_of); reflexivity.
Qed.

End CollectorFacts.

(** [X21] A snapshot summarises what was added. After any calls on a new
    collector that include at least one [add] under [key] (a key other than
    ["fps"] that no counter call uses, with no counter named ["total_s"]),
    [get_snapshot_and_reset] returns, and its entry for [key] has as count
    the number of values added under the key, a minimum and a maximum that
    bound every added value, and an average and a 95th percentile between
    the two; the average times the count is the sum of the values. *)
Theorem snapshot_summarises_added_values :
  forall (start now : Q) (ops : list Stats.call) (key : string),
    Stats.added key ops <> [] ->
    key <> "fps"%string ->
    Forall (fun op => Stats.counts key op = false) ops ->
    Forall (fun op => Stats.counts "total_s" op = false) ops ->
    exists snapshot c' mn avg mx p95,
      Stats.get_snapshot_and_reset now (foldl Stats.run_call (Stats.init start) ops)
      = Stats.Returned snapshot c' /\
      snapshot !! key
      = Some (Stats.Series mn avg mx p95
                (Z.of_nat (length (Stats.added key ops)))) /\
      Forall (fun v => (mn <= v /\ v <= mx)%Q) (Stats.added key ops) /\
      (mn <= avg /\ avg <= mx)%Q /\
      (mn <= p95 /\ p95 <= mx)%Q /\
      (avg * inject_Z (Z.of_nat (length (Stats.added key ops)))
       == Stats.np_sum (Stats.added key ops))%Q.
Proof.
  intros start now ops key Hadded Hfps Hkey Htotal.
  set (c := foldl Stats.run_call (Stats.init start) ops).
  set (values := Stats.added key ops) in *.
  assert (Hdata : Stats._data c !! key = Some values).
  { destruct (data_run key ops (Stats.init start)) as [Hd Hs]. fold c in Hd, Hs.
    destruct (Hs (or_introl Hadded)) as [vs Hvs].
    rewrite Hvs in Hd |- *. change (default [] (Some vs)) with vs in Hd.
    cbn [Stats.init Stats._data] in Hd. rewrite lookup_empty in Hd.
    change (default [] None ++ values)%list with values in Hd.
    now rewrite Hd. }
  assert (Hck : Stats._counters c !! key = None).
  { unfold c. rewrite (counters_run key ops _ Hkey). apply lookup_empty. }
  assert (Hct : Stats._counters c !! "total_s"%string = None).
  { unfold c. rewrite (counters_run _ ops _ Htotal). apply lookup_empty. }
  pose proof (np_min_max_bound values) as Hbound.
  destruct (np_mean_between _ _ values Hadded Hbound) as (Hm1 & Hm2 & Hm3).
  destruct (np_percentile_between _ _ values 95 Hadded ltac:(split; discriminate)
              Hbound) as [Hp1 Hp2].
  assert (Hentry : ((Stats.Gauge <$> Stats._counters c)
                    ∪ omap Stats.series_of (Stats._data c)) !! key
                   = Some (Stats.Series (Stats.np_min values) (Stats.np_mean values)
                             (Stats.np_max values) (Stats.np_percentile values 95)
                             (Z.of_nat (length values)))).
  { rewrite snapshot_lookup, Hck, Hdata. cbn.
    destruct values; [contradiction | reflexivity]. }
  unfold Stats.get_snapshot_and_reset. cbv zeta.
  rewrite (snapshot_lookup c "total_s"), Hct.
  destruct (Stats._data c !! "total_s"%string ≫= Stats.series_of)
    as [[mn' avg' mx' p95' count'|v|f]|] eqn:Etotal.
  - eexists _, _, _, _, _, _. split; [reflexivity|].
    split; [rewrite lookup_insert_ne by congruence; exact Hentry|].
    split; [exact Hbound|]. split; [split; assumption|].
    split; [split; assumption | exact Hm3].
  - exfalso. destruct (Stats._data c !! "total_s"%string) as [[|x l]|];
      cbn in Etotal; discriminate.
  - exfalso. destruct (Stats._data c !! "total_s"%string) as [[|x l]|];
      cbn in Etotal; discriminate.
  - eexists _, _, _, _, _, _. split; [reflexivity|].
    split; [exact Hentry|].
    split; [exact Hbound|]. split; [split; assumption|].
    split; [split; assumption | exact Hm3].
Qed.

Lemma snapshot_summarises_added_values_witness :
  exists snapshot c' mn avg mx p95,
    Stats.get_snapshot_and_reset 10
      (foldl Stats.run_call (Stats.init 0)
         [Stats.Add "infer_s" (1 # 10); Stats.SetCounter "active_tasks" 2;
          Stats.Add "infer_s" (3 # 10)])
    = Stats.Returned snapshot c' /\
    snapshot !! "infer_s"%string = Some (Stats.Series mn avg mx p95 2) /\
    (mn <= avg /\ avg <= mx)%Q /\ (mn <= p95 /\ p95 <= mx)%Q.
Proof.
  destruct (snapshot_summarises_added_values 0 10
              [Stats.Add "infer_s" (1 # 10); Stats.SetCounter "active_tasks" 2;
               Stats.Add "infer_s" (3 # 10)] "infer_s")
    as (snapshot & c' & mn & avg & mx & p95 & Hret & Hentry & _ & Havg & Hp & _).
  - discriminate.
  - discriminate.
  - repeat constructor.
  - repeat constructor.
  - exists snapshot, c', mn, avg, mx, p95.
    split; [exact Hret|]. split; [exact Hentry|]. split; assumption.
Defined.

(** [X22] Reset and throughput. [get_snapshot_and_reset] raises (a
    [TypeError], the collector left as it was) exactly when a counter is
    named ["total_s"]. Otherwise it returns and leaves an empty collector
    whose clock starts at the time of the call, so that a second snapshot
    right after it is empty; and when values were added under ["total_s"]
    the snapshot carries their number divided by the time since the last
    reset under ["fps"], or 0 when no time has passed; without such values
    no throughput entry is made. *)
Theorem snapshot_resets_and_reports_throughput :
  forall (now : Q) (c : Stats.StatisticsCollector),
    match Stats.get_snapshot_and_reset now c with
    | Stats.RaisedTypeError c' =>
        c' = c /\ is_Some (Stats._counters c !! "total_s"%string)
    | Stats.Returned snapshot c' =>
        Stats._counters c !! "total_s"%string = None /\
        c' = Stats.init now /\
        (forall later,
            Stats.get_snapshot_and_reset later c' = Stats.Returned ∅ (Stats.init later)) /\
        match Stats._data c !! "total_s"%string with
        | Some (v :: vs) =>
            exists fps,
              snapshot !! "fps"%string = Some (Stats.Throughput fps) /\
              ((0 < now - Stats._start_time c)%Q ->
               fps = (inject_Z (Z.of_nat (length (v :: vs)))
                      / (now - Stats._start_time c))%Q) /\
              ((now - Stats._start_time c <= 0)%Q -> fps = 0%Q)
        | _ => forall k fps, snapshot !! k <> Some (Stats.Throughput fps)
        end
    end.
Proof.
  intros now c. unfold Stats.get_snapshot_and_reset. cbv zeta.
  rewrite (snapshot_lookup c "total_s").
  assert (Hreset : forall later,
             Stats.get_snapshot_and_reset later (Stats.init now)
             = Stats.Returned ∅ (Stats.init later)).
  { intros later. unfold Stats.get_snapshot_and_reset, Stats.init. cbv zeta.
    cbn [Stats._data Stats._counters].
    rewrite fmap_empty, omap_empty, (left_id_L ∅ (∪)), lookup_empty.
    reflexivity. }
  assert (Hnothru : forall k fps,
             ((Stats.Gauge <$> Stats._counters c)
              ∪ omap Stats.series_of (Stats._data c)) !! k
             <> Some (Stats.Throughput fps)).
  { intros k fps. rewrite snapshot_lookup.
    destruct (Stats._counters c !! k); [discriminate|].
    destruct (Stats._data c !! k) as [[|x l]|]; cbn; discriminate. }
  destruct (Stats._counters c !! "total_s"%string) as [g|] eqn:Ect.
  - split; [reflexivity | eauto].
  - destruct (Stats._data c !! "total_s"%string) as [[|v vs]|] eqn:Edata;
      cbn [mbind option_bind Stats.series_of].
    + split; [reflexivity|]. split; [reflexivity|]. split; [exact Hreset|].
      exact Hnothru.
    + split; [reflexivity|]. split; [reflexivity|]. split; [exact Hreset|].
      eexists. split; [apply lookup_insert_eq|]. split.
      * intros Hpos. apply Qlt_bool_true in Hpos. rewrite Hpos. reflexivity.
      * intros Hle. apply Qlt_bool_false in Hle. rewrite Hle. reflexivity.
    + split; [reflexivity|]. split; [reflexivity|]. split; [exact Hreset|].
      exact Hnothru.
Qed.

(** ** The predicted range and the target size *)

(** [X24] The downsampled size. For a frame of at least one pixel each way
    and a factor above 1, the target size of the pipeline is the frame's
    width and height divided by the factor and rounded down, but never
    below 1 and never above the frame's own size; it is the shape
    [downsample_depth] gives for the same factor. With a factor of 1 or
    less no target size is set and [downsample_depth] keeps the shape. *)
Theorem target_size_within_frame :
  forall (factor h w : Z),
    1 <= h -> 1 <= w ->
    match DepthOps.target_size factor h w with
    | None => factor <= 1 /\ DepthOps.downsample_shape factor h w = (h, w)
    | Some (target_w, target_h) =>
        1 < factor /\
        1 <= target_w <= w /\ 1 <= target_h <= h /\
        (target_w = 1 \/ target_w * factor <= w < (target_w + 1) * factor) /\
        (target_h = 1 \/ target_h * factor <= h < (target_h + 1) * factor) /\
        DepthOps.downsample_shape factor h w = (target_h, target_w)
    end.
Proof.
  intros factor h w Hh Hw. unfold DepthOps.target_size, DepthOps.downsample_shape.
  destruct (Z.ltb_spec 1 factor) as [Hf|Hf].
  - destruct (Z.leb_spec factor 1); [lia|].
    assert (Hdw : 0 <= w / factor <= w).
    { split; [apply Z.div_pos; lia|]. apply Z.div_le_upper_bound; nia. }
    assert (Hdh : 0 <= h / factor <= h).
    { split; [apply Z.div_pos; lia|]. apply Z.div_le_upper_bound; nia. }
    pose proof (Z.mul_div_le w factor ltac:(lia)).
    pose proof (Z.mul_succ_div_gt w factor ltac:(lia)).
    pose proof (Z.mul_div_le h factor ltac:(lia)).
    pose proof (Z.mul_succ_div_gt h factor ltac:(lia)).
    split; [exact Hf|]. split; [lia|]. split; [lia|].
    split; [|split; [|reflexivity]].
    + destruct (Z.max_spec 1 (w / factor)) as [[? ->]|[? ->]]; [right; nia | left; reflexivity].
    + destruct (Z.max_spec 1 (h / factor)) as [[? ->]|[? ->]]; [right; nia | left; reflexivity].
  - destruct (Z.leb_spec factor 1); [|lia]. split; [lia | reflexivity].
Qed.

Lemma target_size_within_frame_witness :
  DepthOps.target_size 4 360 640 = Some (160, 90) /\
  DepthOps.downsample_shape 4 360 640 = (90, 160).
Proof.
  pose proof (target_size_within_frame 4 360 640 ltac:(lia) ltac:(lia)) as H.
  destruct (DepthOps.target_size 4 360 640) as [[tw th]|] eqn:E;
    [|vm_compute in E; discriminate E].
  destruct H as (_ & _ & _ & _ & _ & Hshape).
  vm_compute in E. injection E as <- <-. split; [reflexivity | exact Hshape].
Defined.

(** ** The adaptive controller under any configuration *)

Section ControllerAnyConfig.
Local Open Scope string_scope.
Local Open Scope Z_scope.
Variable settings : Config.Settings.
Implicit Types (s : Session.VideoSession).

Lemma quality_steps_cases :
  (320 <= Config.depth_process_res settings /\
   Session.quality_steps settings
   = filter (fun x => x <= Config.depth_process_res settings) Session.all_steps) \/
  (Config.depth_process_res settings < 320 /\
   Session.quality_steps settings = [Config.depth_process_res settings]).
Proof.
  destruct (Z.le_gt_cases 320 (Config.depth_process_res settings)) as [Hge|Hlt].
  - left. split; [exact Hge|]. unfold Session.quality_steps.
    assert (Hin : 320 ∈ filter (fun x => x <= Config.depth_process_res settings)
                          Session.all_steps).
    { apply list_elem_of_filter. split; [exact Hge|].
      unfold Session.all_steps. do 6 apply list_elem_of_further.
      apply list_elem_of_here. }
    destruct (filter _ Session.all_steps) as [|x l]; [|reflexivity].
    apply elem_of_nil in Hin. contradiction.
  - right. split; [exact Hlt | exact (quality_steps_single settings Hlt)].
Qed.

Lemma quality_steps_nonempty : Session.quality_steps settings <> [].
Proof.
  unfold Session.quality_steps.
  destruct (filter _ Session.all_steps); discriminate.
Qed.

Lemma min_by_distance_in (c d : Z) (steps : list Z) :
  steps <> [] -> Session.min_by_distance c d steps ∈ steps.
Proof.
  induction steps as [|x rest IH]; [contradiction|]. intros _.
  cbn [Session.min_by_distance]. destruct rest as [|y rest'].
  - apply list_elem_of_here.
  - destruct (_ <=? _); [apply list_elem_of_here|].
    apply list_elem_of_further, IH. discriminate.
Qed.

(** Whatever the session holds: an initialising write is of the configured
    resolution, and a change goes to one of the steps. *)
Lemma adjust_quality_writes_any s :
  forall w, w ∈ (Session.adjust_quality settings s).2 ->
    w = Session.InitWrite (Config.depth_process_res settings) \/
    exists cur new,
      w = Session.ChangeWrite cur new /\ new ∈ Session.quality_steps settings.
Proof.
  unfold Session.adjust_quality.
  destruct (Z.ltb_spec 0 (Session._quality_cooldown s)) as [Hpos|Hz].
  { cbn. intros w Hw. apply elem_of_nil in Hw. contradiction. }
  set (steps := Session.quality_steps settings).
  assert (Hnew : forall c : Z,
             let i := Session.index_of
                        (Session.min_by_distance c
                           (Config.depth_process_res settings) steps) steps in
             forall new_idx : nat,
               new_idx = i \/
               (new_idx = (i + 1)%nat /\ (i + 1 < length steps)%nat) \/
               (new_idx = (i - 1)%nat /\ (0 < i)%nat) ->
               default 0 (steps !! new_idx) ∈ steps).
  { intros c i new_idx Hcase.
    pose proof (index_of_member _ steps
                  (min_by_distance_in c (Config.depth_process_res settings) steps
                     quality_steps_nonempty)) as Hidx.
    fold i in Hidx. pose proof (lookup_lt_Some _ _ _ Hidx) as Hi.
    destruct (lookup_lt_is_Some_2 steps new_idx) as [r Hr];
      [destruct Hcase as [->|[[-> ?]|[-> ?]]]; lia|].
    rewrite Hr. eapply list_elem_of_lookup_2. exact Hr. }
  assert (Hidx_cases : forall (i n : nat) (b1 b2 : bool),
             (if b1 then (if (i <? n - 1)%nat then (i + 1)%nat else i)
              else if b2 then (if (0 <? i)%nat then (i - 1)%nat else i) else i) = i \/
             ((if b1 then (if (i <? n - 1)%nat then (i + 1)%nat else i)
               else if b2 then (if (0 <? i)%nat then (i - 1)%nat else i) else i)
              = (i + 1)%nat /\ (i + 1 < n)%nat) \/
             ((if b1 then (if (i <? n - 1)%nat then (i + 1)%nat else i)
               else if b2 then (if (0 <? i)%nat then (i - 1)%nat else i) else i)
              = (i - 1)%nat /\ (0 < i)%nat)).
  { intros i n b1 b2. destruct b1.
    - destruct (Nat.ltb_spec i (n - 1)); [right; left; lia | left; reflexivity].
    - destruct b2; [|left; reflexivity].
      destruct (Nat.ltb_spec 0 i); [right; right; lia | left; reflexivity]. }
  destruct (Session.telemetry s !! "quality_process_res") as [q|]; cbv zeta.
  - match goal with
    | |- context [default 0 (steps !! ?n) =? ?c] =>
        pose proof (Hnew c n (Hidx_cases _ _ _ _)) as Hin;
        destruct (default 0 (steps !! n) =? c)
    end; cbn [snd]; intros w Hw.
    + apply elem_of_nil in Hw. contradiction.
    + apply list_elem_of_singleton in Hw as ->. right. eauto.
  - match goal with
    | |- context [default 0 (steps !! ?n) =? ?c] =>
        pose proof (Hnew c n (Hidx_cases _ _ _ _)) as Hin;
        destruct (default 0 (steps !! n) =? c)
    end; cbn [snd]; intros w Hw.
    + apply list_elem_of_singleton in Hw as ->. left. reflexivity.
    + apply elem_of_cons in Hw as [->|Hw]; [left; reflexivity|].
      apply list_elem_of_singleton in Hw as ->. right. eauto.
Qed.

End ControllerAnyConfig.

Section ControllerFromSteps.
Local Open Scope string_scope.
Local Open Scope Z_scope.
Variable settings : Config.Settings.
Implicit Types (s : Session.VideoSession).

(** The call on an initialised session, for any stored resolution [c]. *)
Lemma adjust_quality_eval_any s c :
  Session.telemetry s !! "quality_process_res" = Some (inject_Z c) ->
  Session._quality_cooldown s <= 0 ->
  let steps := Session.quality_steps settings in
  let rs := Session.rolling_stats s in
  let i := Session.index_of
             (Session.min_by_distance c (Config.depth_process_res settings) steps)
             steps in
  let new_idx :=
    if Py.Qlt_bool (1 # 5) (Session.stat rs "infer_avg_s")
       || Py.Qlt_bool (3 # 10) (Session.stat rs "queue_avg_s")
       || Py.Qlt_bool 500 (Session.stat rs "latency_ms")
    then (if (i <? length steps - 1)%nat then (i + 1)%nat else i)
    else if Py.Qlt_bool (Session.stat rs "infer_avg_s") (2 # 25)
            && Py.Qlt_bool (Session.stat rs "queue_avg_s") (1 # 10)
            && Py.Qlt_bool (Session.stat rs "latency_ms") 200
    then (if (0 <? i)%nat then (i - 1)%nat else i)
    else i in
  let new_res := default 0 (steps !! new_idx) in
  Session.adjust_quality settings s
  = if new_res =? c
    then (Session.mkVideoSession (Session.depth_buffer s)
            (Session.last_depth_time_ms s) (Session.telemetry s)
            (Session.rolling_stats s) (Session._quality_cooldown s), [])
    else (Session.mkVideoSession (Session.depth_buffer s)
            (Session.last_depth_time_ms s)
            (<["quality_process_res" := inject_Z new_res]> (Session.telemetry s))
            (Session.rolling_stats s) 60,
          [Session.ChangeWrite c new_res]).
Proof.
  intros Hlook Hcd steps rs i new_idx new_res.
  subst new_res new_idx i rs. unfold Session.adjust_quality.
  destruct (Z.ltb_spec 0 (Session._quality_cooldown s)) as [Hpos|_]; [lia|].
  rewrite Hlook. cbn zeta. rewrite Hlook.
  change (default 0%Q (Some (inject_Z c))) with (inject_Z c).
  rewrite int_of_float_inject_Z. reflexivity.
Qed.

(** A session that holds one of the steps keeps holding one, and changes
    from it by one position. *)
Lemma adjust_quality_settled s v :
  Session.telemetry s !! "quality_process_res" = Some (inject_Z v) ->
  v ∈ Session.quality_steps settings ->
  (exists v',
      Session.telemetry (Session.adjust_quality settings s).1
        !! "quality_process_res" = Some (inject_Z v') /\
      v' ∈ Session.quality_steps settings) /\
  forall w, w ∈ (Session.adjust_quality settings s).2 ->
    exists new,
      w = Session.ChangeWrite v new /\
      new ∈ Session.quality_steps settings /\
      Session.one_step (Session.quality_steps settings) v new.
Proof.
  intros Hlook Hv.
  destruct (Z.ltb_spec 0 (Session._quality_cooldown s)) as [Hpos|Hcd].
  { unfold Session.adjust_quality.
    destruct (Z.ltb_spec 0 (Session._quality_cooldown s)); [|lia].
    cbn [fst snd Session.telemetry]. split; [eauto|].
    intros w Hw. apply elem_of_nil in Hw. contradiction. }
  rewrite (adjust_quality_eval settings s v Hlook Hcd Hv). cbv zeta.
  set (steps := Session.quality_steps settings) in *.
  pose proof (index_of_member v steps Hv) as Hidx.
  set (i := Session.index_of v steps) in *.
  pose proof (lookup_lt_Some _ _ _ Hidx) as Hi.
  match goal with
  | |- context [default 0 (steps !! ?n)] => set (new_idx := n)
  end.
  assert (Hnew : new_idx = i \/
                 (new_idx = (i + 1)%nat /\ (i + 1 < length steps)%nat) \/
                 (new_idx = (i - 1)%nat /\ (0 < i)%nat)).
  { subst new_idx. destruct (_ || _ || _).
    - destruct (Nat.ltb_spec i (length steps - 1)); [right; left; lia | left; reflexivity].
    - destruct (_ && _ && _); [|left; reflexivity].
      destruct (Nat.ltb_spec 0 i); [right; right; lia | left; reflexivity]. }
  destruct (lookup_lt_is_Some_2 steps new_idx) as [r Hr];
    [destruct Hnew as [->|[[-> ?]|[-> ?]]]; lia|].
  rewrite Hr. change (default 0 (Some r)) with r.
  assert (Hr_in : r ∈ steps) by (eapply list_elem_of_lookup_2; exact Hr).
  destruct (Z.eqb_spec r v) as [->|Hne]; cbn [fst snd Session.telemetry].
  - split; [eauto|]. intros w Hw. apply elem_of_nil in Hw. contradiction.
  - split; [rewrite lookup_insert_eq; eauto|].
    intros w Hw. apply list_elem_of_singleton in Hw as ->.
    exists r. split; [reflexivity|]. split; [exact Hr_in|].
    exists i. split; [exact Hidx|].
    destruct Hnew as [Heq|[[Heq ?]|[Heq ?]]].
    + exfalso. rewrite Heq, Hidx in Hr. congruence.
    + left. rewrite <- Heq. exact Hr.
    + right. split; [assumption|]. rewrite <- Heq. exact Hr.
Qed.

(** The first call on a session without [quality_process_res]: the
    configured resolution is written, and left by one position when it is
    one of the steps, or for one of the steps when it is not. *)
Lemma adjust_quality_first s :
  Session.telemetry s !! "quality_process_res" = None ->
  Session._quality_cooldown s <= 0 ->
  (exists v',
      Session.telemetry (Session.adjust_quality settings s).1
        !! "quality_process_res" = Some (inject_Z v') /\
      v' ∈ Session.quality_steps settings) /\
  forall w, w ∈ (Session.adjust_quality settings s).2 ->
    w = Session.InitWrite (Config.depth_process_res settings) \/
    exists new,
      w = Session.ChangeWrite (Config.depth_process_res settings) new /\
      new ∈ Session.quality_steps settings /\
      (Config.depth_process_res settings ∈ Session.quality_steps settings ->
       Session.one_step (Session.quality_steps settings)
         (Config.depth_process_res settings) new).
Proof.
  intros Hnone Hcd. rewrite (adjust_quality_init settings s Hnone Hcd).
  cbn [fst snd].
  set (s1 := Session.mkVideoSession (Session.depth_buffer s)
               (Session.last_depth_time_ms s)
               (<["quality_process_res" :=
                    inject_Z (Config.depth_process_res settings)]>
                  (Session.telemetry s))
               (Session.rolling_stats s) (Session._quality_cooldown s)).
  assert (Hlook1 : Session.telemetry s1 !! "quality_process_res"
                   = Some (inject_Z (Config.depth_process_res settings)))
    by apply lookup_insert_eq.
  destruct (decide (Config.depth_process_res settings
                    ∈ Session.quality_steps settings)) as [Hin|Hout].
  - destruct (adjust_quality_settled s1 _ Hlook1 Hin) as [Hset Hw].
    split; [exact Hset|].
    intros w Hwin. apply elem_of_cons in Hwin as [->|Hwin]; [left; reflexivity|].
    right. destruct (Hw w Hwin) as (new & -> & Hnew & Hstep).
    exists new. split; [reflexivity|]. split; [exact Hnew|]. intros _. exact Hstep.
  - pose proof (adjust_quality_writes_any settings s1) as Hany.
    rewrite (adjust_quality_eval_any s1 _ Hlook1 Hcd) in Hany |- *.
    cbv zeta in Hany |- *.
    match goal with
    | |- context [default 0 (?st !! ?n) =? ?c] =>
        set (new_res := default 0 (st !! n)) in *
    end.
    destruct (Z.eqb_spec new_res (Config.depth_process_res settings)) as [Heq|Hne];
      cbn [fst snd Session.telemetry] in Hany |- *.
    + exfalso. apply Hout. rewrite <- Heq.
      subst new_res. clear Hany Heq.
      match goal with
      | |- default 0 (?st !! ?n) ∈ _ =>
          assert (Hlt : (n < length st)%nat)
      end.
      { pose proof (index_of_member _ _
                      (min_by_distance_in (Config.depth_process_res settings)
                         (Config.depth_process_res settings) _
                         (quality_steps_nonempty settings))) as Hidx.
        pose proof (lookup_lt_Some _ _ _ Hidx) as Hi.
        destruct (_ || _ || _).
        - destruct (Nat.ltb_spec
                      (Session.index_of
                         (Session.min_by_distance (Config.depth_process_res settings)
                            (Config.depth_process_res settings)
                            (Session.quality_steps settings))
                         (Session.quality_steps settings))
                      (length (Session.quality_steps settings) - 1)); lia.
        - destruct (_ && _ && _); [|lia].
          destruct (Nat.ltb_spec 0
                      (Session.index_of
                         (Session.min_by_distance (Config.depth_process_res settings)
                            (Config.depth_process_res settings)
                            (Session.quality_steps settings))
                         (Session.quality_steps settings))); lia. }
      destruct (lookup_lt_is_Some_2 _ _ Hlt) as [r Hr]. rewrite Hr.
      eapply list_elem_of_lookup_2. exact Hr.
    + assert (Hnew : new_res ∈ Session.quality_steps settings).
      { destruct (Hany _ (list_elem_of_here _ _)) as [Hbad|(cur & new & Hw & Hin)];
          [discriminate|].
        injection Hw as _ <-. exact Hin. }
      split; [rewrite lookup_insert_eq; eauto|].
      intros w Hwin. apply elem_of_cons in Hwin as [->|Hwin]; [left; reflexivity|].
      apply list_elem_of_singleton in Hwin as ->. right.
      exists new_res. split; [reflexivity|]. split; [exact Hnew|].
      intros Hin. contradiction.
Qed.

End ControllerFromSteps.

Section ControllerRunsAnyConfig.
Local Open Scope string_scope.
Local Open Scope Z_scope.
Variable settings : Config.Settings.
Implicit Types (s : Session.VideoSession) (metrics : Session.metrics_dict).

Local Abbreviation settled := (Session.settled (Session.quality_steps settings)).

Lemma update_telemetry_settled metrics s :
  "quality_process_res" ∉ map fst metrics ->
  settled s ->
  settled (Session.update_telemetry settings metrics s).1 /\
  forall w, w ∈ (Session.update_telemetry settings metrics s).2 ->
    exists cur new,
      w = Session.ChangeWrite cur new /\
      new ∈ Session.quality_steps settings /\
      cur ∈ Session.quality_steps settings /\
      Session.one_step (Session.quality_steps settings) cur new.
Proof.
  intros Hkey (v & Hlook & Hv). unfold Session.update_telemetry.
  match goal with
  | |- context [Session.adjust_quality settings ?s1] =>
      destruct (adjust_quality_settled settings s1 v) as [Hset Hw]
  end.
  - cbn [Session.telemetry].
    rewrite (telemetry_update_other metrics _ _ Hkey). exact Hlook.
  - exact Hv.
  - split; [exact Hset|].
    intros w Hin. destruct (Hw w Hin) as (new & -> & Hnew & Hstep).
    exists v, new. auto.
Qed.

Lemma run_updates_settled updates s :
  (forall metrics, metrics ∈ updates -> "quality_process_res" ∉ map fst metrics) ->
  settled s ->
  forall ws w, ws ∈ (Session.run_updates settings updates s).2 -> w ∈ ws ->
    exists cur new,
      w = Session.ChangeWrite cur new /\
      new ∈ Session.quality_steps settings /\
      cur ∈ Session.quality_steps settings /\
      Session.one_step (Session.quality_steps settings) cur new.
Proof.
  revert s. induction updates as [|m rest IH]; intros s Hkeys Hset ws w Hws Hw.
  - cbn in Hws. apply elem_of_nil in Hws. contradiction.
  - rewrite run_updates_cons in Hws. cbn [snd] in Hws.
    destruct (update_telemetry_settled m s
                (Hkeys m (list_elem_of_here _ _)) Hset) as [Hset1 Hw1].
    apply elem_of_cons in Hws as [->|Hws].
    + exact (Hw1 w Hw).
    + apply (IH (Session.update_telemetry settings m s).1) with (ws := ws);
        [|exact Hset1|exact Hws|exact Hw].
      intros metrics Hin. apply Hkeys. now apply list_elem_of_further.
Qed.

Lemma update_telemetry_first metrics s :
  "quality_process_res" ∉ map fst metrics ->
  Session.telemetry s !! "quality_process_res" = None ->
  Session._quality_cooldown s <= 0 ->
  settled (Session.update_telemetry settings metrics s).1 /\
  forall w, w ∈ (Session.update_telemetry settings metrics s).2 ->
    w = Session.InitWrite (Config.depth_process_res settings) \/
    exists new,
      w = Session.ChangeWrite (Config.depth_process_res settings) new /\
      new ∈ Session.quality_steps settings /\
      (Config.depth_process_res settings ∈ Session.quality_steps settings ->
       Session.one_step (Session.quality_steps settings)
         (Config.depth_process_res settings) new).
Proof.
  intros Hkey Hnone Hcd. unfold Session.update_telemetry.
  match goal with
  | |- context [Session.adjust_quality settings ?s1] =>
      apply (adjust_quality_first settings s1)
  end.
  - cbn [Session.telemetry].
    rewrite (telemetry_update_other metrics _ _ Hkey). exact Hnone.
  - exact Hcd.
Qed.

Lemma run_updates_writes_any updates s :
  forall ws w, ws ∈ (Session.run_updates settings updates s).2 -> w ∈ ws ->
    w = Session.InitWrite (Config.depth_process_res settings) \/
    exists cur new,
      w = Session.ChangeWrite cur new /\ new ∈ Session.quality_steps settings.
Proof.
  revert s. induction updates as [|m rest IH]; intros s ws w Hws Hw.
  - cbn in Hws. apply elem_of_nil in Hws. contradiction.
  - rewrite run_updates_cons in Hws. cbn [snd] in Hws.
    apply elem_of_cons in Hws as [->|Hws].
    + unfold Session.update_telemetry in Hw.
      eapply adjust_quality_writes_any. exact Hw.
    + eapply IH; eassumption.
Qed.

Lemma run_updates_from_new updates :
  (forall metrics, metrics ∈ updates -> "quality_process_res" ∉ map fst metrics) ->
  forall (i : nat) ws w,
    (Session.run_updates settings updates Session.new_session).2 !! i = Some ws ->
    w ∈ ws ->
    (i = 0%nat /\ w = Session.InitWrite (Config.depth_process_res settings)) \/
    exists cur new,
      w = Session.ChangeWrite cur new /\
      new ∈ Session.quality_steps settings /\
      ((cur ∈ Session.quality_steps settings /\
        Session.one_step (Session.quality_steps settings) cur new) \/
       (i = 0%nat /\ cur = Config.depth_process_res settings /\
        Config.depth_process_res settings ∉ Session.quality_steps settings)).
Proof.
  intros Hkeys i ws w Hi Hw.
  destruct updates as [|m rest]; [discriminate|].
  rewrite run_updates_cons in Hi. cbn [snd] in Hi.
  destruct (update_telemetry_first m Session.new_session
              (Hkeys m (list_elem_of_here _ _))) as [Hset Hfirst].
  { cbn [Session.telemetry Session.new_session]. apply lookup_empty. }
  { cbn. lia. }
  destruct i as [|i]; cbn in Hi.
  - injection Hi as <-.
    destruct (Hfirst w Hw) as [->|(new & -> & Hnew & Hstep)]; [left; auto|].
    right. exists (Config.depth_process_res settings), new.
    split; [reflexivity|]. split; [exact Hnew|].
    destruct (decide (Config.depth_process_res settings
                      ∈ Session.quality_steps settings)) as [Hin|Hout].
    + left. auto.
    + right. auto.
  - right.
    destruct (run_updates_settled rest _
                (fun metrics Hin => Hkeys metrics (list_elem_of_further _ _ _ Hin))
                Hset ws w (list_elem_of_lookup_2 _ _ _ Hi) Hw)
      as (cur & new & -> & Hnew & Hcur & Hstep).
    exists cur, new. auto.
Qed.

End ControllerRunsAnyConfig.

(** [C5], as the code has it. Take any configuration and any sequence of
    telemetry updates on a new session, and let [steps] be what the
    controller moves on: the entries of [[960, 720, 640, 512, 480, 384, 320]]
    that are at most the configured [depth_process_res], or the one-entry
    list of [depth_process_res] when that is below 320. Then:
    - two changes of [quality_process_res] are separated by at least 60
      updates;
    - every write is the initial write of the configured [depth_process_res]
      or a change to an entry of [steps];
    - when no telemetry update carries the key [quality_process_res], the
      initial write happens in the first update only, and every change
      moves from an entry of [steps] to a neighbour of it on [steps], except
      a change in the first update that leaves a configured
      [depth_process_res] which is not an entry of [steps]. *)
Theorem controller_writes_steps_one_step_cooldown :
  forall (settings : Config.Settings) (updates : list Session.metrics_dict),
    let max_res := Config.depth_process_res settings in
    let steps := Session.quality_steps settings in
    let logs := (Session.run_updates settings updates Session.new_session).2 in
    ((320 <= max_res /\
      steps = filter (fun x => x <= max_res) Session.all_steps) \/
     (max_res < 320 /\ steps = [max_res])) /\
    (forall (i j : nat) wi wj cur new cur' new',
        (i < j)%nat -> logs !! i = Some wi -> logs !! j = Some wj ->
        Session.ChangeWrite cur new ∈ wi -> Session.ChangeWrite cur' new' ∈ wj ->
        (i + 60 < j)%nat) /\
    (forall ws w, ws ∈ logs -> w ∈ ws ->
        w = Session.InitWrite max_res \/
        exists cur new, w = Session.ChangeWrite cur new /\ new ∈ steps) /\
    ((forall metrics, metrics ∈ updates ->
                      "quality_process_res"%string ∉ map fst metrics) ->
     forall (i : nat) ws w, logs !! i = Some ws -> w ∈ ws ->
       (i = 0%nat /\ w = Session.InitWrite max_res) \/
       exists cur new,
         w = Session.ChangeWrite cur new /\
         new ∈ steps /\
         ((cur ∈ steps /\ Session.one_step steps cur new) \/
          (i = 0%nat /\ cur = max_res /\ max_res ∉ steps))).
Proof.
  intros settings updates max_res steps logs. subst max_res steps logs.
  split; [apply quality_steps_cases|].
  split; [exact (proj2 (run_updates_spacing settings updates Session.new_session))|].
  split; [apply run_updates_writes_any|].
  apply run_updates_from_new.
Qed.

Lemma controller_writes_steps_one_step_cooldown_witness :
  (forall metrics,
      metrics ∈ ([[("infer_s", 1%Q)]; [("total_s", (1 # 2)%Q)]]%string
                 : list Session.metrics_dict) ->
      "quality_process_res"%string ∉ map fst metrics) /\
  ((Session.run_updates Config.default
      [[("infer_s", 1%Q)]; [("total_s", (1 # 2)%Q)]]%string
      Session.new_session).2 !! 0%nat
   = Some [Session.InitWrite 640; Session.ChangeWrite 640 512]) /\
  ((0%nat = 0%nat /\
    Session.ChangeWrite 640 512 = Session.InitWrite (Config.depth_process_res Config.default)) \/
   exists cur new,
     Session.ChangeWrite 640 512 = Session.ChangeWrite cur new /\
     new ∈ Session.quality_steps Config.default /\
     ((cur ∈ Session.quality_steps Config.default /\
       Session.one_step (Session.quality_steps Config.default) cur new) \/
      (0%nat = 0%nat /\ cur = Config.depth_process_res Config.default /\
       Config.depth_process_res Config.default ∉ Session.quality_steps Config.default))).
Proof.
  assert (Hkeys : forall metrics,
             metrics ∈ ([[("infer_s", 1%Q)]; [("total_s", (1 # 2)%Q)]]%string
                        : list Session.metrics_dict) ->
             "quality_process_res"%string ∉ map fst metrics).
  { intros metrics Hin.
    repeat (apply elem_of_cons in Hin as [->|Hin];
            [cbn [map fst]; apply not_elem_of_cons;
             split; [discriminate | apply not_elem_of_nil]|]).
    apply elem_of_nil in Hin. contradiction. }
  split; [exact Hkeys|].
  split; [vm_compute; reflexivity|].
  refine (proj2 (proj2 (proj2
            (controller_writes_steps_one_step_cooldown Config.default
               [[("infer_s", 1%Q)]; [("total_s", (1 # 2)%Q)]]%string)))
            Hkeys 0%nat [Session.InitWrite 640; Session.ChangeWrite 640 512]
            (Session.ChangeWrite 640 512) _ _).
  - vm_compute. reflexivity.
  - apply list_elem_of_further, list_elem_of_here.
Defined.

(** Against [C5] as stated. With [depth_process_res = 700] (not an entry of
    the ladder) the first telemetry update of a new session makes the
    controller write 700, which is outside [{s in ladder : s <= 700}], and
    then change from 700 to 512 under load, which is not a move between
    neighbours of that list. With the default configuration, a telemetry
    update that itself carries [quality_process_res = 496] makes the
    controller change from 496, which is no entry of the list either, to
    512. *)
Lemma controller_writes_outside_the_steps :
  let settings := Config.mkSettings 8 700 [86; 68; 90; 49] 0 in
  let ladder := filter (fun x => x <= 700) Session.all_steps in
  (Session.run_updates settings [[("infer_s", 1%Q)]]%string Session.new_session).2
    = [[Session.InitWrite 700; Session.ChangeWrite 700 512]] /\
  ladder = [640; 512; 480; 384; 320] /\
  (700 ∉ ladder) /\
  ~ Session.one_step ladder 700 512 /\
  (Session.run_updates Config.default
     [[("quality_process_res", 496%Q); ("infer_s", (1 # 8)%Q)]]%string
     Session.new_session).2
    = [[Session.ChangeWrite 496 512]] /\
  filter (fun x => x <= Config.depth_process_res Config.default) Session.all_steps
    = [640; 512; 480; 384; 320] /\
  ~ Session.one_step [640; 512; 480; 384; 320] 496 512.
Proof.
  intros settings ladder.
  split; [vm_compute; reflexivity|]. split; [vm_compute; reflexivity|].
  assert (Hnot : 700 ∉ ladder).
  { apply (bool_decide_unpack _). vm_compute. exact I. }
  split; [exact Hnot|].
  split.
  { intros (i & Hi & _). apply Hnot. eapply list_elem_of_lookup_2. exact Hi. }
  split; [vm_compute; reflexivity|]. split; [vm_compute; reflexivity|].
  intros (i & Hi & _).
  apply list_elem_of_lookup_2 in Hi.
  revert Hi. apply (bool_decide_unpack _). vm_compute. exact I.
Qed.

(* ===================================================================== *)
(** * The depth codec in floating point *)
(* ===================================================================== *)

(** ** Rounding to nearest *)

Section FloatFacts.
Local Open Scope Q_scope.

Lemma pow2_pos (k : Z) : 0 < 2 ^ k.
Proof. apply Qpower_0_lt. reflexivity. Qed.

Lemma pow2_plus (a b : Z) : 2 ^ (a + b) == 2 ^ a * 2 ^ b.
Proof. apply Qpower_plus. discriminate. Qed.

Lemma pow2_succ (a : Z) : 2 ^ (a + 1) == 2 * 2 ^ a.
Proof. rewrite pow2_plus. change (2 ^ 1) with 2. ring. Qed.

Lemma pow2_pred (a : Z) : 2 ^ (a - 1) == (1 # 2) * 2 ^ a.
Proof.
  pose proof (pow2_succ (a - 1)) as H.
  replace (a - 1 + 1)%Z with a in H by lia. lra.
Qed.

Lemma pow2_le (a b : Z) : (a <= b)%Z -> 2 ^ a <= 2 ^ b.
Proof. intros H. apply Qpower_le_compat_l; [exact H | discriminate]. Qed.

Lemma pow2_inject (k : Z) : (0 <= k)%Z -> inject_Z (2 ^ k) == 2 ^ k.
Proof. intros H. apply (Zpower_Qpower 2 k H). Qed.

(** [ilog2 x] is the integer logarithm of a positive [x]. *)
Lemma ilog2_spec (x : Q) :
  0 < x -> 2 ^ Float.ilog2 x <= x /\ x < 2 ^ (Float.ilog2 x + 1).
Proof.
  intros Hx. unfold Float.ilog2.
  destruct x as [n d]. cbn [Qnum Qden].
  assert (Hn : (0 < n)%Z).
  { unfold Qlt in Hx. cbn in Hx. lia. }
  set (ln := Z.log2 n). set (ld := Z.log2 (Z.pos d)).
  pose proof (Z.log2_spec n Hn) as [Hn1 Hn2]. fold ln in Hn1, Hn2.
  pose proof (Z.log2_spec (Z.pos d) ltac:(lia)) as [Hd1 Hd2]. fold ld in Hd1, Hd2.
  pose proof (Z.log2_nonneg n) as Hln. fold ln in Hln.
  pose proof (Z.log2_nonneg (Z.pos d)) as Hld. fold ld in Hld.
  assert (Hx' : (n # d) * inject_Z (Z.pos d) == inject_Z n).
  { unfold Qeq, Qmult, inject_Z. cbn. lia. }
  assert (Hdpos : 0 < inject_Z (Z.pos d)).
  { change 0 with (inject_Z 0). rewrite <- Zlt_Qlt. lia. }
  (* bounds in Q *)
  assert (Q1 : 2 ^ ln <= inject_Z n).
  { rewrite <- pow2_inject by exact Hln. rewrite <- Zle_Qle. exact Hn1. }
  assert (Q2 : inject_Z n < 2 ^ (ln + 1)).
  { rewrite <- pow2_inject by lia. rewrite <- Zlt_Qlt.
    replace (ln + 1)%Z with (Z.succ ln) by lia. exact Hn2. }
  assert (Q3 : 2 ^ ld <= inject_Z (Z.pos d)).
  { rewrite <- pow2_inject by exact Hld. rewrite <- Zle_Qle. exact Hd1. }
  assert (Q4 : inject_Z (Z.pos d) < 2 ^ (ld + 1)).
  { rewrite <- pow2_inject by lia. rewrite <- Zlt_Qlt.
    replace (ld + 1)%Z with (Z.succ ld) by lia. exact Hd2. }
  set (e := (ln - ld)%Z).
  assert (E1 : 2 ^ ln == 2 ^ e * 2 ^ ld).
  { rewrite <- pow2_plus. replace (e + ld)%Z with ln by (unfold e; lia). reflexivity. }
  pose proof (pow2_succ ln) as S1. pose proof (pow2_succ ld) as S2.
  pose proof (pow2_succ e) as S3. pose proof (pow2_pred e) as S4.
  pose proof (pow2_pos e) as Pe. pose proof (pow2_pos ld) as Pld.
  set (X := n # d) in *. set (D := inject_Z (Z.pos d)) in *.
  set (N := inject_Z n) in *.
  set (A := 2 ^ e) in *. set (B := 2 ^ ld) in *. set (C := 2 ^ ln) in *.
  assert (Hup : X < 2 * A).
  { (* X * D = N < 2 C = 2 A B <= 2 A D *)
    apply Qnot_le_lt. intros Hc. 
    assert (2 * A * D <= X * D) by nra. nra. }
  assert (Hlo : (1 # 2) * A < X).
  { apply Qnot_le_lt. intros Hc.
    assert (X * D <= (1 # 2) * A * D) by nra. nra. }
  destruct (Qle_bool A X) eqn:Ele.
  - apply Qle_bool_iff in Ele. split; [exact Ele|]. rewrite S3. exact Hup.
  - assert (Hlt : X < A).
    { apply Qnot_le_lt. rewrite <- Qle_bool_iff. congruence. }
    replace (e - 1 + 1)%Z with e by lia. fold A.
    split; [rewrite S4; lra | exact Hlt].
Qed.


Lemma Qabs_zero_iff (x : Q) : Qabs x <= 0 -> x == 0.
Proof.
  intros H. pose proof (Qle_Qabs x). pose proof (Qle_Qabs (- x)).
  rewrite Qabs_opp in *. lra.
Qed.

(** The rounding error: half a unit in the last place. *)
Lemma round_error (prec emin : Z) (x : Q) :
  Qabs (Float.round prec emin x - x) <= 2 ^ (- prec) * Qabs x + 2 ^ (emin - 1).
Proof.
  unfold Float.round.
  pose proof (pow2_pos (- prec)) as Pp. pose proof (pow2_pos (emin - 1)) as Pm.
  pose proof (Qabs_nonneg x) as Hax.
  destruct (Qeq_bool x 0) eqn:Ez.
  - apply Qeq_bool_iff in Ez.
    assert (H0 : Qabs (0 - x) == 0).
    { rewrite Ez. reflexivity. }
    rewrite H0. nra.
  - assert (Hne : ~ x == 0).
    { intros H. apply Qeq_bool_iff in H. congruence. }
    assert (Hpos : 0 < Qabs x).
    { destruct (Qlt_le_dec 0 (Qabs x)) as [|Hle]; [assumption|].
      exfalso. apply Hne. apply Qabs_zero_iff. exact Hle. }
    cbv zeta. unfold Float.exponent. set (e := Float.ilog2 (Qabs x)).
    set (q := Z.max (e - prec + 1) emin).
    rewrite Qred_correct.
    pose proof (pow2_pos q) as Pq.
    set (y := x / 2 ^ q).
    assert (Hy : y * 2 ^ q == x).
    { unfold y. field. lra. }
    assert (Hd : inject_Z (Packets.rint y) * 2 ^ q - x
                 == (inject_Z (Packets.rint y) - y) * 2 ^ q).
    { rewrite <- Hy at 1. ring. }
    rewrite Hd, Qabs_Qmult. rewrite (Qabs_pos (2 ^ q)) by lra.
    pose proof (rint_near y) as Hn.
    pose proof (Qabs_nonneg (inject_Z (Packets.rint y) - y)) as Hn0.
    assert (Hhalf : Qabs (inject_Z (Packets.rint y) - y) * 2 ^ q <= 2 ^ (q - 1)).
    { rewrite pow2_pred. nra. }
    destruct (ilog2_spec (Qabs x) Hpos) as [He _]. fold e in He.
    assert (Hrel : 2 ^ (e - prec) <= 2 ^ (- prec) * Qabs x).
    { replace (e - prec)%Z with (- prec + e)%Z by lia. rewrite pow2_plus. nra. }
    assert (Hq : 2 ^ (q - 1) <= 2 ^ (e - prec) + 2 ^ (emin - 1)).
    { pose proof (pow2_pos (e - prec)).
      destruct (Z.max_spec (e - prec + 1) emin) as [[_ Hm]|[_ Hm]];
        fold q in Hm; rewrite Hm.
      - lra.
      - replace (e - prec + 1 - 1)%Z with (e - prec)%Z by lia. lra. }
    lra.
Qed.

Lemma binary32_error (x : Q) :
  Qabs (Float.binary32 x - x)
  <= (1 # 16777216) * Qabs x + (1 # 1427247692705959881058285969449495136382746624).
Proof. exact (round_error 24 (-149) x). Qed.

Lemma binary64_error (x : Q) :
  Qabs (Float.binary64 x - x)
  <= (1 # 9007199254740992) * Qabs x
     + (1 # 1606938044258990275541962092341162602522202993782792835301376).
Proof.
  pose proof (round_error 53 (-1074) x) as H.
  assert (Hb : 2 ^ (-1074 - 1)
               <= (1 # 1606938044258990275541962092341162602522202993782792835301376)).
  { change (1 # 1606938044258990275541962092341162602522202993782792835301376)
      with (2 ^ (-200)). apply pow2_le. lia. }
  change (2 ^ (- (53))) with (1 # 9007199254740992) in H.
  unfold Float.binary64. lra.
Qed.


Lemma rint_inject (k : Z) : Packets.rint (inject_Z k) = k.
Proof.
  pose proof (rint_between k k (inject_Z k)) as H.
  assert (inject_Z k <= inject_Z k <= inject_Z k) by lra.
  specialize (H ltac:(assumption)). lia.
Qed.

Lemma Qeq_bool_false (x : Q) : Qeq_bool x 0 = false -> ~ x == 0.
Proof. intros E H. apply Qeq_bool_iff in H. congruence. Qed.

Lemma round_nonzero (prec emin : Z) (x : Q) :
  ~ x == 0 ->
  Float.round prec emin x
  == inject_Z (Packets.rint (x / 2 ^ Float.exponent prec emin x))
     * 2 ^ Float.exponent prec emin x.
Proof.
  intros Hne. unfold Float.round.
  destruct (Qeq_bool x 0) eqn:E.
  - apply Qeq_bool_iff in E. contradiction.
  - cbv zeta. apply Qred_correct.
Qed.

Lemma round_zero (prec emin : Z) (x : Q) : x == 0 -> Float.round prec emin x = 0.
Proof.
  intros H. unfold Float.round.
  apply Qeq_bool_iff in H. rewrite H. reflexivity.
Qed.

(** Rounding does not cross a multiple of the unit in the last place. *)
Lemma round_le_multiple (prec emin : Z) (x : Q) (m : Z) :
  ~ x == 0 ->
  x <= inject_Z m * 2 ^ Float.exponent prec emin x ->
  Float.round prec emin x <= inject_Z m * 2 ^ Float.exponent prec emin x.
Proof.
  intros Hne Hle. rewrite (round_nonzero _ _ _ Hne).
  set (q := Float.exponent prec emin x) in *.
  pose proof (pow2_pos q) as Pq.
  assert (Hy : x / 2 ^ q <= inject_Z m).
  { apply Qle_shift_div_r; [exact Pq | exact Hle]. }
  pose proof (rint_mono _ _ Hy) as Hr. rewrite rint_inject in Hr.
  rewrite Zle_Qle in Hr. nra.
Qed.

Lemma round_ge_multiple (prec emin : Z) (x : Q) (m : Z) :
  ~ x == 0 ->
  inject_Z m * 2 ^ Float.exponent prec emin x <= x ->
  inject_Z m * 2 ^ Float.exponent prec emin x <= Float.round prec emin x.
Proof.
  intros Hne Hle. rewrite (round_nonzero _ _ _ Hne).
  set (q := Float.exponent prec emin x) in *.
  pose proof (pow2_pos q) as Pq.
  assert (Hy : inject_Z m <= x / 2 ^ q).
  { apply Qle_shift_div_l; [exact Pq | exact Hle]. }
  pose proof (rint_mono _ _ Hy) as Hr. rewrite rint_inject in Hr.
  rewrite Zle_Qle in Hr. nra.
Qed.

Lemma round_nonneg (prec emin : Z) (x : Q) : 0 <= x -> 0 <= Float.round prec emin x.
Proof.
  intros Hx. destruct (Qeq_dec x 0) as [Hz|Hne].
  - rewrite (round_zero _ _ _ Hz). lra.
  - pose proof (round_ge_multiple prec emin x 0 Hne) as H.
    change (inject_Z 0) with 0 in H. lra.
Qed.

Lemma round_nonpos (prec emin : Z) (x : Q) : x <= 0 -> Float.round prec emin x <= 0.
Proof.
  intros Hx. destruct (Qeq_dec x 0) as [Hz|Hne].
  - rewrite (round_zero _ _ _ Hz). lra.
  - pose proof (round_le_multiple prec emin x 0 Hne) as H.
    change (inject_Z 0) with 0 in H. lra.
Qed.

Lemma Qabs_pos_eq (x : Q) : 0 <= x -> Qabs x = x.
Proof.
  destruct x as [n d]. unfold Qle. cbn. intros H.
  rewrite Z.abs_eq by lia. reflexivity.
Qed.

Lemma Qabs_neg_eq (x : Q) : x <= 0 -> Qabs x = - x.
Proof.
  destruct x as [n d]. unfold Qle. cbn. intros H.
  rewrite Z.abs_neq by lia. reflexivity.
Qed.

Lemma ilog2_le (x y : Q) : 0 < x -> x <= y -> (Float.ilog2 x <= Float.ilog2 y)%Z.
Proof.
  intros Hx Hxy.
  destruct (ilog2_spec x Hx) as [H1 _].
  destruct (ilog2_spec y ltac:(lra)) as [_ H2].
  assert (Hlt : 2 ^ Float.ilog2 x < 2 ^ (Float.ilog2 y + 1)) by lra.
  apply Qpower_lt_compat_l_inv in Hlt; [lia | reflexivity].
Qed.

Lemma pow2_multiple (a b : Z) :
  (b <= a)%Z -> 2 ^ a == inject_Z (2 ^ (a - b)) * 2 ^ b.
Proof.
  intros H. rewrite pow2_inject by lia. rewrite <- pow2_plus.
  replace (a - b + b)%Z with a by lia. reflexivity.
Qed.

Lemma round_mono_pos (prec emin : Z) (x y : Q) :
  (0 < prec)%Z -> 0 < x -> x <= y ->
  Float.round prec emin x <= Float.round prec emin y.
Proof.
  intros Hp Hx Hxy.
  assert (Hy : 0 < y) by lra.
  assert (Hnx : ~ x == 0) by lra. assert (Hny : ~ y == 0) by lra.
  pose proof (ilog2_le x y Hx Hxy) as He.
  destruct (ilog2_spec x Hx) as [Hx1 Hx2].
  destruct (ilog2_spec y Hy) as [Hy1 Hy2].
  set (ex := Float.ilog2 x) in *. set (ey := Float.ilog2 y) in *.
  assert (Hqx : Float.exponent prec emin x = Z.max (ex - prec + 1) emin).
  { unfold Float.exponent. rewrite Qabs_pos_eq by lra. reflexivity. }
  assert (Hqy : Float.exponent prec emin y = Z.max (ey - prec + 1) emin).
  { unfold Float.exponent. rewrite Qabs_pos_eq by lra. reflexivity. }
  destruct (Z.eq_dec (Float.exponent prec emin x) (Float.exponent prec emin y))
    as [Heq|Hneq].
  - rewrite (round_nonzero _ _ _ Hnx), (round_nonzero _ _ _ Hny), Heq.
    set (q := Float.exponent prec emin y).
    pose proof (pow2_pos q) as Pq.
    assert (Hdiv : x / 2 ^ q <= y / 2 ^ q).
    { apply Qle_shift_div_l; [exact Pq|].
      assert (Hxq : x / 2 ^ q * 2 ^ q == x) by (field; lra). lra. }
    pose proof (rint_mono _ _ Hdiv) as Hr. rewrite Zle_Qle in Hr. nra.
  - assert (Hlt : (Float.exponent prec emin x < Float.exponent prec emin y)%Z) by lia.
    assert (Hqy' : Float.exponent prec emin y = (ey - prec + 1)%Z) by lia.
    assert (Hex : (ex < ey)%Z) by lia.
    assert (Hxle : x <= 2 ^ ey).
    { pose proof (pow2_le (ex + 1) ey ltac:(lia)). lra. }
    pose proof (round_le_multiple prec emin x
                  (2 ^ (ey - Float.exponent prec emin x)) Hnx) as H1.
    rewrite <- pow2_multiple in H1 by lia. specialize (H1 Hxle).
    pose proof (round_ge_multiple prec emin y
                  (2 ^ (ey - Float.exponent prec emin y)) Hny) as H2.
    rewrite <- pow2_multiple in H2 by lia. specialize (H2 Hy1).
    lra.
Qed.

Lemma round_mono_neg (prec emin : Z) (x y : Q) :
  (0 < prec)%Z -> y < 0 -> x <= y ->
  Float.round prec emin x <= Float.round prec emin y.
Proof.
  intros Hp Hy Hxy.
  assert (Hx : x < 0) by lra.
  assert (Hnx : ~ x == 0) by lra. assert (Hny : ~ y == 0) by lra.
  pose proof (ilog2_le (- y) (- x) ltac:(lra) ltac:(lra)) as He.
  destruct (ilog2_spec (- x) ltac:(lra)) as [Hx1 Hx2].
  destruct (ilog2_spec (- y) ltac:(lra)) as [Hy1 Hy2].
  set (ex := Float.ilog2 (- x)) in *. set (ey := Float.ilog2 (- y)) in *.
  assert (Hqx : Float.exponent prec emin x = Z.max (ex - prec + 1) emin).
  { unfold Float.exponent. rewrite Qabs_neg_eq by lra. reflexivity. }
  assert (Hqy : Float.exponent prec emin y = Z.max (ey - prec + 1) emin).
  { unfold Float.exponent. rewrite Qabs_neg_eq by lra. reflexivity. }
  destruct (Z.eq_dec (Float.exponent prec emin x) (Float.exponent prec emin y))
    as [Heq|Hneq].
  - rewrite (round_nonzero _ _ _ Hnx), (round_nonzero _ _ _ Hny), Heq.
    set (q := Float.exponent prec emin y).
    pose proof (pow2_pos q) as Pq.
    assert (Hdiv : x / 2 ^ q <= y / 2 ^ q).
    { apply Qle_shift_div_l; [exact Pq|].
      assert (Hxq : x / 2 ^ q * 2 ^ q == x) by (field; lra). lra. }
    pose proof (rint_mono _ _ Hdiv) as Hr. rewrite Zle_Qle in Hr. nra.
  - assert (Hlt : (Float.exponent prec emin y < Float.exponent prec emin x)%Z) by lia.
    assert (Hqx' : Float.exponent prec emin x = (ex - prec + 1)%Z) by lia.
    assert (Hex : (ey < ex)%Z) by lia.
    assert (Hyge : - 2 ^ ex <= y).
    { pose proof (pow2_le (ey + 1) ex ltac:(lia)). lra. }
    pose proof (round_le_multiple prec emin x
                  (- 2 ^ (ex - Float.exponent prec emin x)) Hnx) as H1.
    rewrite inject_Z_opp in H1.
    assert (E1 : - inject_Z (2 ^ (ex - Float.exponent prec emin x))
                   * 2 ^ Float.exponent prec emin x == - 2 ^ ex).
    { rewrite (pow2_multiple ex (Float.exponent prec emin x)) by lia. ring. }
    rewrite E1 in H1. specialize (H1 ltac:(lra)).
    pose proof (round_ge_multiple prec emin y
                  (- 2 ^ (ex - Float.exponent prec emin y)) Hny) as H2.
    rewrite inject_Z_opp in H2.
    assert (E2 : - inject_Z (2 ^ (ex - Float.exponent prec emin y))
                   * 2 ^ Float.exponent prec emin y == - 2 ^ ex).
    { rewrite (pow2_multiple ex (Float.exponent prec emin y)) by lia. ring. }
    rewrite E2 in H2. specialize (H2 Hyge).
    lra.
Qed.

(** Rounding to nearest is monotone. *)
Lemma round_mono (prec emin : Z) (x y : Q) :
  (0 < prec)%Z -> x <= y -> Float.round prec emin x <= Float.round prec emin y.
Proof.
  intros Hp Hxy.
  destruct (Qlt_le_dec 0 x) as [Hx|Hx].
  - apply round_mono_pos; assumption.
  - destruct (Qlt_le_dec y 0) as [Hy|Hy].
    + apply round_mono_neg; assumption.
    + pose proof (round_nonpos prec emin x Hx).
      pose proof (round_nonneg prec emin y Hy). lra.
Qed.

End FloatFacts.

(** ** Quantisation of a float32 array *)

Section QuantizeFloatFacts.
Local Open Scope Q_scope.

Lemma Qmul_le_l (a b c : Q) : 0 <= a -> b <= c -> a * b <= a * c.
Proof. intros Ha Hbc. nra. Qed.

(** The float32 pipeline of one pixel, on bounds that are close to the
    exact ones: the code does not wrap, and decodes to within 0.51 of the
    scale in use. *)
Lemma pixel_float32 (sigma s lo c : Q) :
  0 < sigma ->
  (1 # 1427247692705959881058285969449495136382746624)
    <= sigma * (1 # 17179869184) ->
  Qabs (s - sigma) <= sigma * (1 # 8388608) ->
  lo <= c -> c - lo <= sigma * (6553525 # 100) ->
  let t := Float.binary32 (c - lo) in
  let n := Float.binary32 (t / s) in
  let x := inject_Z (Packets.rint n) in
  0 <= x <= 65535 /\
  Qabs (s * x + lo - c) <= s * (51 # 100) /\
  Qabs (n * sigma - (c - lo)) <= sigma * (1 # 50).
Proof.
  intros Hsig Heta Hs Hlo Hhi t n x.
  apply Qabs_Qle_condition in Hs. destruct Hs as [Hs1 Hs2].
  assert (Hspos : 0 < s) by lra.
  pose proof (binary32_error (c - lo)) as Ht. fold t in Ht.
  rewrite (Qabs_pos (c - lo)) in Ht by lra.
  apply Qabs_Qle_condition in Ht. destruct Ht as [Ht1 Ht2].
  assert (Ht0 : 0 <= t) by (apply round_nonneg; lra).
  set (y := t / s) in *.
  assert (Hy : y * s == t) by (unfold y; field; lra).
  assert (Hy0 : 0 <= y) by (unfold y; apply Qle_shift_div_l; lra).
  pose proof (binary32_error y) as Hn. fold n in Hn.
  rewrite (Qabs_pos y) in Hn by lra.
  apply Qabs_Qle_condition in Hn. destruct Hn as [Hn1 Hn2].
  assert (Hn0 : 0 <= n) by (apply round_nonneg; lra).
  (* y in units of sigma *)
  pose proof (Qmul_le_l y (sigma - sigma * (1 # 8388608)) s Hy0 ltac:(lra)) as Hys.
  assert (Hyb : y <= 655353 # 10).
  { apply Qnot_lt_le. intros Hc.
    pose proof (Qmul_le_l sigma (655353 # 10) y ltac:(lra) ltac:(lra)). lra. }
  assert (Hnb : n <= 655354 # 10) by lra.
  pose proof (rint_near n) as Hr. fold x in Hr. apply Qabs_Qle_condition in Hr.
  destruct Hr as [Hr1 Hr2].
  assert (Hx : (0 <= Packets.rint n <= 65535)%Z).
  { assert (H1 : (-1 < Packets.rint n)%Z).
    { rewrite Zlt_Qlt. fold x. change (inject_Z (-1)) with (-1). lra. }
    assert (H2 : (Packets.rint n < 65536)%Z).
    { rewrite Zlt_Qlt. fold x. change (inject_Z 65536) with 65536. lra. }
    lia. }
  assert (Hx' : 0 <= x <= 65535).
  { unfold x. split.
    - change 0 with (inject_Z 0). rewrite <- Zle_Qle. lia.
    - change 65535 with (inject_Z 65535). rewrite <- Zle_Qle. lia. }
  split; [exact Hx'|].
  (* products *)
  pose proof (Qmul_le_l s (x - n) (1 # 2) ltac:(lra) Hr2) as Hxs2.
  pose proof (Qmul_le_l s (- (1 # 2)) (x - n) ltac:(lra) Hr1) as Hxs1.
  pose proof (Qmul_le_l s (n - y) _ ltac:(lra) Hn2) as Hns2.
  pose proof (Qmul_le_l s _ (n - y) ltac:(lra) Hn1) as Hns1.
  pose proof (Qmul_le_l n (s - sigma) _ Hn0 Hs2) as Hnsig2.
  pose proof (Qmul_le_l n _ (s - sigma) Hn0 Hs1) as Hnsig1.
  pose proof (Qmul_le_l sigma n (655354 # 10) ltac:(lra) Hnb) as Hnsg.
  pose proof (Qmul_le_l sigma y (655353 # 10) ltac:(lra) Hyb) as Hysg.
  split; apply Qabs_Qle_condition; split; lra.
Qed.

End QuantizeFloatFacts.

Section RangeFloatFacts.
Local Open Scope Q_scope.

(** The bounds and the scale as the float32 pipeline sees them, for a
    range that is neither tiny nor narrow against its magnitude. *)
Lemma range_float32 (z_min z_max : Q) :
  z_min < z_max ->
  (1 # 1267650600228229401496703205376) <= z_max - z_min ->
  Qabs z_min <= 32 * (z_max - z_min) ->
  Qabs z_max <= 32 * (z_max - z_min) ->
  let sigma := (z_max - z_min) / 65535 in
  let s := Float.binary32 (Float.binary64 (Float.binary64 (z_max - z_min) / 65535)) in
  0 < sigma /\
  (1 # 1427247692705959881058285969449495136382746624)
    <= sigma * (1 # 17179869184) /\
  Qabs (s - sigma) <= sigma * (1 # 8388608) /\
  Qabs (Float.binary32 z_min - z_min) <= sigma * (1 # 8) /\
  Qabs (Float.binary32 z_max - z_max) <= sigma * (1 # 8).
Proof.
  intros Hlt Hsmall Hmin Hmax sigma s.
  assert (Hsig : sigma * 65535 == z_max - z_min) by (unfold sigma; field).
  clearbody sigma.
  assert (H0 : 0 < sigma) by lra.
  assert (Heta : (1 # 1427247692705959881058285969449495136382746624)
                 <= sigma * (1 # 17179869184)) by lra.
  split; [exact H0|]. split; [exact Heta|].
  pose proof (binary32_error z_min) as Elo. apply Qabs_Qle_condition in Elo.
  pose proof (binary32_error z_max) as Ehi. apply Qabs_Qle_condition in Ehi.
  pose proof (Qabs_nonneg z_min). pose proof (Qabs_nonneg z_max).
  split; [|split; apply Qabs_Qle_condition; split; lra].
  (* the scale *)
  subst s.
  set (D := Float.binary64 (z_max - z_min)).
  pose proof (binary64_error (z_max - z_min)) as ED. fold D in ED.
  rewrite (Qabs_pos (z_max - z_min)) in ED by lra.
  apply Qabs_Qle_condition in ED.
  assert (HD0 : 0 <= D) by (apply round_nonneg; lra).
  set (D65 := D / 65535).
  assert (HD65 : D65 * 65535 == D) by (unfold D65; field).
  clearbody D65.
  set (sc := Float.binary64 D65).
  pose proof (binary64_error D65) as Esc. fold sc in Esc.
  rewrite (Qabs_pos D65) in Esc by lra.
  apply Qabs_Qle_condition in Esc.
  assert (Hsc0 : 0 <= sc) by (apply round_nonneg; lra).
  pose proof (binary32_error sc) as Es.
  rewrite (Qabs_pos sc) in Es by lra.
  apply Qabs_Qle_condition in Es.
  apply Qabs_Qle_condition. split; lra.
Qed.

(** [np.clip] to nearby bounds against the clamp to the exact ones. *)
Lemma clip_near (z_min z_max lo hi e d : Q) :
  z_min <= z_max -> lo <= hi ->
  Qabs (lo - z_min) <= e -> Qabs (hi - z_max) <= e ->
  let c := Packets.clip lo hi d in
  lo <= c <= hi /\
  (d <= z_min -> Qabs (c - z_min) <= e) /\
  (z_min <= d <= z_max -> Qabs (c - d) <= e) /\
  (z_max <= d -> Qabs (c - z_max) <= e).
Proof.
  intros Hz Hle Hlo Hhi c. subst c.
  apply Qabs_Qle_condition in Hlo, Hhi.
  split; [apply clip_between; exact Hle|].
  unfold Packets.clip.
  destruct (Q.max_spec d lo) as [[? Hm]|[? Hm]],
           (Q.min_spec (Qmax d lo) hi) as [[? Hn]|[? Hn]];
    (split; [|split]); intros Hd; apply Qabs_Qle_condition; split; lra.
Qed.

End RangeFloatFacts.

Section PackFloatFacts.
Local Open Scope Q_scope.
Variable nonfinite_u2 : PacketsFloat.quotient -> Z.
Variable zlib_compress : list Z -> list Z.
Variable settings : Config.Settings.

Lemma pack_f_float_inv (x r : Q) :
  PacketsFloat.pack_f x = Py.Ok r ->
  Qabs x < Packets.F32_OVERFLOW /\ r = Float.binary32 x.
Proof.
  unfold PacketsFloat.pack_f.
  destruct (Qle_bool Packets.F32_OVERFLOW (Qabs x)) eqn:E; intros [=]; subst.
  split; [|reflexivity].
  apply Qnot_le_lt. rewrite <- Qle_bool_iff. congruence.
Qed.

(** A successful [HEADER_STRUCT.pack] stores the three floats rounded to
    float32. *)
Lemma HEADER_STRUCT_pack_float_Ok magic v dt ts w h s b z hdr :
  PacketsFloat.HEADER_STRUCT_pack magic v dt ts w h s b z = Py.Ok hdr ->
  hdr = {| Packets.h_magic := Packets.pack_4s magic; Packets.h_version := v;
           Packets.h_data_type := dt; Packets.h_timestamp_ms := ts;
           Packets.h_width := w; Packets.h_height := h;
           Packets.h_scale := Float.binary32 s;
           Packets.h_bias := Float.binary32 b;
           Packets.h_z_max := Float.binary32 z |}.
Proof.
  unfold PacketsFloat.HEADER_STRUCT_pack.
  destruct (Packets.pack_H v) as [v'|] eqn:Ev; [|discriminate].
  destruct (Packets.pack_H dt) as [dt'|] eqn:Edt; [|discriminate].
  destruct (Packets.pack_I ts) as [ts'|] eqn:Ets; [|discriminate].
  destruct (Packets.pack_I w) as [w'|] eqn:Ew; [|discriminate].
  destruct (Packets.pack_I h) as [h'|] eqn:Eh; [|discriminate].
  destruct (PacketsFloat.pack_f s) as [s'|] eqn:Es; [|discriminate].
  destruct (PacketsFloat.pack_f b) as [b'|] eqn:Eb; [|discriminate].
  destruct (PacketsFloat.pack_f z) as [z'|] eqn:Ez; [|discriminate].
  cbn. intros [= <-].
  apply pack_H_inv in Ev as [? ->], Edt as [? ->].
  apply pack_I_inv in Ets as [? ->], Ew as [? ->], Eh as [? ->].
  apply pack_f_float_inv in Es as [? ->], Eb as [? ->], Ez as [? ->].
  reflexivity.
Qed.

(** The result of [pack_depth_payload], with the quantisation inlined. *)
Lemma pack_depth_payload_float_Ok depth ts z_min z_max compress p :
  (PacketsFloat.pack_depth_payload nonfinite_u2 zlib_compress settings depth ts
     z_min z_max compress).2 = Py.Ok p ->
  let '(_, (encoded, scale, bias)) :=
    PacketsFloat.quantize_depth nonfinite_u2 depth z_min z_max in
  Packets.header p =
    {| Packets.h_magic :=
         Packets.pack_4s (if compress then [86; 68; 90; 50]%Z
                          else Config.depth_header_magic settings);
       Packets.h_version := 1; Packets.h_data_type := 1;
       Packets.h_timestamp_ms := Py.int_of_float ts;
       Packets.h_width := Packets.shape1 depth;
       Packets.h_height := Packets.shape0 depth;
       Packets.h_scale := Float.binary32 scale;
       Packets.h_bias := Float.binary32 bias;
       Packets.h_z_max := Float.binary32 z_max |} /\
  Packets.payload_bytes p =
    (if compress then zlib_compress (Packets.tobytes encoded)
     else Packets.tobytes encoded).
Proof.
  unfold PacketsFloat.pack_depth_payload, PacketsFloat.quantize_depth.
  destruct compress; cbn [snd Packets.shape0 Packets.shape1];
    destruct (PacketsFloat.HEADER_STRUCT_pack _ _ _ _ _ _ _ _ _) as [hdr|e] eqn:E;
    cbn; intros [=]; subst p; cbn;
    apply HEADER_STRUCT_pack_float_Ok in E as ->; split; reflexivity.
Qed.

Lemma Forall2_map_map {A B C : Type} (P : B -> C -> Prop) (f : A -> B)
    (g : A -> C) (l : list A) :
  (forall a, P (f a) (g a)) -> Forall2 P (map f l) (map g l).
Proof.
  intros H. induction l as [|a l IH]; cbn [map]; constructor; auto.
Qed.

Lemma Forall2_map_right {A B : Type} (P : A -> B -> Prop) (g : A -> B)
    (l : list A) :
  (forall a, P a (g a)) -> Forall2 P l (map g l).
Proof.
  intros H. induction l as [|a l IH]; cbn [map]; constructor; auto.
Qed.

(** The caller's array after [pack_depth_payload]: clamped to the float32
    bounds. *)
Lemma pack_depth_payload_float_buffer depth ts z_min z_max compress :
  Packets.data
    (PacketsFloat.pack_depth_payload nonfinite_u2 zlib_compress settings depth ts
       z_min z_max compress).1
  = map (Packets.clip (Float.binary32 z_min)
           (Float.binary32
              (if Qle_bool z_max z_min
               then Float.binary64 (z_min + Float.binary64 (1 # 1000))
               else z_max)))
        (Packets.data depth).
Proof.
  unfold PacketsFloat.pack_depth_payload, PacketsFloat.quantize_depth.
  destruct compress; reflexivity.
Qed.

(** One pixel through [quantize_depth] and back, for a range that is
    neither tiny nor narrow against its magnitude. *)
Lemma quantize_pixel_float32 (z_min z_max d : Q) :
  z_min < z_max ->
  (1 # 1267650600228229401496703205376) <= z_max - z_min ->
  Qabs z_min <= 32 * (z_max - z_min) ->
  Qabs z_max <= 32 * (z_max - z_min) ->
  let sigma := (z_max - z_min) / 65535 in
  let s := Float.binary32 (Float.binary64 (Float.binary64 (z_max - z_min) / 65535)) in
  let lo := Float.binary32 z_min in
  let c := Packets.clip lo (Float.binary32 z_max) d in
  let code :=
    PacketsFloat.rint_astype_u2 nonfinite_u2
      (PacketsFloat.divide (Float.binary32 (c - lo)) s) in
  let v := s * inject_Z code + lo in
  (0 <= code <= 65535)%Z /\
  Qabs (v - c) <= s * (51 # 100) /\
  lo <= v <= lo + 65535 * s /\
  z_min - sigma * (1 # 4) <= v <= z_max + sigma * (1 # 4) /\
  (d <= z_min -> Qabs (v - z_min) <= sigma) /\
  (z_min <= d <= z_max -> Qabs (v - d) <= sigma) /\
  (z_max <= d -> Qabs (v - z_max) <= sigma).
Proof.
  intros Hlt Hsmall Hmin Hmax sigma s lo c code v.
  destruct (range_float32 z_min z_max Hlt Hsmall Hmin Hmax)
    as (Hsig & Heta & Hs & Hlo & Hhi).
  fold sigma in Hsig, Heta, Hs, Hlo, Hhi. fold s in Hs. fold lo in Hlo.
  assert (Hsig65 : sigma * 65535 == z_max - z_min) by (unfold sigma; field).
  set (hi := Float.binary32 z_max) in *.
  clearbody sigma.
  pose proof Hlo as Hlo'. pose proof Hhi as Hhi'. pose proof Hs as Hs'.
  apply Qabs_Qle_condition in Hlo', Hhi', Hs'.
  assert (Hlohi : lo <= hi) by lra.
  destruct (clip_near z_min z_max lo hi (sigma * (1 # 8)) d
              ltac:(lra) Hlohi Hlo Hhi) as (Hc & Hc1 & Hc2 & Hc3).
  fold c in Hc, Hc1, Hc2, Hc3.
  destruct (pixel_float32 sigma s lo c Hsig Heta Hs ltac:(lra) ltac:(lra))
    as (Hx & Hv & _).
  assert (Hspos : 0 < s) by lra.
  assert (Hz : (0 <= Packets.rint (Float.binary32 (Float.binary32 (c - lo) / s))
                <= 65535)%Z).
  { destruct Hx as [Hx1 Hx2].
    change 0 with (inject_Z 0) in Hx1. change 65535 with (inject_Z 65535) in Hx2.
    rewrite <- Zle_Qle in Hx1, Hx2. lia. }
  assert (Hcode : code = Packets.rint (Float.binary32 (Float.binary32 (c - lo) / s))).
  { unfold code, PacketsFloat.divide.
    destruct (Qeq_bool s 0) eqn:E; [apply Qeq_bool_iff in E; lra|].
    cbn [PacketsFloat.rint_astype_u2]. unfold Packets.astype_u2.
    apply Z.mod_small. lia. }
  split; [rewrite Hcode; exact Hz|].
  set (x := inject_Z (Packets.rint (Float.binary32 (Float.binary32 (c - lo) / s))))
    in *.
  assert (Hvx : v = s * x + lo) by (unfold v, x; rewrite Hcode; reflexivity).
  clearbody c v code x. subst v.
  pose proof (Qmul_le_l s 0 x ltac:(lra) ltac:(lra)) as Hsx1.
  pose proof (Qmul_le_l s x 65535 ltac:(lra) ltac:(lra)) as Hsx2.
  apply Qabs_Qle_condition in Hv.
  split; [apply Qabs_Qle_condition; split; lra|].
  split; [split; lra|].
  split; [split; lra|].
  split; [|split].
  - intros Hd. specialize (Hc1 Hd). apply Qabs_Qle_condition in Hc1.
    apply Qabs_Qle_condition. split; lra.
  - intros Hd. specialize (Hc2 Hd). apply Qabs_Qle_condition in Hc2.
    apply Qabs_Qle_condition. split; lra.
  - intros Hd. specialize (Hc3 Hd). apply Qabs_Qle_condition in Hc3.
    apply Qabs_Qle_condition. split; lra.
Qed.

End PackFloatFacts.

(** [C2], as the code has it on a float32 array. Take a range
    [z_min < z_max] that is neither tiny nor narrow against its magnitude:
    [2^-100 <= z_max - z_min <= 2^100] and
    [|z_min|, |z_max| <= 32 * (z_max - z_min)], which also keeps every
    intermediate result finite. Write [sigma = (z_max - z_min) / 65535].
    When [pack_depth_payload] returns, the header's scale is the float32 of
    the float64 scale, positive and within [sigma / 2^23] of [sigma]; its
    bias is the float32 of [z_min], within [sigma / 8] of it; and decoding
    the payload (pixels read as little-endian u16, mapped to
    [scale * x + bias] with the header's fields) gives for every pixel a
    value [v]
    - within the header's scale of the pixel as the call left it in the
      caller's array, clamped to the float32 bounds, and in
      [[bias, bias + 65535 * scale]];
    - in [[z_min - sigma / 4, z_max + sigma / 4]] and within [sigma] of the
      input clamped to [[z_min, z_max]]: of [z_min] for a pixel at or below
      it, of [z_max] for one at or above it, of the pixel itself in
      between. *)
Theorem pack_then_dequantize_float32_within_scale :
  forall (nonfinite_u2 : PacketsFloat.quotient -> Z)
         (zlib_compress inflate : list Z -> list Z) (settings : Config.Settings)
         (depth : Packets.ndarray) (timestamp_ms z_min z_max : Q)
         (compress : bool) (p : Packets.DepthPayload),
    (forall b, inflate (zlib_compress b) = b) ->
    (z_min < z_max)%Q ->
    ((1 # 1267650600228229401496703205376) <= z_max - z_min
     <= 1267650600228229401496703205376)%Q ->
    (Qabs z_min <= 32 * (z_max - z_min))%Q ->
    (Qabs z_max <= 32 * (z_max - z_min))%Q ->
    let r := PacketsFloat.pack_depth_payload nonfinite_u2 zlib_compress settings
               depth timestamp_ms z_min z_max compress in
    r.2 = Py.Ok p ->
    let sigma := ((z_max - z_min) / 65535)%Q in
    let h := Packets.header p in
    Packets.h_scale h
    = Float.binary32 (Float.binary64 (Float.binary64 (z_max - z_min) / 65535)) /\
    Packets.h_bias h = Float.binary32 z_min /\
    (0 < Packets.h_scale h)%Q /\
    (Qabs (Packets.h_scale h - sigma) <= sigma * (1 # 8388608))%Q /\
    (Qabs (Packets.h_bias h - z_min) <= sigma * (1 # 8))%Q /\
    Forall2 (fun c v =>
               (Qabs (v - c) <= Packets.h_scale h)%Q /\
               (Packets.h_bias h <= v
                <= Packets.h_bias h + 65535 * Packets.h_scale h)%Q)
            (Packets.data r.1)
            (Packets.dequantize inflate compress p) /\
    Forall2 (fun d v =>
               (z_min - sigma * (1 # 4) <= v <= z_max + sigma * (1 # 4))%Q /\
               (d <= z_min -> Qabs (v - z_min) <= sigma)%Q /\
               (z_min <= d <= z_max -> Qabs (v - d) <= sigma)%Q /\
               (z_max <= d -> Qabs (v - z_max) <= sigma)%Q)
            (Packets.data depth)
            (Packets.dequantize inflate compress p).
Proof.
  intros nf zc inflate settings depth ts z_min z_max compress p Hinf Hlt
    [Hsmall _] Hmin Hmax r Hp sigma h.
  subst r h. rewrite pack_depth_payload_float_buffer.
  apply pack_depth_payload_float_Ok in Hp.
  unfold PacketsFloat.quantize_depth in Hp.
  assert (Hb : Qle_bool z_max z_min = false).
  { destruct (Qle_bool z_max z_min) eqn:E; [|reflexivity].
    apply Qle_bool_iff in E. lra. }
  rewrite Hb in Hp |- *. cbn [Packets.data] in Hp.
  destruct Hp as [Hh Hpay].
  unfold Packets.dequantize. rewrite Hh, Hpay.
  cbn [Packets.h_scale Packets.h_bias].
  destruct (range_float32 z_min z_max Hlt Hsmall Hmin Hmax)
    as (Hsig & _ & Hs & Hlo & _).
  fold sigma in Hsig, Hs, Hlo.
  set (s := Float.binary32
              (Float.binary64 (Float.binary64 (z_max - z_min) / 65535))) in *.
  set (lo := Float.binary32 z_min) in *.
  set (hi := Float.binary32 z_max) in *.
  assert (Hspos : (0 < s)%Q).
  { apply Qabs_Qle_condition in Hs. lra. }
  split; [reflexivity|]. split; [reflexivity|]. split; [exact Hspos|].
  split; [exact Hs|]. split; [exact Hlo|].
  match goal with
  | |- context [Packets.read_u16_le ?b] =>
      replace b with
        (Packets.tobytes
           (map (PacketsFloat.rint_astype_u2 nf)
              (map (fun d => PacketsFloat.divide (Float.binary32 (d - lo)) s)
                 (map (Packets.clip lo hi) (Packets.data depth)))))
        by (destruct compress; [symmetry; apply Hinf | reflexivity])
  end.
  rewrite read_u16_le_tobytes. rewrite !map_map.
  split.
  - apply Forall2_map_map. intros d.
    destruct (quantize_pixel_float32 nf z_min z_max d Hlt Hsmall Hmin Hmax)
      as (_ & H2 & H3 & _).
    fold sigma s lo hi in H2, H3.
    split; [lra | exact H3].
  - apply Forall2_map_right. intros d.
    destruct (quantize_pixel_float32 nf z_min z_max d Hlt Hsmall Hmin Hmax)
      as (_ & _ & _ & H4 & H5 & H6 & H7).
    fold sigma s lo hi in H4, H5, H6, H7.
    split; [exact H4|]. split; [exact H5|]. split; [exact H6 | exact H7].
Qed.

Lemma pack_then_dequantize_float32_within_scale_witness :
  let depth := Packets.mkArray 1 3 [(1 # 2)%Q; 3%Q; (-1)%Q] in
  exists p,
    (PacketsFloat.pack_depth_payload (fun _ => 0) (fun b => b) Config.default
       depth 5%Q 0%Q 2%Q false).2 = Py.Ok p /\
    Forall2 (fun d v =>
               (0 - (2 - 0) / 65535 * (1 # 4) <= v
                <= 2 + (2 - 0) / 65535 * (1 # 4))%Q /\
               (d <= 0 -> Qabs (v - 0) <= (2 - 0) / 65535)%Q /\
               (0 <= d <= 2 -> Qabs (v - d) <= (2 - 0) / 65535)%Q /\
               (2 <= d -> Qabs (v - 2) <= (2 - 0) / 65535)%Q)
            (Packets.data depth)
            (Packets.dequantize (fun b => b) false p).
Proof.
  intros depth. eexists. split; [vm_compute; reflexivity|].
  refine (proj2 (proj2 (proj2 (proj2 (proj2 (proj2
            (pack_then_dequantize_float32_within_scale (fun _ => 0) (fun b => b)
               (fun b => b) Config.default depth 5%Q 0%Q 2%Q false _
               (fun b => eq_refl) _ _ _ _ _))))))).
  - reflexivity.
  - split; discriminate.
  - discriminate.
  - discriminate.
  - vm_compute. reflexivity.
Defined.

(** Against [C2] as stated. With [z_min = 1.0] and [z_max] the float64
    nearest to 1.001 (a valid pair [z_min < z_max]) the float32 array cannot
    resolve the 65535 steps of the range. A pixel of depth 2 is clamped to
    float32(z_max) = 1.00100004673..., its normalised value rounds to 65538,
    and sixteen bits of that are the code 2. The code decodes to about
    1.00000003: further from the clamped input than the scale, whether the
    clamp is taken at [z_max] or at its float32. *)
Lemma narrow_range_wraps_the_code :
  let z_min := 1%Q in
  let z_max := Float.binary64 (1001 # 1000) in
  let depth := Packets.mkArray 1 1 [2%Q] in
  let r := PacketsFloat.pack_depth_payload (fun _ => 0) (fun b => b)
             Config.default depth 5%Q z_min z_max false in
  (z_min < z_max)%Q /\
  Float.binary64 z_min = z_min /\ Float.binary64 z_max = z_max /\
  Float.binary32 2 = 2%Q /\
  exists p v,
    r.2 = Py.Ok p /\
    Packets.data r.1 = [Float.binary32 z_max] /\
    Packets.read_u16_le (Packets.payload_bytes p) = [2] /\
    Packets.dequantize (fun b => b) false p = [v] /\
    (1 <= v < 1 + (1 # 10000000))%Q /\
    ~ (Qabs (v - z_max) <= (z_max - z_min) / 65535)%Q /\
    ~ (Qabs (v - Float.binary32 z_max) <= Packets.h_scale (Packets.header p))%Q.
Proof.
  cbv zeta.
  split; [vm_compute; reflexivity|].
  split; [vm_compute; reflexivity|]. split; [vm_compute; reflexivity|].
  split; [vm_compute; reflexivity|].
  eexists _, _. split; [vm_compute; reflexivity|].
  split; [vm_compute; reflexivity|]. split; [vm_compute; reflexivity|].
  split; [vm_compute; reflexivity|].
  split; [split; [vm_compute; discriminate | vm_compute; reflexivity]|].
  split; apply Qlt_not_le; vm_compute; reflexivity.
Qed.

(** ** The header of a degenerate range *)

Section HeaderFloatFacts.
Local Open Scope Q_scope.

(** The scale of a degenerate range of moderate magnitude: [1e-3 / 65535]
    up to rounding. *)
Lemma degenerate_scale_float (z_min : Q) :
  Qabs z_min <= 4294967296 ->
  let s := Float.binary32
             (Float.binary64
                (Float.binary64
                   (Float.binary64 (z_min + Float.binary64 (1 # 1000)) - z_min)
                 / 65535)) in
  Qabs (65535 * s - (1 # 1000)) <= 1 # 1000000.
Proof.
  intros Hz s. subst s.
  set (w := Float.binary64 (1 # 1000)).
  pose proof (binary64_error (1 # 1000)) as Ew. fold w in Ew.
  rewrite (Qabs_pos (1 # 1000)) in Ew by discriminate.
  apply Qabs_Qle_condition in Ew.
  set (A := Float.binary64 (z_min + w)).
  pose proof (binary64_error (z_min + w)) as EA. fold A in EA.
  pose proof (Qabs_triangle z_min w) as Htri.
  assert (Hw : Qabs w == w) by (apply Qabs_pos; lra).
  pose proof (Qabs_nonneg (z_min + w)) as Hzw.
  apply Qabs_Qle_condition in EA.
  set (D := Float.binary64 (A - z_min)).
  pose proof (binary64_error (A - z_min)) as ED. fold D in ED.
  rewrite (Qabs_pos (A - z_min)) in ED by lra.
  apply Qabs_Qle_condition in ED.
  set (D65 := D / 65535).
  assert (HD65 : D65 * 65535 == D) by (unfold D65; field).
  clearbody D65.
  set (sc := Float.binary64 D65).
  pose proof (binary64_error D65) as Esc. fold sc in Esc.
  rewrite (Qabs_pos D65) in Esc by lra.
  apply Qabs_Qle_condition in Esc.
  pose proof (binary32_error sc) as Es.
  rewrite (Qabs_pos sc) in Es by lra.
  apply Qabs_Qle_condition in Es.
  apply Qabs_Qle_condition. split; lra.
Qed.

(** For a regular range the header's bias, scale and z_max fit together up
    to rounding. *)
Lemma regular_header_float (z_min z_max : Q) :
  z_min < z_max ->
  let s := Float.binary32
             (Float.binary64 (Float.binary64 (z_max - z_min) / 65535)) in
  Qabs (Float.binary32 z_min + 65535 * s - Float.binary32 z_max)
  <= (Qabs z_min + Qabs z_max) * (1 # 16777216)
     + (z_max - z_min) * (1 # 8388608)
     + (1 # 1361129467683753853853498429727072845824).
Proof.
  intros Hlt s. subst s.
  pose proof (binary32_error z_min) as Elo. apply Qabs_Qle_condition in Elo.
  pose proof (binary32_error z_max) as Ehi. apply Qabs_Qle_condition in Ehi.
  pose proof (Qabs_nonneg z_min). pose proof (Qabs_nonneg z_max).
  set (D := Float.binary64 (z_max - z_min)).
  pose proof (binary64_error (z_max - z_min)) as ED. fold D in ED.
  rewrite (Qabs_pos (z_max - z_min)) in ED by lra.
  apply Qabs_Qle_condition in ED.
  assert (HD0 : 0 <= D) by (apply round_nonneg; lra).
  set (D65 := D / 65535).
  assert (HD65 : D65 * 65535 == D) by (unfold D65; field).
  clearbody D65.
  set (sc := Float.binary64 D65).
  pose proof (binary64_error D65) as Esc. fold sc in Esc.
  rewrite (Qabs_pos D65) in Esc by lra.
  apply Qabs_Qle_condition in Esc.
  assert (Hsc0 : 0 <= sc) by (apply round_nonneg; lra).
  pose proof (binary32_error sc) as Es.
  rewrite (Qabs_pos sc) in Es by lra.
  apply Qabs_Qle_condition in Es.
  apply Qabs_Qle_condition. split; lra.
Qed.

End HeaderFloatFacts.

(** [C10], as the code has it on floats. The header's [z_max] field is the
    float32 of the caller's [z_max] argument and its bias the float32 of
    [z_min], whether the range is degenerate or not.
    - When [z_max <= z_min] the scale comes from the adjusted bound
      [z_min + 1e-3], computed in float64, and the header's [z_max] is at
      most its bias. If moreover [|z_min| <= 2^32], then [65535 * scale] is
      within [1e-6] of [1e-3], so the largest reconstructable depth
      [bias + 65535 * scale] exceeds the header's [z_max] by at least
      [0.000999].
    - When [z_min < z_max] the scale comes from [z_max] itself, the bias is
      at most the header's [z_max], and [bias + 65535 * scale] agrees with
      the header's [z_max] up to the rounding of the three fields. *)
Theorem degenerate_range_header_float32 :
  forall (nonfinite_u2 : PacketsFloat.quotient -> Z)
         (zlib_compress : list Z -> list Z) (settings : Config.Settings)
         (depth : Packets.ndarray) (timestamp_ms z_min z_max : Q)
         (compress : bool) (p : Packets.DepthPayload),
    (PacketsFloat.pack_depth_payload nonfinite_u2 zlib_compress settings depth
       timestamp_ms z_min z_max compress).2 = Py.Ok p ->
    let h := Packets.header p in
    Packets.h_z_max h = Float.binary32 z_max /\
    Packets.h_bias h = Float.binary32 z_min /\
    ((z_max <= z_min)%Q ->
       Packets.h_scale h
       = Float.binary32
           (Float.binary64
              (Float.binary64
                 (Float.binary64 (z_min + Float.binary64 (1 # 1000)) - z_min)
               / 65535)) /\
       (Packets.h_z_max h <= Packets.h_bias h)%Q /\
       ((Qabs z_min <= 4294967296)%Q ->
          (Qabs (65535 * Packets.h_scale h - (1 # 1000)) <= 1 # 1000000)%Q /\
          (Packets.h_z_max h + (999 # 1000000)
           <= Packets.h_bias h + 65535 * Packets.h_scale h)%Q)) /\
    ((z_min < z_max)%Q ->
       Packets.h_scale h
       = Float.binary32 (Float.binary64 (Float.binary64 (z_max - z_min) / 65535)) /\
       (Packets.h_bias h <= Packets.h_z_max h)%Q /\
       (Qabs (Packets.h_bias h + 65535 * Packets.h_scale h - Packets.h_z_max h)
        <= (Qabs z_min + Qabs z_max) * (1 # 16777216)
           + (z_max - z_min) * (1 # 8388608)
           + (1 # 1361129467683753853853498429727072845824))%Q).
Proof.
  intros nf zc settings depth ts z_min z_max compress p Hp h.
  apply pack_depth_payload_float_Ok in Hp.
  unfold PacketsFloat.quantize_depth in Hp.
  destruct Hp as [Hh _]. subst h. rewrite Hh.
  cbn [Packets.h_z_max Packets.h_bias Packets.h_scale].
  split; [reflexivity|]. split; [reflexivity|].
  destruct (Qle_bool z_max z_min) eqn:E.
  - apply Qle_bool_iff in E. split.
    + intros _. split; [reflexivity|].
      assert (Hmono : (Float.binary32 z_max <= Float.binary32 z_min)%Q).
      { apply round_mono; [lia | exact E]. }
      split; [exact Hmono|].
      intros Hz. pose proof (degenerate_scale_float z_min Hz) as Hs.
      cbv zeta in Hs. split; [exact Hs|].
      apply Qabs_Qle_condition in Hs. lra.
    + intros Hlt. lra.
  - assert (Hlt : (z_min < z_max)%Q).
    { apply Qnot_le_lt. rewrite <- Qle_bool_iff. congruence. }
    split.
    + intros Hle. lra.
    + intros _. split; [reflexivity|]. split.
      * apply round_mono; [lia | lra].
      * exact (regular_header_float z_min z_max Hlt).
Qed.

Lemma degenerate_range_header_float32_witness :
  let depth := Packets.mkArray 1 2 [(1 # 2)%Q; 3%Q] in
  exists p,
    (PacketsFloat.pack_depth_payload (fun _ => 0) (fun b => b) Config.default
       depth 5%Q 1%Q 0%Q false).2 = Py.Ok p /\
    Packets.h_z_max (Packets.header p) = Float.binary32 0 /\
    Packets.h_bias (Packets.header p) = Float.binary32 1 /\
    (Packets.h_z_max (Packets.header p) <= Packets.h_bias (Packets.header p))%Q /\
    (Packets.h_z_max (Packets.header p) + (999 # 1000000)
     <= Packets.h_bias (Packets.header p)
        + 65535 * Packets.h_scale (Packets.header p))%Q.
Proof.
  intros depth. eexists. split; [vm_compute; reflexivity|].
  destruct (degenerate_range_header_float32 (fun _ => 0) (fun b => b)
              Config.default depth 5%Q 1%Q 0%Q false _
              ltac:(vm_compute; reflexivity))
    as (Hz & Hb & Hdeg & _).
  destruct (Hdeg ltac:(discriminate)) as (_ & Hle & Hmis).
  destruct (Hmis ltac:(discriminate)) as [_ Hgap].
  split; [exact Hz|]. split; [exact Hb|]. split; [exact Hle | exact Hgap].
Defined.

(** Against [C10] as stated. With [z_min = z_max = 2^53], a degenerate
    range of float64 numbers, the adjusted bound [z_min + 1e-3] rounds back
    to [z_min]: the scale is [0.0], in the payload and in the header, and
    [bias + 65535 * scale] equals the header's [z_max]. The mismatch is not
    there in this degenerate case. *)
Lemma huge_degenerate_range_has_zero_scale :
  let z := inject_Z (2 ^ 53) in
  let depth := Packets.mkArray 1 1 [z] in
  (z <= z)%Q /\ Float.binary64 z = z /\
  Float.binary64 (z + Float.binary64 (1 # 1000)) = z /\
  exists p,
    (PacketsFloat.pack_depth_payload (fun _ => 0) (fun b => b) Config.default
       depth 5%Q z z false).2 = Py.Ok p /\
    Packets.scale p = 0%Q /\
    Packets.h_scale (Packets.header p) = 0%Q /\
    (Packets.h_bias (Packets.header p)
     + 65535 * Packets.h_scale (Packets.header p)
     == Packets.h_z_max (Packets.header p))%Q.
Proof.
  cbv zeta.
  split; [apply Qle_refl|].
  split; [vm_compute; reflexivity|]. split; [vm_compute; reflexivity|].
  eexists. split; [vm_compute; reflexivity|].
  split; [reflexivity|]. split; [reflexivity|].
  vm_compute. reflexivity.
Qed.
